(** * Access control and pagination of the dog-daycare record backend

    A shallow embedding of the route handlers of
    [app/api/v1/routers/walk_reports.py], [app/api/v1/routers/health_records.py],
    [app/api/v1/routers/certificates.py] and of
    [app/services/certificate_service.py], with the theorems that settle what
    the specification says about them.

    Conventions of the embedding.
    - Primary keys and foreign keys are Python [str]: [string].
    - [date] and [datetime] columns are [Z] (a day number, a timestamp).
    - A table is the list of its rows in the order in which the store scans
      them.  SQL promises nothing about that order: the rows of one table in
      another scan order are the same data.
    - A handler runs in the monad [M]: it reads and writes the store, appends
      every call it makes on the session to a log, and either returns a
      value or raises. *)

From Stdlib Require Import String List ZArith Bool Lia Permutation Sorted.
From Stdlib Require Import OrdersEx RelationClasses.
Import ListNotations.

Local Open Scope string_scope.
Local Open Scope Z_scope.

(** ** Enumerations *)

(** Modelled from the spec: [app/models/user.py] is not among the sources;
    the spec gives the role of a principal as one of [USER], [ADMIN],
    [SUPER_ADMIN]. *)
Inductive UserRole : Type := USER | ADMIN | SUPER_ADMIN.

(** [app/models/walk_report.py], [class ReportStatus]. *)
Inductive ReportStatus : Type := DRAFT | PUBLIC | PRIVATE.

(** Modelled from the spec: [app/models/walk_participant.py] is not among
    the sources; the spec names the one member the code tests, [APPROVED].
    Every other member is carried by its name. *)
Inductive ParticipantStatus : Type :=
| APPROVED
| OTHER_PARTICIPANT_STATUS (name : string).

Definition UserRole_eqb (a b : UserRole) : bool :=
  match a, b with
  | USER, USER | ADMIN, ADMIN | SUPER_ADMIN, SUPER_ADMIN => true
  | _, _ => false
  end.

Definition ReportStatus_eqb (a b : ReportStatus) : bool :=
  match a, b with
  | DRAFT, DRAFT | PUBLIC, PUBLIC | PRIVATE, PRIVATE => true
  | _, _ => false
  end.

Definition ParticipantStatus_eqb (a b : ParticipantStatus) : bool :=
  match a, b with
  | APPROVED, APPROVED => true
  | OTHER_PARTICIPANT_STATUS n, OTHER_PARTICIPANT_STATUS m => String.eqb n m
  | _, _ => false
  end.

(** Python's [x in [a, b]] on enum members. *)
Definition role_in (r : UserRole) (l : list UserRole) : bool :=
  existsb (UserRole_eqb r) l.

(** ** Rows *)

(** Modelled from the spec: [app/models/owner.py] is not among the sources;
    [app/schemas/owner.py] gives [id] and the optional [user_id]. *)
Module Owner.
Record t : Type := mk { id : string; user_id : option string }.
End Owner.

(** Modelled from the spec: [app/models/user.py] is not among the sources;
    a principal is [{id, role, owner_ref: optional -> Owner}].  The handlers
    read [user.id], [user.role] and [user.owner]. *)
Module User.
Record t : Type := mk { id : string; role : UserRole; owner : option Owner.t }.
End User.

(** Modelled from the spec: [app/models/dog.py] is not among the sources;
    a dog is [{id, owner_id}]. *)
Module Dog.
Record t : Type := mk { id : string; owner_id : string }.
End Dog.

(** Modelled from the spec: [app/models/walk_event.py] is not among the
    sources; the handlers read [id] and [created_by_user_id]. *)
Module WalkEvent.
Record t : Type := mk { id : string; created_by_user_id : string }.
End WalkEvent.

(** Modelled from the spec: [app/models/walk_participant.py] is not among
    the sources; the handlers read [event_id], [owner_id] and [status]. *)
Module WalkParticipant.
Record t : Type := mk {
  event_id : string;
  owner_id : string;
  status : ParticipantStatus
}.
End WalkParticipant.

(** [app/models/walk_report.py], [class WalkReport].  The columns declared
    [nullable=False] are plain, the others options; [updated_at] takes no
    part in any handler and is left out. *)
Module WalkReport.
Record t : Type := mk {
  id : string;
  walk_event_id : string;
  author_user_id : string;
  title : string;
  content : option string;
  photos_json : option string;
  weather : option string;
  status : ReportStatus;
  created_at : Z
}.
End WalkReport.

(** [app/schemas/health_record.py], [class HealthRecordBase] without
    [record_date]: the request fields that [create_health_record] copies
    into the row and no handler inspects.  The two floats and the enum are
    carried in their textual form. *)
Module HealthFields.
Record t : Type := mk {
  weight : option string;
  temperature : option string;
  health_status : option string;
  symptoms : option string;
  treatment : option string;
  notes : option string;
  vet_visit : option string
}.
End HealthFields.

(** Modelled from the spec: [app/models/health_record.py] is not among the
    sources; the columns are those of [HealthRecordOut] and of the
    constructor call in [create_health_record]. *)
Module HealthRecord.
Record t : Type := mk {
  id : string;
  dog_id : string;
  record_date : Z;
  fields : HealthFields.t;
  author_user_id : string
}.
End HealthRecord.

(** [app/models/certificate.py], [class Certificate]; [cert_type] is stored
    by value, [expires_on] is nullable. *)
Module Certificate.
Record t : Type := mk {
  id : string;
  dog_id : string;
  cert_type : string;
  cert_number : option string;
  issuer : string;
  issued_on : Z;
  expires_on : option Z;
  file_url : option string;
  notes : option string;
  created_at : Z
}.
End Certificate.

(** ** The store and the session *)

Record Db : Type := mkDb {
  dogs : list Dog.t;
  owners : list Owner.t;
  walk_events : list WalkEvent.t;
  walk_participants : list WalkParticipant.t;
  walk_reports : list WalkReport.t;
  health_records : list HealthRecord.t;
  certificates : list Certificate.t
}.

Inductive Table : Type :=
| TDog | TOwner | TWalkEvent | TWalkParticipant
| TWalkReport | THealthRecord | TCertificate.

(** The calls a handler makes on its session: a query executed by
    [first()] or [all()], a query executed by [count()], [db.add],
    [db.delete], [db.commit] and [db.refresh]. *)
Inductive Call : Type :=
| SELECT (t : Table)
| COUNT (t : Table)
| ADD (t : Table)
| DELETE (t : Table)
| COMMIT
| REFRESH (t : Table).

Record Session : Type := mkSession { store : Db; executed : list Call }.

(** [fastapi.HTTPException]. *)
Record HTTPException : Type := mkHTTPException {
  status_code : Z;
  detail : string
}.

(** What a request can end in other than a value: an [HTTPException]
    raised by the handler, the framework's rejection of a [Query] parameter
    outside its [ge]/[le] bounds, the store's rejection of a commit
    (a [NULL] in a [nullable=False] column, a primary key already there),
    and the driver's refusal of an [OFFSET] or [LIMIT] it cannot bind, an
    exception no handler catches (the caller sees HTTP 500). *)
Inductive Failure : Type :=
| HTTPError (e : HTTPException)
| RequestValidationError
| IntegrityError
| OverflowError.

Definition HTTP_403_FORBIDDEN : Z := 403.
Definition HTTP_404_NOT_FOUND : Z := 404.

(** ** The handler monad *)

Definition M (A : Type) : Type := Session -> (Failure + A) * Session.

Definition ret {A : Type} (a : A) : M A := fun s => (inr a, s).

Definition bind {A B : Type} (m : M A) (k : A -> M B) : M B :=
  fun s =>
    match m s with
    | (inl e, s') => (inl e, s')
    | (inr a, s') => k a s'
    end.

Definition fail {A : Type} (e : Failure) : M A := fun s => (inl e, s).

(** [raise HTTPException(status_code=..., detail=...)]. *)
Definition raise {A : Type} (code : Z) (msg : string) : M A :=
  fail (HTTPError (mkHTTPException code msg)).

Declare Scope handler_scope.
Delimit Scope handler_scope with handler.
Notation "x <- c ;; k" := (bind c (fun x => k))
  (at level 61, c at next level, right associativity) : handler_scope.
Notation "c ;;; k" := (bind c (fun _ => k))
  (at level 61, right associativity) : handler_scope.
Local Open Scope handler_scope.

(** What a handler answers, the store it leaves and the calls it made. *)
Definition response {A : Type} (m : M A) (s : Session) : Failure + A :=
  fst (m s).

Definition store_after {A : Type} (m : M A) (s : Session) : Db :=
  store (snd (m s)).

Definition calls {A : Type} (m : M A) (s : Session) : list Call :=
  executed (snd (m s)).

Definition log_stmt (q : Call) : M unit :=
  fun s => (inr tt, mkSession (store s) (executed s ++ [q])).

Definition get_store : M Db := fun s => (inr (store s), s).

Definition put_store (d : Db) : M unit :=
  fun s => (inr tt, mkSession d (executed s)).

(** ** Queries *)

(** A mapped class: its table and the rows of that table in a store. *)
Class Model (R : Type) : Type := {
  tablename : Table;
  rows : Db -> list R
}.

#[export] Instance Model_Dog : Model Dog.t :=
  {| tablename := TDog; rows := dogs |}.
#[export] Instance Model_Owner : Model Owner.t :=
  {| tablename := TOwner; rows := owners |}.
#[export] Instance Model_WalkEvent : Model WalkEvent.t :=
  {| tablename := TWalkEvent; rows := walk_events |}.
#[export] Instance Model_WalkParticipant : Model WalkParticipant.t :=
  {| tablename := TWalkParticipant; rows := walk_participants |}.
#[export] Instance Model_WalkReport : Model WalkReport.t :=
  {| tablename := TWalkReport; rows := walk_reports |}.
#[export] Instance Model_HealthRecord : Model HealthRecord.t :=
  {| tablename := THealthRecord; rows := health_records |}.
#[export] Instance Model_Certificate : Model Certificate.t :=
  {| tablename := TCertificate; rows := certificates |}.

(** Ordered column types.  The store compares strings by its collation;
    the embedding takes the code-point order. *)
Class Ord (T : Type) : Type := { cmp : T -> T -> comparison }.
#[export] Instance Ord_Z : Ord Z := {| cmp := Z.compare |}.
#[export] Instance Ord_string : Ord string := {| cmp := String_as_OT.compare |}.

(** [column.desc()]: the row with the larger key comes first. *)
Definition desc {R T : Type} `{Ord T} (key : R -> T) (a b : R) : comparison :=
  cmp (key b) (key a).

(** The [ORDER BY] of several clauses: the first clause that tells two rows
    apart decides. *)
Fixpoint lexico {R : Type} (clauses : list (R -> R -> comparison))
  (a b : R) : comparison :=
  match clauses with
  | [] => Eq
  | c :: rest => match c a b with Eq => lexico rest a b | o => o end
  end.

(** The store's sort.  [ORDER BY] fixes the order of two rows only where
    the clauses tell them apart; rows that tie come out as the scan met
    them, which is one of the answers SQL allows.  The list of a table is
    the order in which one execution scans it: the plan of another query,
    or of the same query with another window, can scan the same rows in
    another order, so a statement about several executions holds of the
    program only when it allows each of them a scan of its own or when the
    clauses leave no tie. *)
Fixpoint insert_row {R : Type} (c : R -> R -> comparison) (x : R)
  (l : list R) : list R :=
  match l with
  | [] => [x]
  | y :: l' =>
      match c y x with
      | Lt => y :: insert_row c x l'
      | _ => x :: y :: l'
      end
  end.

Definition sort_rows {R : Type} (c : R -> R -> comparison) (l : list R)
  : list R :=
  fold_right (insert_row c) [] l.

(** [sqlalchemy.orm.Query]: built by [filter], [order_by], [offset] and
    [limit], executed by [first], [all] and [count]. *)
Record Query (R : Type) : Type := mkQuery {
  criteria : R -> bool;
  ordering : list (R -> R -> comparison);
  q_offset : option Z;
  q_limit : option Z
}.
Arguments mkQuery {R}.
Arguments criteria {R}.
Arguments ordering {R}.
Arguments q_offset {R}.
Arguments q_limit {R}.

Definition query (R : Type) : Query R := mkQuery (fun _ => true) [] None None.

Definition filter_ {R : Type} (q : Query R) (p : R -> bool) : Query R :=
  mkQuery (fun r => criteria q r && p r) (ordering q) (q_offset q) (q_limit q).

Definition order_by {R : Type} (q : Query R)
  (clauses : list (R -> R -> comparison)) : Query R :=
  mkQuery (criteria q) (ordering q ++ clauses) (q_offset q) (q_limit q).

Definition offset {R : Type} (q : Query R) (n : Z) : Query R :=
  mkQuery (criteria q) (ordering q) (Some n) (q_limit q).

Definition limit {R : Type} (q : Query R) (n : Z) : Query R :=
  mkQuery (criteria q) (ordering q) (q_offset q) (Some n).

(** The rows a query selects from a store, before [OFFSET] and [LIMIT]. *)
Definition selected {R : Type} `{Model R} (q : Query R) (d : Db) : list R :=
  sort_rows (lexico (ordering q)) (filter (criteria q) (rows d)).

(** [OFFSET] and [LIMIT] as SQLite, the store [app/db/session.py] names,
    reads them: a negative [OFFSET] skips nothing and a negative [LIMIT] is
    no limit.  A handler whose parameters pass their [ge] bounds sends
    neither. *)
Definition window {R : Type} (off lim : option Z) (l : list R) : list R :=
  let l' := match off with Some n => skipn (Z.to_nat n) l | None => l end in
  match lim with
  | Some n => if n <? 0 then l' else firstn (Z.to_nat n) l'
  | None => l'
  end.

Definition fetch {R : Type} `{Model R} (q : Query R) (d : Db) : list R :=
  window (q_offset q) (q_limit q) (selected q d).

(** [OFFSET] and [LIMIT] reach the store as bound parameters, and the
    driver binds a Python [int] only when it is a signed 64-bit integer;
    for any other it raises [OverflowError] when the statement is
    executed.  [page] and [skip] have no upper bound, so the offset of a
    list can be such a number. *)
Definition int64_max : Z := 2 ^ 63 - 1.

Definition int64 (n : Z) : bool := (- 2 ^ 63 <=? n) && (n <=? int64_max).

Definition bindable (p : option Z) : bool :=
  match p with Some n => int64 n | None => true end.

Definition all {R : Type} `{Model R} (q : Query R) : M (list R) :=
  log_stmt (SELECT tablename) ;;;
  if bindable (q_offset q) && bindable (q_limit q) then
    d <- get_store ;;
    ret (fetch q d)
  else fail OverflowError.

Definition first {R : Type} `{Model R} (q : Query R) : M (option R) :=
  log_stmt (SELECT tablename) ;;;
  d <- get_store ;;
  ret (hd_error (fetch q d)).

Definition count {R : Type} `{Model R} (q : Query R) : M Z :=
  log_stmt (COUNT tablename) ;;;
  d <- get_store ;;
  ret (Z.of_nat (length (fetch q d))).

(** Python truthiness of a [str]: the empty string is false. *)
Definition truthy (s : string) : bool := negb (String.eqb s "").

(** [{items, total, page, size, pages}], the response of the list
    handlers. *)
Record ListResponse (R : Type) : Type := mkListResponse {
  items : list R;
  total : Z;
  page : Z;
  size : Z;
  pages : Z
}.
Arguments mkListResponse {R}.
Arguments items {R}.
Arguments total {R}.
Arguments page {R}.
Arguments size {R}.
Arguments pages {R}.

(** [math.ceil(total / size)] for [size > 0].  Python divides in binary64;
    the quotient of a row count below [2^47] by a size of at most 100 is
    rounded to a float with the same ceiling, so the embedding takes the
    exact ceiling. *)
Definition math_ceil_div (a b : Z) : Z := - ((- a) / b).

(** [Query(default, ge=lo, le=hi)]: the framework rejects the request
    before the handler body runs. *)
Definition validate (ok : bool) : M unit :=
  if ok then ret tt else fail RequestValidationError.

(** ** [app/api/v1/routers/walk_reports.py] *)

Module walk_reports.

(** [app/schemas/walk_report.py], [class WalkReportCreate].  The
    [photos_json] validator runs before the handler and is not modelled. *)
Module WalkReportCreate.
Record t : Type := mk {
  walk_event_id : string;
  title : string;
  content : option string;
  photos_json : option string;
  weather : option string;
  status : option ReportStatus
}.
End WalkReportCreate.

(** [class WalkReportUpdate].  [dict(exclude_unset=True)] keeps the fields
    the request set, also those it set to [null]: the outer option is
    "set", the inner one the value. *)
Module WalkReportUpdate.
Record t : Type := mk {
  title : option (option string);
  content : option (option string);
  photos_json : option (option string);
  weather : option (option string);
  status : option (option ReportStatus)
}.
End WalkReportUpdate.

Definition _can_create_report (user : User.t) (event_id : string) : M bool :=
  if role_in (User.role user) [ADMIN; SUPER_ADMIN] then ret true else
  event <- first (filter_ (query WalkEvent.t)
                    (fun e => String.eqb (WalkEvent.id e) event_id)) ;;
  if match event with
     | Some e => String.eqb (WalkEvent.created_by_user_id e) (User.id user)
     | None => false
     end
  then ret true else
  match User.owner user with
  | Some owner =>
      participant <- first (filter_ (filter_ (filter_ (query WalkParticipant.t)
        (fun p => String.eqb (WalkParticipant.event_id p) event_id))
        (fun p => String.eqb (WalkParticipant.owner_id p) (Owner.id owner)))
        (fun p => ParticipantStatus_eqb (WalkParticipant.status p) APPROVED)) ;;
      match participant with
      | Some _ => ret true
      | None => ret false
      end
  | None => ret false
  end.

Definition _can_view_report (user : User.t) (report : WalkReport.t) : bool :=
  if ReportStatus_eqb (WalkReport.status report) PUBLIC then true else
  if role_in (User.role user) [ADMIN; SUPER_ADMIN] then true else
  if String.eqb (WalkReport.author_user_id report) (User.id user) then true
  else false.

(** [db.add(row); db.commit(); db.refresh(row)].  [uuid] is the value the
    column default [str(uuid4())] produces and [now] that of
    [datetime.utcnow]. *)
Definition add_walk_report (r : WalkReport.t) : M WalkReport.t :=
  log_stmt (ADD TWalkReport) ;;;
  log_stmt COMMIT ;;;
  d <- get_store ;;
  if existsb (fun r' => String.eqb (WalkReport.id r') (WalkReport.id r))
       (walk_reports d)
  then fail IntegrityError else
  put_store (mkDb (dogs d) (owners d) (walk_events d) (walk_participants d)
               (walk_reports d ++ [r]) (health_records d) (certificates d)) ;;;
  log_stmt (REFRESH TWalkReport) ;;;
  ret r.

Definition create_walk_report (uuid : string) (now : Z)
  (report_create : WalkReportCreate.t) (current_user : User.t)
  : M WalkReport.t :=
  event <- first (filter_ (query WalkEvent.t)
    (fun e => String.eqb (WalkEvent.id e)
                (WalkReportCreate.walk_event_id report_create))) ;;
  match event with
  | None => raise HTTP_404_NOT_FOUND "Walk event not found"
  | Some _ =>
  allowed <- _can_create_report current_user
               (WalkReportCreate.walk_event_id report_create) ;;
  if negb allowed then
    raise HTTP_403_FORBIDDEN
      "You can only create reports for events you created or participated in"
  else
  add_walk_report (WalkReport.mk
    uuid
    (WalkReportCreate.walk_event_id report_create)
    (User.id current_user)
    (WalkReportCreate.title report_create)
    (WalkReportCreate.content report_create)
    (WalkReportCreate.photos_json report_create)
    (WalkReportCreate.weather report_create)
    (match WalkReportCreate.status report_create with
     | Some st => st
     | None => DRAFT (* the column default *)
     end)
    now)
  end.

(** The filter of a regular user,
    [(WalkReport.status == ReportStatus.PUBLIC) |
     (WalkReport.author_user_id == current_user.id)]. *)
Definition visible_or_mine (current_user : User.t) (r : WalkReport.t) : bool :=
  ReportStatus_eqb (WalkReport.status r) PUBLIC
  || String.eqb (WalkReport.author_user_id r) (User.id current_user).

(** The tail that [list_walk_reports] and [list_event_reports] share word
    for word: order, count, window, page count. *)
Definition paginate_reports (query : Query WalkReport.t) (page size : Z)
  : M (ListResponse WalkReport.t) :=
  let query := order_by query [desc WalkReport.created_at] in
  total <- count query ;;
  let offset_ := (page - 1) * size in
  reports <- all (limit (offset query offset_) size) ;;
  let pages := if 0 <? total then math_ceil_div total size else 1 in
  ret (mkListResponse reports total page size pages).

(** [status_filter] is an enum member or [None], and every member is
    truthy; [walk_event_id] filters when it is a non-empty string. *)
Definition list_walk_reports (current_user : User.t)
  (walk_event_id : option string) (status_filter : option ReportStatus)
  (page size : Z) : M (ListResponse WalkReport.t) :=
  validate (1 <=? page) ;;;
  validate ((1 <=? size) && (size <=? 100)) ;;;
  let query := query WalkReport.t in
  let query :=
    match walk_event_id with
    | Some ev =>
        if truthy ev
        then filter_ query (fun r => String.eqb (WalkReport.walk_event_id r) ev)
        else query
    | None => query
    end in
  let query :=
    if role_in (User.role current_user) [ADMIN; SUPER_ADMIN] then
      match status_filter with
      | Some st =>
          filter_ query (fun r => ReportStatus_eqb (WalkReport.status r) st)
      | None => query
      end
    else
      match status_filter with
      | Some st =>
          filter_ query (fun r =>
            visible_or_mine current_user r
            && ReportStatus_eqb (WalkReport.status r) st)
      | None => filter_ query (visible_or_mine current_user)
      end in
  paginate_reports query page size.

(** The lookup that [get_walk_report], [update_walk_report] and
    [delete_walk_report] each start with. *)
Definition find_report (report_id : string) : M (option WalkReport.t) :=
  first (filter_ (query WalkReport.t)
           (fun r => String.eqb (WalkReport.id r) report_id)).

Definition get_walk_report (report_id : string) (current_user : User.t)
  : M WalkReport.t :=
  report <- find_report report_id ;;
  match report with
  | None => raise HTTP_404_NOT_FOUND "Walk report not found"
  | Some report =>
      if negb (_can_view_report current_user report) then
        raise HTTP_403_FORBIDDEN "Not authorized to view this report"
      else ret report
  end.

(** [for field, value in update_data.items(): setattr(report, field, value)]
    followed by the commit: the store refuses [NULL] in [title] and
    [status]. *)
Definition set_nullable {T : Type} (old : option T) (u : option (option T))
  : option T :=
  match u with Some v => v | None => old end.

Definition set_required {T : Type} (old : T) (u : option (option T))
  : option T :=
  match u with Some v => v | None => Some old end.

Definition setattrs (report : WalkReport.t) (u : WalkReportUpdate.t)
  : option WalkReport.t :=
  match set_required (WalkReport.title report) (WalkReportUpdate.title u),
        set_required (WalkReport.status report) (WalkReportUpdate.status u)
  with
  | Some title, Some st =>
      Some (WalkReport.mk
        (WalkReport.id report)
        (WalkReport.walk_event_id report)
        (WalkReport.author_user_id report)
        title
        (set_nullable (WalkReport.content report) (WalkReportUpdate.content u))
        (set_nullable (WalkReport.photos_json report)
           (WalkReportUpdate.photos_json u))
        (set_nullable (WalkReport.weather report) (WalkReportUpdate.weather u))
        st
        (WalkReport.created_at report))
  | _, _ => None
  end.

Definition replace_report (r : WalkReport.t) (l : list WalkReport.t)
  : list WalkReport.t :=
  map (fun r' => if String.eqb (WalkReport.id r') (WalkReport.id r)
                 then r else r') l.

Definition remove_report (r : WalkReport.t) (l : list WalkReport.t)
  : list WalkReport.t :=
  filter (fun r' => negb (String.eqb (WalkReport.id r') (WalkReport.id r))) l.

Definition update_walk_report (report_id : string)
  (report_update : WalkReportUpdate.t) (current_user : User.t)
  : M WalkReport.t :=
  report <- find_report report_id ;;
  match report with
  | None => raise HTTP_404_NOT_FOUND "Walk report not found"
  | Some report =>
      if negb (String.eqb (WalkReport.author_user_id report)
                 (User.id current_user))
      then raise HTTP_403_FORBIDDEN
             "Only the report author can update the report"
      else
      log_stmt COMMIT ;;;
      match setattrs report report_update with
      | None => fail IntegrityError
      | Some report' =>
          d <- get_store ;;
          put_store (mkDb (dogs d) (owners d) (walk_events d)
                       (walk_participants d)
                       (replace_report report' (walk_reports d))
                       (health_records d) (certificates d)) ;;;
          log_stmt (REFRESH TWalkReport) ;;;
          ret report'
      end
  end.

Definition delete_walk_report (report_id : string) (current_user : User.t)
  : M string :=
  report <- find_report report_id ;;
  match report with
  | None => raise HTTP_404_NOT_FOUND "Walk report not found"
  | Some report =>
      if negb (String.eqb (WalkReport.author_user_id report)
                 (User.id current_user))
         && negb (role_in (User.role current_user) [ADMIN; SUPER_ADMIN])
      then raise HTTP_403_FORBIDDEN
             "Only the report author or admin can delete the report"
      else
      log_stmt (DELETE TWalkReport) ;;;
      log_stmt COMMIT ;;;
      d <- get_store ;;
      put_store (mkDb (dogs d) (owners d) (walk_events d)
                   (walk_participants d)
                   (remove_report report (walk_reports d))
                   (health_records d) (certificates d)) ;;;
      ret "Walk report deleted successfully"
  end.

Definition list_event_reports (event_id : string) (current_user : User.t)
  (page size : Z) : M (ListResponse WalkReport.t) :=
  validate (1 <=? page) ;;;
  validate ((1 <=? size) && (size <=? 100)) ;;;
  event <- first (filter_ (query WalkEvent.t)
                    (fun e => String.eqb (WalkEvent.id e) event_id)) ;;
  match event with
  | None => raise HTTP_404_NOT_FOUND "Walk event not found"
  | Some _ =>
      let query := filter_ (query WalkReport.t)
        (fun r => String.eqb (WalkReport.walk_event_id r) event_id) in
      let query :=
        if negb (role_in (User.role current_user) [ADMIN; SUPER_ADMIN])
        then filter_ query (visible_or_mine current_user)
        else query in
      paginate_reports query page size
  end.

End walk_reports.

(** ** [app/api/v1/routers/health_records.py] *)

Module health_records.

(** [app/schemas/health_record.py], [class HealthRecordCreate]. *)
Module HealthRecordCreate.
Record t : Type := mk {
  dog_id : string;
  record_date : Z;
  fields : HealthFields.t
}.
End HealthRecordCreate.

(** [Owner.user_id == user.id] on a nullable column: [NULL] matches
    nothing. *)
Definition owner_of (user : User.t) (o : Owner.t) : bool :=
  match Owner.user_id o with
  | Some uid => String.eqb uid (User.id user)
  | None => false
  end.

Definition get_user_dogs (user : User.t) : M (list Dog.t) :=
  if role_in (User.role user) [ADMIN; SUPER_ADMIN] then all (query Dog.t)
  else
    owner <- first (filter_ (query Owner.t) (owner_of user)) ;;
    match owner with
    | None => ret []
    | Some owner =>
        all (filter_ (query Dog.t)
               (fun d => String.eqb (Dog.owner_id d) (Owner.id owner)))
    end.

Definition check_dog_access (user : User.t) (dog_id : string) : M bool :=
  user_dogs <- get_user_dogs user ;;
  ret (existsb (fun dog => String.eqb (Dog.id dog) dog_id) user_dogs).

(** [db.add(row); db.commit(); db.refresh(row)]; the commit fails on a
    primary key that is already there. *)
Definition add_health_record (r : HealthRecord.t) : M HealthRecord.t :=
  log_stmt (ADD THealthRecord) ;;;
  log_stmt COMMIT ;;;
  d <- get_store ;;
  if existsb (fun r' => String.eqb (HealthRecord.id r') (HealthRecord.id r))
       (health_records d)
  then fail IntegrityError else
  put_store (mkDb (dogs d) (owners d) (walk_events d) (walk_participants d)
               (walk_reports d) (health_records d ++ [r]) (certificates d)) ;;;
  log_stmt (REFRESH THealthRecord) ;;;
  ret r.

(** [uuid] is the primary key the model's default produces. *)
Definition create_health_record (uuid : string)
  (health_create : HealthRecordCreate.t) (current_user : User.t)
  : M HealthRecord.t :=
  if negb (role_in (User.role current_user) [ADMIN; SUPER_ADMIN]) then
    raise HTTP_403_FORBIDDEN "Only administrators can create health records"
  else
  dog <- first (filter_ (query Dog.t)
    (fun d => String.eqb (Dog.id d) (HealthRecordCreate.dog_id health_create))) ;;
  match dog with
  | None => raise HTTP_404_NOT_FOUND "Dog not found"
  | Some _ =>
      add_health_record (HealthRecord.mk
        uuid
        (HealthRecordCreate.dog_id health_create)
        (HealthRecordCreate.record_date health_create)
        (HealthRecordCreate.fields health_create)
        (User.id current_user))
  end.

(** [HealthRecord.dog_id.in_(dog_ids)]. *)
Definition in_ (dog_ids : list string) (r : HealthRecord.t) : bool :=
  existsb (String.eqb (HealthRecord.dog_id r)) dog_ids.

(** The first block of [list_health_records] answers [None] where the
    source returns the empty page at once, and the narrowed query
    otherwise. *)
Definition scope_to_own_dogs (current_user : User.t)
  (query : Query HealthRecord.t) : M (option (Query HealthRecord.t)) :=
  if UserRole_eqb (User.role current_user) USER then
    user_dogs <- get_user_dogs current_user ;;
    match user_dogs with
    | [] => ret None
    | _ :: _ =>
        let dog_ids := map Dog.id user_dogs in
        ret (Some (filter_ query (in_ dog_ids)))
    end
  else ret (Some query).

(** [date] objects are always truthy: a date filter applies when given. *)
Definition list_health_records (current_user : User.t)
  (dog_id : option string) (date_from date_to : option Z) (page size : Z)
  : M (ListResponse HealthRecord.t) :=
  validate (1 <=? page) ;;;
  validate ((1 <=? size) && (size <=? 100)) ;;;
  let query := query HealthRecord.t in
  scoped <- scope_to_own_dogs current_user query ;;
  match scoped with
  | None => ret (mkListResponse [] 0 page size 1)
  | Some query =>
  query <-
    match dog_id with
    | Some dog =>
        if truthy dog then
          refused <-
            (if UserRole_eqb (User.role current_user) USER then
               ok <- check_dog_access current_user dog ;;
               ret (negb ok)
             else ret false) ;;
          if (refused : bool) then
            raise HTTP_403_FORBIDDEN
              "Not authorized to view health records for this dog"
          else ret (filter_ query
                      (fun r => String.eqb (HealthRecord.dog_id r) dog))
        else ret query
    | None => ret query
    end ;;
  let query :=
    match date_from with
    | Some d => filter_ query (fun r => d <=? HealthRecord.record_date r)
    | None => query
    end in
  let query :=
    match date_to with
    | Some d => filter_ query (fun r => HealthRecord.record_date r <=? d)
    | None => query
    end in
  let query :=
    order_by query [desc HealthRecord.record_date; desc HealthRecord.id] in
  total <- count query ;;
  let offset_ := (page - 1) * size in
  records <- all (limit (offset query offset_) size) ;;
  let pages := if 0 <? total then math_ceil_div total size else 1 in
  ret (mkListResponse records total page size pages)
  end.

Definition get_health_record (record_id : string) (current_user : User.t)
  : M HealthRecord.t :=
  record <- first (filter_ (query HealthRecord.t)
                     (fun r => String.eqb (HealthRecord.id r) record_id)) ;;
  match record with
  | None => raise HTTP_404_NOT_FOUND "Health record not found"
  | Some record =>
      if UserRole_eqb (User.role current_user) USER then
        ok <- check_dog_access current_user (HealthRecord.dog_id record) ;;
        if negb ok then
          raise HTTP_403_FORBIDDEN "Not authorized to view this health record"
        else ret record
      else ret record
  end.

End health_records.

(** ** [app/services/certificate_service.py] *)

(** Modelled from the spec: [app/schemas/common.py] is not among the
    sources; the fields are those of the constructor call in
    [get_certificates]. *)
Record PaginatedResponse (R : Type) : Type := mkPaginatedResponse {
  p_items : list R;
  p_total : Z;
  p_page : Z;
  per_page : Z;
  p_pages : Z
}.
Arguments mkPaginatedResponse {R}.
Arguments p_items {R}.
Arguments p_total {R}.
Arguments p_page {R}.
Arguments per_page {R}.
Arguments p_pages {R}.

(** The operators the store evaluates on certificate columns: the
    case-insensitive pattern match [ILIKE] and the comparison of a [Date]
    column with the text of a date. *)
Class StoreOps : Type := {
  ilike : string -> string -> bool;
  date_ge : Z -> string -> bool;
  date_le : Z -> string -> bool
}.

Module certificate_service.

(** [app/schemas/certificate.py], [class CertificateCreate].  The bounds on
    the lengths and the five values of [cert_type] are checked before the
    service is reached and are not modelled. *)
Module CertificateCreate.
Record t : Type := mk {
  dog_id : string;
  cert_type : string;
  cert_number : option string;
  issuer : string;
  issued_on : Z;
  expires_on : option Z;
  file_url : option string;
  notes : option string
}.
End CertificateCreate.

(** [class CertificateUpdate]: every field optional; the outer option is
    "set by the request", the inner one the value, [None] for [null]. *)
Module CertificateUpdate.
Record t : Type := mk {
  dog_id : option (option string);
  cert_type : option (option string);
  cert_number : option (option string);
  issuer : option (option string);
  issued_on : option (option Z);
  expires_on : option (option Z);
  file_url : option (option string);
  notes : option (option string)
}.
End CertificateUpdate.

Section Service.

Context {ops : StoreOps}.

Definition get_certificate (certificate_id : string)
  : M (option Certificate.t) :=
  first (filter_ (query Certificate.t)
           (fun c => String.eqb (Certificate.id c) certificate_id)).

(** A comparison with a [NULL] [expires_on] selects nothing. *)
Definition expires (test : Z -> string -> bool) (bound : string)
  (c : Certificate.t) : bool :=
  match Certificate.expires_on c with
  | Some d => test d bound
  | None => false
  end.

Definition when_given (o : option string) (q : Query Certificate.t)
  (p : string -> Certificate.t -> bool) : Query Certificate.t :=
  match o with
  | Some v => if truthy v then filter_ q (p v) else q
  | None => q
  end.

Definition get_certificates (skip limit_ : Z)
  (dog_id cert_type issuer expires_after expires_before : option string)
  : M (PaginatedResponse Certificate.t) :=
  let query := query Certificate.t in
  let query := when_given dog_id query
    (fun v c => String.eqb (Certificate.dog_id c) v) in
  let query := when_given cert_type query
    (fun v c => String.eqb (Certificate.cert_type c) v) in
  let query := when_given issuer query
    (fun v c => ilike (Certificate.issuer c) ("%" ++ v ++ "%")) in
  let query := when_given expires_after query (expires date_ge) in
  let query := when_given expires_before query (expires date_le) in
  total <- count query ;;
  items <- all (limit (offset query skip) limit_) ;;
  let pages := if 0 <? limit_ then (total + limit_ - 1) / limit_ else 1 in
  let page := if 0 <? limit_ then skip / limit_ + 1 else 1 in
  ret (mkPaginatedResponse items total page limit_ pages).

Definition put_certificates (l : list Certificate.t) : M unit :=
  d <- get_store ;;
  put_store (mkDb (dogs d) (owners d) (walk_events d) (walk_participants d)
               (walk_reports d) (health_records d) l).

(** [uuid] is the value of [str(uuid4())] and [now] that of the column
    default [datetime.utcnow]; the commit fails on a primary key that is
    already there. *)
Definition create_certificate (uuid : string) (now : Z)
  (certificate : CertificateCreate.t) : M Certificate.t :=
  let db_certificate := Certificate.mk
    uuid
    (CertificateCreate.dog_id certificate)
    (CertificateCreate.cert_type certificate)
    (CertificateCreate.cert_number certificate)
    (CertificateCreate.issuer certificate)
    (CertificateCreate.issued_on certificate)
    (CertificateCreate.expires_on certificate)
    (CertificateCreate.file_url certificate)
    (CertificateCreate.notes certificate)
    now in
  log_stmt (ADD TCertificate) ;;;
  log_stmt COMMIT ;;;
  d <- get_store ;;
  if existsb (fun c => String.eqb (Certificate.id c) uuid) (certificates d)
  then fail IntegrityError else
  put_certificates (certificates d ++ [db_certificate]) ;;;
  log_stmt (REFRESH TCertificate) ;;;
  ret db_certificate.

(** The [setattr] loop of [update_certificate] followed by the commit: the
    store refuses [NULL] in [dog_id], [cert_type], [issuer] and
    [issued_on]. *)
Definition set_nullable {T : Type} (old : option T) (u : option (option T))
  : option T :=
  match u with Some v => v | None => old end.

Definition set_required {T : Type} (old : T) (u : option (option T))
  : option T :=
  match u with Some v => v | None => Some old end.

Definition setattrs (c : Certificate.t) (u : CertificateUpdate.t)
  : option Certificate.t :=
  match set_required (Certificate.dog_id c) (CertificateUpdate.dog_id u),
        set_required (Certificate.cert_type c) (CertificateUpdate.cert_type u),
        set_required (Certificate.issuer c) (CertificateUpdate.issuer u),
        set_required (Certificate.issued_on c) (CertificateUpdate.issued_on u)
  with
  | Some dog_id, Some cert_type, Some issuer, Some issued_on =>
      Some (Certificate.mk
        (Certificate.id c)
        dog_id
        cert_type
        (set_nullable (Certificate.cert_number c)
           (CertificateUpdate.cert_number u))
        issuer
        issued_on
        (set_nullable (Certificate.expires_on c)
           (CertificateUpdate.expires_on u))
        (set_nullable (Certificate.file_url c) (CertificateUpdate.file_url u))
        (set_nullable (Certificate.notes c) (CertificateUpdate.notes u))
        (Certificate.created_at c))
  | _, _, _, _ => None
  end.

Definition replace_certificate (c : Certificate.t) (l : list Certificate.t)
  : list Certificate.t :=
  map (fun c' => if String.eqb (Certificate.id c') (Certificate.id c)
                 then c else c') l.

Definition remove_certificate (c : Certificate.t) (l : list Certificate.t)
  : list Certificate.t :=
  filter (fun c' => negb (String.eqb (Certificate.id c') (Certificate.id c)))
    l.

(** Returns [None] for an id that is not there. *)
Definition update_certificate (certificate_id : string)
  (certificate : CertificateUpdate.t) : M (option Certificate.t) :=
  db_certificate <- first (filter_ (query Certificate.t)
    (fun c => String.eqb (Certificate.id c) certificate_id)) ;;
  match db_certificate with
  | None => ret None
  | Some db_certificate =>
      log_stmt COMMIT ;;;
      match setattrs db_certificate certificate with
      | None => fail IntegrityError
      | Some db_certificate' =>
          d <- get_store ;;
          put_certificates
            (replace_certificate db_certificate' (certificates d)) ;;;
          log_stmt (REFRESH TCertificate) ;;;
          ret (Some db_certificate')
      end
  end.

Definition delete_certificate (certificate_id : string) : M bool :=
  db_certificate <- first (filter_ (query Certificate.t)
    (fun c => String.eqb (Certificate.id c) certificate_id)) ;;
  match db_certificate with
  | None => ret false
  | Some db_certificate =>
      log_stmt (DELETE TCertificate) ;;;
      log_stmt COMMIT ;;;
      d <- get_store ;;
      put_certificates (remove_certificate db_certificate (certificates d)) ;;;
      ret true
  end.

Definition get_certificates_by_dog_id (dog_id : string)
  : M (list Certificate.t) :=
  all (filter_ (query Certificate.t)
         (fun c => String.eqb (Certificate.dog_id c) dog_id)).

(** [date + timedelta(days=n)] on day numbers ([date.toordinal]): Python
    raises [OverflowError] for [|n| > 999999999] and for a result outside
    [date.min .. date.max], the ordinals 1 to 3652059. *)
Definition date_add_days (d n : Z) : option Z :=
  if (Z.abs n <=? 999999999) && (1 <=? d + n) && (d + n <=? 3652059)
  then Some (d + n) else None.

(** [today] and [today'] are the two readings of [date.today()], the first
    for [expiry_date], the second inside the filter.  [None] stands for the
    [OverflowError] of the date arithmetic, raised before any query. *)
Definition get_expiring_certificates (today today' : Z) (days_ahead : Z)
  : M (option (list Certificate.t)) :=
  match date_add_days today days_ahead with
  | None => ret None
  | Some expiry_date =>
      l <- all (filter_ (query Certificate.t)
        (fun c =>
           match Certificate.expires_on c with
           | Some e => (e <=? expiry_date) && (today' <=? e)
           | None => false
           end)) ;;
      ret (Some l)
  end.

End Service.

End certificate_service.

(** ** [app/api/v1/routers/certificates.py] *)

Module certificates.

Section Routes.

Context {ops : StoreOps}.

(** [current_user] comes from [get_current_user]: any authenticated
    user. *)
Definition get_certificates (skip limit_ : Z)
  (dog_id cert_type issuer expires_after expires_before : option string)
  (current_user : User.t) : M (PaginatedResponse Certificate.t) :=
  validate (0 <=? skip) ;;;
  validate ((1 <=? limit_) && (limit_ <=? 1000)) ;;;
  certificate_service.get_certificates skip limit_
    dog_id cert_type issuer expires_after expires_before.

Definition get_certificate (certificate_id : string) (current_user : User.t)
  : M Certificate.t :=
  certificate <- certificate_service.get_certificate certificate_id ;;
  match certificate with
  | None => raise 404 "Certificate not found"
  | Some certificate => ret certificate
  end.

(** The three write routes take [current_user] from
    [get_current_admin_user], which is not among the sources: what follows
    is what runs once that dependency has let the caller in. *)
Definition create_certificate (uuid : string) (now : Z)
  (certificate : certificate_service.CertificateCreate.t)
  (current_user : User.t) : M Certificate.t :=
  certificate_service.create_certificate uuid now certificate.

Definition update_certificate (certificate_id : string)
  (certificate : certificate_service.CertificateUpdate.t)
  (current_user : User.t) : M (option Certificate.t) :=
  db_certificate <- certificate_service.get_certificate certificate_id ;;
  match db_certificate with
  | None => raise 404 "Certificate not found"
  | Some _ =>
      certificate_service.update_certificate certificate_id certificate
  end.

Definition delete_certificate (certificate_id : string)
  (current_user : User.t) : M string :=
  db_certificate <- certificate_service.get_certificate certificate_id ;;
  match db_certificate with
  | None => raise 404 "Certificate not found"
  | Some _ =>
      certificate_service.delete_certificate certificate_id ;;;
      ret "Certificate deleted successfully"
  end.

End Routes.

End certificates.

(** ** [app/core/config.py] *)

Module config.

Section Settings.

(** A [str] is the list of its code points here, so that [strip] sees the
    characters Python sees.  [isspace] is [str.isspace] on one character,
    the set of characters that [strip()] removes. *)
Variable isspace : Z -> bool.

Definition comma : Z := 44.

(** [s.split(",")]: one more piece than there are commas, [['']] for the
    empty string. *)
Fixpoint split (s : list Z) : list (list Z) :=
  match s with
  | [] => [[]]
  | c :: s' =>
      if c =? comma then [] :: split s'
      else match split s' with
           | piece :: pieces => (c :: piece) :: pieces
           | [] => [[c]]
           end
  end.

Fixpoint lstrip (s : list Z) : list Z :=
  match s with
  | c :: s' => if isspace c then lstrip s' else s
  | [] => []
  end.

Definition rstrip (s : list Z) : list Z := rev (lstrip (rev s)).

Definition strip (s : list Z) : list Z := rstrip (lstrip s).

(** [Settings.cors_origins_list]:
    [[origin.strip() for origin in self.CORS_ORIGINS.split(",")]]. *)
Definition cors_origins_list (CORS_ORIGINS : list Z) : list (list Z) :=
  map strip (split CORS_ORIGINS).

End Settings.

End config.

(** ** [app/main.py]: [create_booking] *)

Module main.

Section Bookings.

(** The values of a JSON object, with the strings among them. *)
Variable Any : Type.
Variable str : string -> Any.

(** A [dict]: its items in insertion order, one per key. *)
Definition dict : Type := list (string * Any).

(** [d[k] = v]: a key that is there keeps its place and takes the new
    value, a new key goes to the end. *)
Fixpoint setitem (k : string) (v : Any) (d : dict) : dict :=
  match d with
  | [] => [(k, v)]
  | (k', v') :: d' =>
      if String.eqb k' k then (k', v) :: d' else (k', v') :: setitem k v d'
  end.

Definition getitem (k : string) (d : dict) : option Any :=
  option_map snd (find (fun kv => String.eqb (fst kv) k) d).

(** [{"id": ..., "message": ..., **booking_data}]: the items of
    [booking_data] are written over the two literal ones, in order.  The
    body of the handler does not read [user]; the dependency that supplies
    it runs before the handler and is left out. *)
Definition create_booking (booking_data : dict) : dict :=
  fold_left (fun acc kv => setitem (fst kv) (snd kv) acc) booking_data
    [("id", str "new_booking_id");
     ("message", str "Booking created successfully")].

End Bookings.

End main.

(** * Vocabulary of the statements *)

Section Vocabulary.

Import walk_reports health_records.

(** The report a handler finds under an id. *)
Definition report_at (d : Db) (report_id : string) : option WalkReport.t :=
  find (fun r => String.eqb (WalkReport.id r) report_id) (walk_reports d).

Definition event_at (d : Db) (event_id : string) : option WalkEvent.t :=
  find (fun e => String.eqb (WalkEvent.id e) event_id) (walk_events d).

(** The request was refused with [403 Forbidden]. *)
Definition forbidden {A : Type} (r : Failure + A) : bool :=
  match r with
  | inl (HTTPError e) => status_code e =? HTTP_403_FORBIDDEN
  | _ => false
  end.

(** The request was refused with [404 Not Found]. *)
Definition not_found {A : Type} (r : Failure + A) : bool :=
  match r with
  | inl (HTTPError e) => status_code e =? HTTP_404_NOT_FOUND
  | _ => false
  end.

Definition elevated (u : User.t) : Prop :=
  User.role u = ADMIN \/ User.role u = SUPER_ADMIN.

(** The 2 x 3 table of a regular user: authorship by status. *)
Definition view_matrix (is_author : bool) (st : ReportStatus) : bool :=
  match is_author, st with
  | true, DRAFT => true
  | true, PUBLIC => true
  | true, PRIVATE => true
  | false, DRAFT => false
  | false, PUBLIC => true
  | false, PRIVATE => false
  end.

(** The principal has a linked Owner with an [APPROVED] participation row
    for the event. *)
Definition approved_participant (d : Db) (u : User.t) (event_id : string)
  : Prop :=
  exists (o : Owner.t) (p : WalkParticipant.t),
    User.owner u = Some o
    /\ In p (walk_participants d)
    /\ WalkParticipant.event_id p = event_id
    /\ WalkParticipant.owner_id p = Owner.id o
    /\ WalkParticipant.status p = APPROVED.

(** The criteria of the participant query of [_can_create_report]. *)
Definition participation (event_id : string) (o : Owner.t)
  (p : WalkParticipant.t) : bool :=
  String.eqb (WalkParticipant.event_id p) event_id
  && String.eqb (WalkParticipant.owner_id p) (Owner.id o)
  && ParticipantStatus_eqb (WalkParticipant.status p) APPROVED.

(** What [_can_create_report] answers, read off the store. *)
Definition create_verdict (d : Db) (u : User.t) (event_id : string) : bool :=
  role_in (User.role u) [ADMIN; SUPER_ADMIN]
  || match event_at d event_id with
     | Some e => String.eqb (WalkEvent.created_by_user_id e) (User.id u)
     | None => false
     end
  || match User.owner u with
     | Some o =>
         match find (participation event_id o) (walk_participants d) with
         | Some _ => true
         | None => false
         end
     | None => false
     end.

(** The [walk_event_id] filter: applied for a non-empty string. *)
Definition event_filter (walk_event_id : option string) (r : WalkReport.t)
  : bool :=
  match walk_event_id with
  | Some ev =>
      if truthy ev then String.eqb (WalkReport.walk_event_id r) ev else true
  | None => true
  end.

Definition status_is (status_filter : option ReportStatus)
  (r : WalkReport.t) : bool :=
  match status_filter with
  | Some st => ReportStatus_eqb (WalkReport.status r) st
  | None => true
  end.

(** The rows [list_walk_reports] selects, read off its three branches. *)
Definition listed (u : User.t) (walk_event_id : option string)
  (status_filter : option ReportStatus) (r : WalkReport.t) : bool :=
  event_filter walk_event_id r
  && (if role_in (User.role u) [ADMIN; SUPER_ADMIN]
      then status_is status_filter r
      else visible_or_mine u r && status_is status_filter r).

Definition page_count (total size : Z) : Z :=
  if 0 <? total then math_ceil_div total size else 1.

Definition reports_page (matching : list WalkReport.t) (page size : Z)
  : ListResponse WalkReport.t :=
  mkListResponse
    (window (Some ((page - 1) * size)) (Some size)
       (sort_rows (lexico [desc WalkReport.created_at]) matching))
    (Z.of_nat (length matching)) page size
    (page_count (Z.of_nat (length matching)) size).

(** The query [certificate_service.get_certificates] builds from its
    filters. *)
Definition certificate_query {ops : StoreOps}
  (dog_id cert_type issuer expires_after expires_before : option string)
  : Query Certificate.t :=
  let query := query Certificate.t in
  let query := certificate_service.when_given dog_id query
    (fun v c => String.eqb (Certificate.dog_id c) v) in
  let query := certificate_service.when_given cert_type query
    (fun v c => String.eqb (Certificate.cert_type c) v) in
  let query := certificate_service.when_given issuer query
    (fun v c => ilike (Certificate.issuer c) ("%" ++ v ++ "%")) in
  let query := certificate_service.when_given expires_after query
    (certificate_service.expires date_ge) in
  certificate_service.when_given expires_before query
    (certificate_service.expires date_le).

Definition certificates_page (matching : list Certificate.t)
  (skip limit_ : Z) : PaginatedResponse Certificate.t :=
  mkPaginatedResponse
    (window (Some skip) (Some limit_) matching)
    (Z.of_nat (length matching))
    (if 0 <? limit_ then skip / limit_ + 1 else 1)
    limit_
    (if 0 <? limit_
     then (Z.of_nat (length matching) + limit_ - 1) / limit_
     else 1).

(** The dogs [get_user_dogs] answers, read off the store. *)
Definition user_dogs (d : Db) (u : User.t) : list Dog.t :=
  if role_in (User.role u) [ADMIN; SUPER_ADMIN] then dogs d
  else match find (owner_of u) (owners d) with
       | None => []
       | Some o =>
           filter (fun dog => String.eqb (Dog.owner_id dog) (Owner.id o))
             (dogs d)
       end.

Definition dog_at (d : Db) (dog_id : string) : option Dog.t :=
  find (fun dog => String.eqb (Dog.id dog) dog_id) (dogs d).

Definition health_record_at (d : Db) (record_id : string)
  : option HealthRecord.t :=
  find (fun r => String.eqb (HealthRecord.id r) record_id) (health_records d).

Definition certificate_at (d : Db) (certificate_id : string)
  : option Certificate.t :=
  find (fun c => String.eqb (Certificate.id c) certificate_id)
    (certificates d).

(** [x] sorts strictly before [y] under the clauses [c]. *)
Definition comes_before {R : Type} (c : R -> R -> comparison) (x y : R)
  : Prop :=
  c x y = Lt.

(** What [ORDER BY] promises: the answer holds the rows of the selection,
    and no row stands before one that the clauses put ahead of it.  Rows
    that tie may come in any order. *)
Definition answers_order_by {R : Type} (c : R -> R -> comparison)
  (selection answer : list R) : Prop :=
  Permutation selection answer
  /\ StronglySorted (fun x y => c x y <> Gt) answer.

(** [order_by(WalkReport.created_at.desc())]. *)
Definition report_order : WalkReport.t -> WalkReport.t -> comparison :=
  lexico [desc WalkReport.created_at].

(** [order_by(HealthRecord.record_date.desc(), HealthRecord.id.desc())]. *)
Definition health_order : HealthRecord.t -> HealthRecord.t -> comparison :=
  lexico [desc HealthRecord.record_date; desc HealthRecord.id].

(** The calls of [get_user_dogs]. *)
Definition user_dogs_calls (d : Db) (u : User.t) : list Call :=
  if role_in (User.role u) [ADMIN; SUPER_ADMIN] then [SELECT TDog]
  else match find (owner_of u) (owners d) with
       | None => [SELECT TOwner]
       | Some _ => [SELECT TOwner; SELECT TDog]
       end.

Definition records_page (matching : list HealthRecord.t) (page size : Z)
  : ListResponse HealthRecord.t :=
  mkListResponse
    (window (Some ((page - 1) * size)) (Some size)
       (sort_rows health_order matching))
    (Z.of_nat (length matching)) page size
    (page_count (Z.of_nat (length matching)) size).

Definition date_window (date_from date_to : option Z) (r : HealthRecord.t)
  : bool :=
  match date_from with
  | Some d => d <=? HealthRecord.record_date r
  | None => true
  end
  && match date_to with
     | Some d => HealthRecord.record_date r <=? d
     | None => true
     end.

(** What [list_health_records] decides before it counts: a refusal, the
    empty page ([None]), or the criteria of the rows to count and fetch.
    [own] is the answer of [get_user_dogs]. *)
Definition health_plan (own : list Dog.t) (u : User.t)
  (dog_id : option string) (date_from date_to : option Z)
  : Failure + option (HealthRecord.t -> bool) :=
  let regular := UserRole_eqb (User.role u) USER in
  let scope r := if regular then in_ (map Dog.id own) r else true in
  if regular && match own with [] => true | _ :: _ => false end
  then inr None
  else
    match dog_id with
    | Some dog =>
        if truthy dog then
          if regular
             && negb (existsb (fun d => String.eqb (Dog.id d) dog) own)
          then inl (HTTPError (mkHTTPException HTTP_403_FORBIDDEN
                      "Not authorized to view health records for this dog"))
          else inr (Some (fun r =>
                 scope r && String.eqb (HealthRecord.dog_id r) dog
                 && date_window date_from date_to r))
        else inr (Some (fun r => scope r && date_window date_from date_to r))
    | None => inr (Some (fun r => scope r && date_window date_from date_to r))
    end.

Definition listed_ids (r : Failure + ListResponse WalkReport.t)
  : option (list string) :=
  match r with
  | inr resp => Some (map WalkReport.id (items resp))
  | inl _ => None
  end.

(** The row [create_walk_report] builds from the request. *)
Definition new_report (uuid : string) (now : Z) (rc : WalkReportCreate.t)
  (u : User.t) : WalkReport.t :=
  WalkReport.mk uuid (WalkReportCreate.walk_event_id rc) (User.id u)
    (WalkReportCreate.title rc) (WalkReportCreate.content rc)
    (WalkReportCreate.photos_json rc) (WalkReportCreate.weather rc)
    (match WalkReportCreate.status rc with Some st => st | None => DRAFT end)
    now.

(** The store with another table of walk reports. *)
Definition with_walk_reports (d : Db) (l : list WalkReport.t) : Db :=
  mkDb (dogs d) (owners d) (walk_events d) (walk_participants d) l
    (health_records d) (certificates d).

Definition with_health_records (d : Db) (l : list HealthRecord.t) : Db :=
  mkDb (dogs d) (owners d) (walk_events d) (walk_participants d)
    (walk_reports d) l (certificates d).

Definition with_certificates (d : Db) (l : list Certificate.t) : Db :=
  mkDb (dogs d) (owners d) (walk_events d) (walk_participants d)
    (walk_reports d) (health_records d) l.

(** The items of a list response, none for a failure. *)
Definition items_of {R : Type} (r : Failure + ListResponse R) : list R :=
  match r with
  | inr resp => items resp
  | inl _ => []
  end.

(** The user's Owner row owns the dog: what [check_dog_access] tests for a
    regular user. *)
Definition owns (d : Db) (u : User.t) (dog_id : string) : Prop :=
  exists (o : Owner.t) (dog : Dog.t),
    find (owner_of u) (owners d) = Some o
    /\ In dog (dogs d)
    /\ Dog.id dog = dog_id
    /\ Dog.owner_id dog = Owner.id o.

(** The row [create_health_record] builds from the request. *)
Definition new_health_record (uuid : string) (hc : HealthRecordCreate.t)
  (u : User.t) : HealthRecord.t :=
  HealthRecord.mk uuid (HealthRecordCreate.dog_id hc)
    (HealthRecordCreate.record_date hc) (HealthRecordCreate.fields hc)
    (User.id u).

(** The row [create_certificate] builds from the request. *)
Definition new_certificate (uuid : string) (now : Z)
  (cc : certificate_service.CertificateCreate.t) : Certificate.t :=
  Certificate.mk uuid
    (certificate_service.CertificateCreate.dog_id cc)
    (certificate_service.CertificateCreate.cert_type cc)
    (certificate_service.CertificateCreate.cert_number cc)
    (certificate_service.CertificateCreate.issuer cc)
    (certificate_service.CertificateCreate.issued_on cc)
    (certificate_service.CertificateCreate.expires_on cc)
    (certificate_service.CertificateCreate.file_url cc)
    (certificate_service.CertificateCreate.notes cc)
    now.

(** A filter given as the empty string, read as no filter. *)
Definition blank (o : option string) : option string :=
  match o with
  | Some v => if String.eqb v "" then None else Some v
  | None => None
  end.

(** [",".join(pieces)]. *)
Fixpoint join_comma (pieces : list (list Z)) : list Z :=
  match pieces with
  | [] => []
  | [piece] => piece
  | piece :: rest => (piece ++ config.comma :: join_comma rest)%list
  end.

(** A string that neither begins nor ends with a character [strip]
    removes. *)
Definition trimmed (isspace : Z -> bool) (o : list Z) : Prop :=
  (forall c o', o = c :: o' -> isspace c = false)
  /\ (forall c o', o = (o' ++ [c])%list -> isspace c = false).

(** An origin as it stands in [CORS_ORIGINS]: blanks, the origin, blanks. *)
Definition padded (entry : list Z * list Z * list Z) : list Z :=
  let '(before, origin, after) := entry in (before ++ origin ++ after)%list.

Definition origin_of (entry : list Z * list Z * list Z) : list Z :=
  let '(_, origin, _) := entry in origin.

(** The same walk reports, met by another scan in another order. *)
Definition same_reports (s s' : Session) : Prop :=
  Permutation (walk_reports (store s)) (walk_reports (store s')).

(** A computation that leaves the store as it found it. *)
Definition read_only {A : Type} (m : M A) : Prop :=
  forall s : Session, store_after m s = store s.

End Vocabulary.

(** * Stores and principals of the concrete runs *)

Section Runs.

Import walk_reports health_records.

Definition alice : User.t := User.mk "u-alice" USER None.
Definition root_admin : User.t := User.mk "u-root" ADMIN None.
Definition alice_report : WalkReport.t :=
  WalkReport.mk "r1" "e1" "u-alice" "Morning walk" None None None PRIVATE 10.
Definition one_report_store : Db :=
  mkDb [] [] [WalkEvent.mk "e1" "u-carol"] [] [alice_report] [] [].
Definition no_patch : WalkReportUpdate.t :=
  WalkReportUpdate.mk None None None None None.

Definition owner_bob : Owner.t := Owner.mk "o-bob" (Some "u-bob").
Definition bob : User.t := User.mk "u-bob" USER (Some owner_bob).
Definition walk_store : Db :=
  mkDb [] [owner_bob] [WalkEvent.mk "e1" "u-carol"]
    [WalkParticipant.mk "e1" "o-bob" APPROVED] [alice_report] [] [].

Definition dave_private : WalkReport.t :=
  WalkReport.mk "r2" "e1" "u-dave" "Evening walk" None None None PRIVATE 20.
Definition two_private_store : Db :=
  mkDb [] [] [WalkEvent.mk "e1" "u-carol"] [] [alice_report; dave_private]
    [] [].

Definition no_fields : HealthFields.t :=
  HealthFields.mk None None None None None None None.

(** A store for the concrete runs; none of them gives a filter that
    reaches these operators. *)
Definition unused_ops : StoreOps :=
  {| ilike := fun _ _ => false;
     date_ge := fun _ _ => false;
     date_le := fun _ _ => false |}.

Definition owner_erin : Owner.t := Owner.mk "o-erin" (Some "u-erin").
Definition rabies_d2 : Certificate.t :=
  Certificate.mk "c1" "d2" "狂犬病" None "City vet" 100 (Some 465) None None
    100.
Definition checkup_d2 : HealthRecord.t :=
  HealthRecord.mk "h1" "d2" 120 no_fields "u-root".
Definition kennel_store : Db :=
  mkDb [Dog.mk "d1" "o-bob"; Dog.mk "d2" "o-erin"] [owner_bob; owner_erin]
    [] [] [] [checkup_d2] [rabies_d2].

Definition park_walk : WalkReport.t :=
  WalkReport.mk "ra" "e1" "u-alice" "Park" None None None PUBLIC 50.
Definition river_walk : WalkReport.t :=
  WalkReport.mk "rb" "e1" "u-alice" "River" None None None PUBLIC 50.

(** One table of two reports created at the same instant, scanned in the
    two possible orders. *)
Definition scan_park_first : Db :=
  mkDb [] [] [WalkEvent.mk "e1" "u-carol"] [] [park_walk; river_walk] [] [].
Definition scan_river_first : Db :=
  mkDb [] [] [WalkEvent.mk "e1" "u-carol"] [] [river_walk; park_walk] [] [].

(** The store of the two private reports as another scan meets it. *)
Definition two_private_rescanned : Db :=
  mkDb [] [] [WalkEvent.mk "e1" "u-carol"] [] [dave_private; alice_report]
    [] [].

Definition retitle : WalkReportUpdate.t :=
  WalkReportUpdate.mk (Some (Some "Dawn walk")) None None None None.

Definition checkup_d1 : HealthRecord.t :=
  HealthRecord.mk "h2" "d1" 130 no_fields "u-root".
Definition two_checkups_store : Db :=
  mkDb [Dog.mk "d1" "o-bob"; Dog.mk "d2" "o-erin"] [owner_bob; owner_erin]
    [] [] [] [checkup_d2; checkup_d1] [rabies_d2].
Definition two_checkups_rescanned : Db :=
  mkDb [Dog.mk "d1" "o-bob"; Dog.mk "d2" "o-erin"] [owner_bob; owner_erin]
    [] [] [] [checkup_d1; checkup_d2] [rabies_d2].

Definition rabies_request : certificate_service.CertificateCreate.t :=
  certificate_service.CertificateCreate.mk "d1" "狂犬病" None "City vet" 200
    (Some 565) None None.
Definition reissue : certificate_service.CertificateUpdate.t :=
  certificate_service.CertificateUpdate.mk None None None
    (Some (Some "County vet")) None None None None.

(** [str.isspace] of CPython 3 on one code point. *)
Definition py_isspace (c : Z) : bool :=
  ((9 <=? c) && (c <=? 13)) || ((28 <=? c) && (c <=? 32))
  || (c =? 133) || (c =? 160) || (c =? 5760)
  || ((8192 <=? c) && (c <=? 8202))
  || (c =? 8232) || (c =? 8233) || (c =? 8239) || (c =? 8287)
  || (c =? 12288).

End Runs.

(** * Facts about the query layer *)

Section QueryFacts.

Context {R : Type} `{Model R}.

Lemma hd_error_filter (p : R -> bool) (l : list R) :
  hd_error (filter p l) = find p l.
Proof.
  induction l as [|x l IH]; simpl; [reflexivity|].
  destruct (p x); simpl; auto.
Qed.

Lemma insert_row_unordered (x : R) (l : list R) :
  insert_row (lexico []) x l = x :: l.
Proof. destruct l; reflexivity. Qed.

Lemma sort_rows_unordered (l : list R) : sort_rows (lexico []) l = l.
Proof.
  unfold sort_rows.
  induction l as [|x l IH]; cbn [fold_right]; [reflexivity|].
  rewrite IH. apply insert_row_unordered.
Qed.

Lemma insert_row_perm (c : R -> R -> comparison) (x : R) (l : list R) :
  Permutation (x :: l) (insert_row c x l).
Proof.
  induction l as [|y l IH]; simpl; [reflexivity|].
  destruct (c y x); try reflexivity.
  rewrite perm_swap. now apply perm_skip.
Qed.

Lemma sort_rows_perm (c : R -> R -> comparison) (l : list R) :
  Permutation l (sort_rows c l).
Proof.
  unfold sort_rows.
  induction l as [|x l IH]; cbn [fold_right]; [constructor|].
  etransitivity; [apply perm_skip, IH|]. apply insert_row_perm.
Qed.

Lemma sort_rows_length (c : R -> R -> comparison) (l : list R) :
  length (sort_rows c l) = length l.
Proof. symmetry. apply Permutation_length, sort_rows_perm. Qed.

Lemma sort_rows_In (c : R -> R -> comparison) (l : list R) (x : R) :
  In x (sort_rows c l) <-> In x l.
Proof.
  split; apply Permutation_in; [symmetry|]; apply sort_rows_perm.
Qed.

(** A query with no [order_by], [offset] or [limit] answers [first()] with
    the first row in scan order that meets its criteria. *)
Lemma first_run (p : R -> bool) (s : Session) :
  first (filter_ (query R) p) s =
  (inr (find p (rows (store s))),
   mkSession (store s) (executed s ++ [SELECT tablename])).
Proof.
  unfold first, bind, log_stmt, get_store, ret, fetch, selected, window.
  simpl. rewrite sort_rows_unordered, hd_error_filter. reflexivity.
Qed.

Lemma first_query_run (q : Query R) (s : Session) :
  ordering q = [] -> q_offset q = None -> q_limit q = None ->
  first q s =
  (inr (find (criteria q) (rows (store s))),
   mkSession (store s) (executed s ++ [SELECT tablename])).
Proof.
  intros Ho Hf Hl.
  unfold first, bind, log_stmt, get_store, ret, fetch, selected, window.
  simpl. rewrite Ho, Hf, Hl, sort_rows_unordered, hd_error_filter.
  reflexivity.
Qed.

End QueryFacts.

Lemma UserRole_eqb_eq (a b : UserRole) : UserRole_eqb a b = true <-> a = b.
Proof. destruct a, b; simpl; split; congruence. Qed.

Lemma ReportStatus_eqb_eq (a b : ReportStatus) :
  ReportStatus_eqb a b = true <-> a = b.
Proof. destruct a, b; simpl; split; congruence. Qed.

Lemma ParticipantStatus_eqb_eq (a b : ParticipantStatus) :
  ParticipantStatus_eqb a b = true <-> a = b.
Proof.
  destruct a, b; simpl; split; try congruence.
  - intros E. apply String.eqb_eq in E. now subst.
  - intros E. injection E as ->. apply String.eqb_refl.
Qed.

Lemma role_in_admins (r : UserRole) :
  role_in r [ADMIN; SUPER_ADMIN] = true <-> r = ADMIN \/ r = SUPER_ADMIN.
Proof. destruct r; simpl; split; intuition congruence. Qed.

(** * Walk reports: who may view, create, update and delete *)

Section WalkReportPolicy.

Import walk_reports.

Lemma find_report_run (report_id : string) (s : Session) :
  find_report report_id s =
  (inr (report_at (store s) report_id),
   mkSession (store s) (executed s ++ [SELECT TWalkReport])).
Proof. unfold find_report. now rewrite first_run. Qed.

Lemma find_event_run (event_id : string) (s : Session) :
  first (filter_ (query WalkEvent.t)
           (fun e => String.eqb (WalkEvent.id e) event_id)) s =
  (inr (event_at (store s) event_id),
   mkSession (store s) (executed s ++ [SELECT TWalkEvent])).
Proof. now rewrite first_run. Qed.

Lemma update_walk_report_run (report_id : string) (upd : WalkReportUpdate.t)
  (u : User.t) (s : Session) (report : WalkReport.t) :
  report_at (store s) report_id = Some report ->
  response (update_walk_report report_id upd u) s =
  if String.eqb (WalkReport.author_user_id report) (User.id u)
  then match setattrs report upd with
       | Some report' => inr report'
       | None => inl IntegrityError
       end
  else inl (HTTPError (mkHTTPException HTTP_403_FORBIDDEN
              "Only the report author can update the report")).
Proof.
  intros Hr. unfold response, update_walk_report, bind.
  rewrite find_report_run, Hr.
  destruct (String.eqb _ _); simpl; [|reflexivity].
  destruct (setattrs report upd); reflexivity.
Qed.

Lemma delete_walk_report_run (report_id : string) (u : User.t) (s : Session)
  (report : WalkReport.t) :
  report_at (store s) report_id = Some report ->
  response (delete_walk_report report_id u) s =
  if negb (String.eqb (WalkReport.author_user_id report) (User.id u))
     && negb (role_in (User.role u) [ADMIN; SUPER_ADMIN])
  then inl (HTTPError (mkHTTPException HTTP_403_FORBIDDEN
              "Only the report author or admin can delete the report"))
  else inr "Walk report deleted successfully".
Proof.
  intros Hr. unfold response, delete_walk_report, bind.
  rewrite find_report_run, Hr.
  destruct (negb _ && negb _); reflexivity.
Qed.

Lemma get_walk_report_run (report_id : string) (u : User.t) (s : Session)
  (report : WalkReport.t) :
  report_at (store s) report_id = Some report ->
  response (get_walk_report report_id u) s =
  if _can_view_report u report then inr report
  else inl (HTTPError (mkHTTPException HTTP_403_FORBIDDEN
              "Not authorized to view this report")).
Proof.
  intros Hr. unfold response, get_walk_report, bind.
  rewrite find_report_run, Hr.
  destruct (_can_view_report u report); reflexivity.
Qed.

(** ** C1 *)

(** C1.  For a principal of any role and a report that exists, the update is
    let through (not answered with 403) exactly when the report's
    [author_user_id] is the principal's id; then the handler answers with
    the patched row, or fails on a [NULL] for a required column.  A
    principal that is not the author is refused whatever the role, also with
    [ADMIN] or [SUPER_ADMIN], and the store is left as it was. *)
Theorem update_walk_report_author_only
  (s : Session) (u : User.t) (report_id : string)
  (upd : WalkReportUpdate.t) (report : WalkReport.t) :
  report_at (store s) report_id = Some report ->
  (forbidden (response (update_walk_report report_id upd u) s) = false
   <-> WalkReport.author_user_id report = User.id u)
  /\ (WalkReport.author_user_id report = User.id u ->
      response (update_walk_report report_id upd u) s =
      match setattrs report upd with
      | Some report' => inr report'
      | None => inl IntegrityError
      end)
  /\ (WalkReport.author_user_id report <> User.id u ->
      forbidden (response (update_walk_report report_id upd u) s) = true
      /\ store_after (update_walk_report report_id upd u) s = store s).
Proof.
  intros Hr. pose proof (update_walk_report_run report_id upd u s report Hr) as E.
  destruct (String.eqb_spec (WalkReport.author_user_id report) (User.id u))
    as [Ha|Ha].
  - split; [|split]; [| |tauto].
    + split; [tauto|]. intros _. rewrite E.
      now destruct (setattrs report upd).
    + intros _. exact E.
  - rewrite E. split; [|split]; [| tauto |].
    + split; [discriminate | tauto].
    + intros _. split; [reflexivity|].
      unfold store_after, update_walk_report, bind.
      rewrite find_report_run, Hr.
      apply String.eqb_neq in Ha. rewrite Ha. reflexivity.
Qed.

Lemma update_walk_report_author_only_witness :
  forbidden (response (update_walk_report "r1" no_patch root_admin)
               (mkSession one_report_store [])) = true.
Proof.
  apply (update_walk_report_author_only (mkSession one_report_store [])
           root_admin "r1" no_patch alice_report).
  - reflexivity.
  - simpl. discriminate.
Defined.

(** ** C2 *)

(** C2.  For a principal and a report that exists, the deletion is let
    through exactly when the principal is the author or holds [ADMIN] or
    [SUPER_ADMIN]; it then succeeds.  An elevated principal that is not the
    author deletes the report that it is refused to update. *)
Theorem delete_walk_report_author_or_admin
  (s : Session) (u : User.t) (report_id : string) (report : WalkReport.t) :
  report_at (store s) report_id = Some report ->
  (forbidden (response (delete_walk_report report_id u) s) = false
   <-> WalkReport.author_user_id report = User.id u \/ elevated u)
  /\ (WalkReport.author_user_id report = User.id u \/ elevated u ->
      response (delete_walk_report report_id u) s =
      inr "Walk report deleted successfully")
  /\ (WalkReport.author_user_id report <> User.id u -> elevated u ->
      forall upd,
        forbidden (response (update_walk_report report_id upd u) s) = true
        /\ response (delete_walk_report report_id u) s =
           inr "Walk report deleted successfully").
Proof.
  intros Hr. rewrite (delete_walk_report_run report_id u s report Hr).
  unfold elevated. rewrite <- role_in_admins.
  set (adm := role_in (User.role u) [ADMIN; SUPER_ADMIN]).
  assert (Hupd : WalkReport.author_user_id report <> User.id u ->
                 forall upd,
                   forbidden (response (update_walk_report report_id upd u) s)
                   = true).
  { intros Ha upd.
    rewrite (update_walk_report_run report_id upd u s report Hr).
    apply String.eqb_neq in Ha. now rewrite Ha. }
  destruct (String.eqb_spec (WalkReport.author_user_id report) (User.id u))
    as [Ha|Ha]; destruct adm; cbn [negb andb forbidden];
    (split; [|split]); intuition (auto; try discriminate).
Qed.

Lemma delete_walk_report_author_or_admin_witness :
  forbidden (response (update_walk_report "r1" no_patch root_admin)
               (mkSession one_report_store [])) = true
  /\ response (delete_walk_report "r1" root_admin)
       (mkSession one_report_store []) =
     inr "Walk report deleted successfully".
Proof.
  apply (delete_walk_report_author_or_admin (mkSession one_report_store [])
           root_admin "r1" alice_report).
  - reflexivity.
  - simpl. discriminate.
  - left. reflexivity.
Defined.

(** ** C3 *)

(** C3.  A principal may view a report exactly when the report is [PUBLIC],
    or the principal holds [ADMIN] or [SUPER_ADMIN], or the principal is the
    author; for a principal that is not elevated the answer is the entry of
    the authorship-by-status table; and [get_walk_report] answers a report
    that exists with the report when the predicate holds and with 403
    otherwise. *)
Theorem can_view_report_iff (u : User.t) (report : WalkReport.t) :
  (_can_view_report u report = true
   <-> WalkReport.status report = PUBLIC \/ elevated u
       \/ WalkReport.author_user_id report = User.id u)
  /\ (~ elevated u ->
      _can_view_report u report =
      view_matrix (String.eqb (WalkReport.author_user_id report) (User.id u))
        (WalkReport.status report))
  /\ (forall s report_id,
      report_at (store s) report_id = Some report ->
      (_can_view_report u report = true ->
       response (get_walk_report report_id u) s = inr report)
      /\ (_can_view_report u report = false ->
          forbidden (response (get_walk_report report_id u) s) = true)).
Proof.
  unfold elevated, _can_view_report.
  split; [|split].
  - rewrite <- role_in_admins, <- ReportStatus_eqb_eq, <- String.eqb_eq.
    destruct (ReportStatus_eqb _ _), (role_in _ _), (String.eqb _ _);
      simpl; intuition congruence.
  - rewrite <- role_in_admins.
    destruct (WalkReport.status report), (role_in _ _), (String.eqb _ _);
      simpl; intuition congruence.
  - intros s report_id Hr.
    rewrite (get_walk_report_run report_id u s report Hr).
    unfold _can_view_report.
    split; intros ->; reflexivity.
Qed.

Lemma can_view_report_iff_witness :
  _can_view_report alice alice_report =
  view_matrix (String.eqb (WalkReport.author_user_id alice_report)
                 (User.id alice)) (WalkReport.status alice_report).
Proof.
  apply (can_view_report_iff alice alice_report).
  unfold elevated. simpl. intros [E|E]; discriminate E.
Defined.

(** ** C4 *)

Lemma find_participation_run (event_id : string) (o : Owner.t) (s : Session) :
  first (filter_ (filter_ (filter_ (query WalkParticipant.t)
    (fun p => String.eqb (WalkParticipant.event_id p) event_id))
    (fun p => String.eqb (WalkParticipant.owner_id p) (Owner.id o)))
    (fun p => ParticipantStatus_eqb (WalkParticipant.status p) APPROVED)) s =
  (inr (find (participation event_id o) (walk_participants (store s))),
   mkSession (store s) (executed s ++ [SELECT TWalkParticipant])).
Proof. now rewrite first_query_run. Qed.

Lemma can_create_report_run (u : User.t) (event_id : string) (s : Session) :
  response (_can_create_report u event_id) s
  = inr (create_verdict (store s) u event_id)
  /\ store_after (_can_create_report u event_id) s = store s.
Proof.
  unfold response, store_after, _can_create_report, create_verdict, bind.
  destruct (role_in (User.role u) [ADMIN; SUPER_ADMIN]); [now split|].
  rewrite find_event_run. cbn [orb store].
  destruct (match event_at (store s) event_id with
            | Some e => String.eqb (WalkEvent.created_by_user_id e) (User.id u)
            | None => false
            end); [now split|].
  cbn [orb]. destruct (User.owner u) as [o|]; [|now split].
  rewrite find_participation_run. cbn [store].
  destruct (find _ _); now split.
Qed.

Lemma find_participation_iff (d : Db) (u : User.t) (event_id : string) :
  match User.owner u with
  | Some o =>
      match find (participation event_id o) (walk_participants d) with
      | Some _ => true
      | None => false
      end
  | None => false
  end = true <-> approved_participant d u event_id.
Proof.
  unfold approved_participant. destruct (User.owner u) as [o|].
  - destruct (find _ _) as [p|] eqn:Ef.
    + apply find_some in Ef as [Hin Hp]. unfold participation in Hp.
      apply andb_prop in Hp as [Hp H3]. apply andb_prop in Hp as [H1 H2].
      apply String.eqb_eq in H1, H2. apply ParticipantStatus_eqb_eq in H3.
      split; [intros _|reflexivity]. exists o, p. auto.
    + split; [discriminate|]. intros (o' & p & Ho & Hin & H1 & H2 & H3).
      injection Ho as <-.
      pose proof (find_none _ _ Ef p Hin) as Hn. unfold participation in Hn.
      rewrite H1, H2, H3, !String.eqb_refl in Hn. discriminate Hn.
  - split; [discriminate|]. intros (o & p & Ho & _). discriminate Ho.
Qed.

(** C4.  For a walk event that exists, [_can_create_report] returns (it does
    not raise) and answers true exactly when the principal is elevated, or
    created the event, or has a linked Owner with an [APPROVED]
    participation row for the event; each of the three alone suffices; and
    [create_walk_report] answers 403 exactly when none of them holds. *)
Theorem can_create_report_iff
  (s : Session) (u : User.t) (event_id : string) (event : WalkEvent.t) :
  event_at (store s) event_id = Some event ->
  exists verdict : bool,
    response (_can_create_report u event_id) s = inr verdict
    /\ (verdict = true
        <-> elevated u
            \/ WalkEvent.created_by_user_id event = User.id u
            \/ approved_participant (store s) u event_id)
    /\ forall uuid now rc,
         WalkReportCreate.walk_event_id rc = event_id ->
         forbidden (response (create_walk_report uuid now rc u) s)
         = negb verdict.
Proof.
  intros He. exists (create_verdict (store s) u event_id).
  split; [apply can_create_report_run|]. split.
  - unfold create_verdict, elevated. rewrite He.
    rewrite !orb_true_iff, role_in_admins, String.eqb_eq.
    rewrite find_participation_iff. tauto.
  - intros uuid now rc <-.
    unfold response, create_walk_report, bind.
    rewrite find_event_run, He.
    set (s1 := mkSession (store s) (executed s ++ [SELECT TWalkEvent])).
    destruct (can_create_report_run u (WalkReportCreate.walk_event_id rc) s1)
      as [Hv Hs].
    unfold response, store_after in Hv, Hs.
    destruct (_can_create_report u (WalkReportCreate.walk_event_id rc) s1)
      as [r s2].
    cbn [fst snd] in Hv, Hs. subst r. cbn [store s1].
    destruct (create_verdict (store s) u (WalkReportCreate.walk_event_id rc));
      cbn [negb]; [|reflexivity].
    unfold add_walk_report, bind, log_stmt, get_store, put_store, fail, ret.
    cbn. destruct (existsb _ _); reflexivity.
Qed.

Lemma can_create_report_iff_witness :
  exists verdict : bool,
    response (_can_create_report bob "e1") (mkSession walk_store [])
    = inr verdict
    /\ (verdict = true
        <-> elevated bob
            \/ WalkEvent.created_by_user_id (WalkEvent.mk "e1" "u-carol")
               = User.id bob
            \/ approved_participant walk_store bob "e1")
    /\ forall uuid now rc,
         WalkReportCreate.walk_event_id rc = "e1" ->
         forbidden (response (create_walk_report uuid now rc bob)
                      (mkSession walk_store []))
         = negb verdict.
Proof.
  apply (can_create_report_iff (mkSession walk_store []) bob "e1"
           (WalkEvent.mk "e1" "u-carol")).
  reflexivity.
Defined.

End WalkReportPolicy.

(** * Pagination *)

Section Pagination.

Context {R : Type}.

Lemma In_firstn_l (n : nat) (l : list R) (x : R) :
  In x (firstn n l) -> In x l.
Proof.
  intros Hx. rewrite <- (firstn_skipn n l). apply in_or_app. now left.
Qed.

Lemma In_skipn_l (n : nat) (l : list R) (x : R) :
  In x (skipn n l) -> In x l.
Proof.
  intros Hx. rewrite <- (firstn_skipn n l). apply in_or_app. now right.
Qed.

Lemma window_In (off lim : option Z) (l : list R) (x : R) :
  In x (window off lim l) -> In x l.
Proof.
  unfold window. destruct off, lim as [n|]; try destruct (n <? 0);
    intros Hx;
    repeat (first [apply In_firstn_l in Hx | apply In_skipn_l in Hx]);
    assumption.
Qed.

(** An offset at or beyond the last row selects nothing. *)
Lemma window_beyond (off lim : Z) (l : list R) :
  Z.of_nat (length l) <= off -> window (Some off) (Some lim) l = [].
Proof.
  intros Hoff. unfold window. rewrite skipn_all2 by lia.
  destruct (lim <? 0); [reflexivity | apply firstn_nil].
Qed.

Lemma window_length (off lim : Z) (l : list R) :
  0 <= off -> 0 <= lim ->
  Z.of_nat (length (window (Some off) (Some lim) l))
  = Z.min lim (Z.max 0 (Z.of_nat (length l) - off)).
Proof.
  intros Hoff Hlim. unfold window.
  destruct (Z.ltb_spec lim 0) as [Hneg|_]; [lia|].
  rewrite length_firstn, length_skipn. lia.
Qed.

Lemma math_ceil_div_bounds (a b : Z) :
  0 < b -> (math_ceil_div a b - 1) * b < a <= math_ceil_div a b * b.
Proof.
  intros Hb. unfold math_ceil_div.
  pose proof (Z.div_mod (- a) b ltac:(lia)) as Hdm.
  pose proof (Z.mod_pos_bound (- a) b Hb) as Hm.
  nia.
Qed.

Lemma math_ceil_div_unique (a b p : Z) :
  0 < b -> (p - 1) * b < a <= p * b -> math_ceil_div a b = p.
Proof.
  intros Hb Hp. pose proof (math_ceil_div_bounds a b Hb) as Hc. nia.
Qed.

Lemma math_ceil_div_floor (a b : Z) :
  0 < b -> math_ceil_div a b = (a + b - 1) / b.
Proof.
  intros Hb. apply math_ceil_div_unique; [assumption|].
  pose proof (Z.div_mod (a + b - 1) b ltac:(lia)) as Hdm.
  pose proof (Z.mod_pos_bound (a + b - 1) b Hb) as Hm.
  nia.
Qed.

(** Every row of the list is on one of the pages [1 .. ceil(len / size)]. *)
Lemma window_cover (size : Z) (l : list R) (x : R) :
  0 < size -> In x l ->
  exists page : Z,
    1 <= page <= math_ceil_div (Z.of_nat (length l)) size
    /\ In x (window (Some ((page - 1) * size)) (Some size) l).
Proof.
  intros Hsize Hx.
  destruct (In_nth l x x Hx) as (n & Hn & Hnth).
  set (sz := Z.to_nat size).
  assert (Hsz : (0 < sz)%nat) by (unfold sz; lia).
  exists (Z.of_nat (n / sz) + 1).
  pose proof (Nat.div_mod_eq n sz) as Hdm.
  pose proof (Nat.mod_upper_bound n sz ltac:(lia)) as Hm.
  split.
  - pose proof (math_ceil_div_bounds (Z.of_nat (length l)) size Hsize) as Hc.
    assert (Hq : Z.of_nat sz = size) by (unfold sz; lia).
    split; [lia|]. nia.
  - unfold window.
    destruct (Z.ltb_spec size 0) as [Hneg|_]; [lia|].
    replace (Z.to_nat ((Z.of_nat (n / sz) + 1 - 1) * size))
      with (sz * (n / sz))%nat by (unfold sz; nia).
    fold sz.
    assert (Hi : nth (n mod sz) (firstn sz (skipn (sz * (n / sz)) l)) x = x).
    { rewrite nth_firstn.
      destruct (Nat.ltb_spec (n mod sz) sz) as [_|Hge]; [|lia].
      rewrite nth_skipn. now rewrite <- Hdm. }
    rewrite <- Hi at 1. apply nth_In.
    rewrite length_firstn, length_skipn. lia.
Qed.

End Pagination.

(** * Listing walk reports *)

Section WalkReportListing.

Import walk_reports.

Lemma paginate_reports_run (q : Query WalkReport.t) (page size : Z)
  (s : Session) :
  ordering q = [] -> q_offset q = None -> q_limit q = None ->
  paginate_reports q page size s =
  (if int64 ((page - 1) * size) && int64 size
   then inr (reports_page (filter (criteria q) (walk_reports (store s)))
               page size)
   else inl OverflowError,
   mkSession (store s) (executed s ++ [COUNT TWalkReport; SELECT TWalkReport])).
Proof.
  intros Ho Hf Hl.
  unfold paginate_reports, reports_page, page_count, bind, count, all,
    log_stmt, get_store, ret, fail, fetch, selected, bindable.
  cbn -[sort_rows lexico window int64]. rewrite Ho, Hf, Hl.
  cbn -[sort_rows lexico window int64].
  change (window None None ?l) with l.
  rewrite sort_rows_length, <- app_assoc.
  now destruct (int64 ((page - 1) * size) && int64 size).
Qed.

Lemma int64_offset (page size : Z) :
  1 <= page -> 1 <= size <= 1000 ->
  int64 ((page - 1) * size) && int64 size
  = ((page - 1) * size <=? int64_max).
Proof.
  intros Hp Hs. unfold int64, int64_max.
  destruct (Z.leb_spec ((page - 1) * size) (2 ^ 63 - 1)) as [Hle|Hgt];
    repeat match goal with
           | |- context [?a <=? ?b] => destruct (Z.leb_spec a b)
           end; cbn; try reflexivity; nia.
Qed.

Lemma list_walk_reports_run (u : User.t) (walk_event_id : option string)
  (status_filter : option ReportStatus) (page size : Z) (s : Session) :
  1 <= page -> 1 <= size <= 100 -> (page - 1) * size <= int64_max ->
  list_walk_reports u walk_event_id status_filter page size s =
  (inr (reports_page
          (filter (listed u walk_event_id status_filter)
             (walk_reports (store s))) page size),
   mkSession (store s) (executed s ++ [COUNT TWalkReport; SELECT TWalkReport])).
Proof.
  intros Hp Hs Hb. unfold list_walk_reports, validate.
  replace (1 <=? page) with true by (symmetry; apply Z.leb_le; lia).
  replace ((1 <=? size) && (size <=? 100)) with true
    by (symmetry; apply andb_true_intro; split; apply Z.leb_le; lia).
  cbn [bind ret].
  rewrite paginate_reports_run;
    try (destruct walk_event_id as [ev|]; [destruct (truthy ev)|];
         destruct (role_in (User.role u) [ADMIN; SUPER_ADMIN]);
         destruct status_filter; reflexivity).
  rewrite int64_offset by lia.
  replace ((page - 1) * size <=? int64_max) with true
    by (symmetry; now apply Z.leb_le).
  f_equal. f_equal. f_equal. apply filter_ext. intros r.
  unfold listed, event_filter, status_is.
  destruct walk_event_id as [ev|]; [destruct (truthy ev)|];
    destruct (role_in (User.role u) [ADMIN; SUPER_ADMIN]);
    destruct status_filter; cbn;
    rewrite ?andb_true_r; reflexivity.
Qed.

Lemma not_elevated_role_in (u : User.t) :
  ~ elevated u -> role_in (User.role u) [ADMIN; SUPER_ADMIN] = false.
Proof.
  intros Hn. destruct (role_in _ _) eqn:E; [|reflexivity].
  apply role_in_admins in E. contradiction.
Qed.

Lemma visible_or_mine_iff (u : User.t) (r : WalkReport.t) :
  visible_or_mine u r = true
  <-> WalkReport.status r = PUBLIC
      \/ WalkReport.author_user_id r = User.id u.
Proof.
  unfold visible_or_mine.
  now rewrite orb_true_iff, ReportStatus_eqb_eq, String.eqb_eq.
Qed.

(** Every selected row is on one of the pages [1 .. pages]. *)
Lemma reports_page_cover (matching : list WalkReport.t) (page size : Z)
  (r : WalkReport.t) :
  0 < size -> In r matching ->
  exists page' : Z,
    1 <= page' <= pages (reports_page matching page size)
    /\ In r (items (reports_page matching page' size)).
Proof.
  intros Hs Hin.
  destruct (window_cover size
              (sort_rows (lexico [desc WalkReport.created_at]) matching) r Hs)
    as (p & Hp & Hw); [now apply sort_rows_In|].
  exists p. split; [|exact Hw].
  rewrite sort_rows_length in Hp. cbn [pages reports_page]. unfold page_count.
  destruct matching as [|x l]; [contradiction|].
  replace (0 <? Z.of_nat (length (x :: l))) with true; [exact Hp|].
  symmetry. apply Z.ltb_lt. cbn [length]. lia.
Qed.

(** What [list_walk_reports] answers, for any parameters: the framework
    rejects a [page] or [size] outside its bounds, the driver an offset it
    cannot bind, and otherwise the caller gets the page. *)
Lemma list_walk_reports_outcome (u : User.t) (walk_event_id : option string)
  (status_filter : option ReportStatus) (page size : Z) (s : Session) :
  response (list_walk_reports u walk_event_id status_filter page size) s =
  if (1 <=? page) && ((1 <=? size) && (size <=? 100)) then
    if (page - 1) * size <=? int64_max
    then inr (reports_page
                (filter (listed u walk_event_id status_filter)
                   (walk_reports (store s))) page size)
    else inl OverflowError
  else inl RequestValidationError.
Proof.
  destruct (Z.leb_spec 1 page) as [Hp|Hp]; cbn [andb].
  - destruct (Z.leb_spec 1 size) as [Hs1|Hs1]; cbn [andb].
    + destruct (Z.leb_spec size 100) as [Hs2|Hs2].
      * destruct (Z.leb_spec ((page - 1) * size) int64_max) as [Hb|Hb].
        -- unfold response. now rewrite list_walk_reports_run by lia.
        -- unfold response, list_walk_reports, validate.
           replace (1 <=? page) with true by (symmetry; apply Z.leb_le; lia).
           replace ((1 <=? size) && (size <=? 100)) with true
             by (symmetry; apply andb_true_intro; split; apply Z.leb_le; lia).
           cbn [bind ret].
           rewrite paginate_reports_run;
             try (destruct walk_event_id as [ev|]; [destruct (truthy ev)|];
                  destruct (role_in (User.role u) [ADMIN; SUPER_ADMIN]);
                  destruct status_filter; reflexivity).
           rewrite int64_offset by lia.
           replace ((page - 1) * size <=? int64_max) with false
             by (symmetry; apply Z.leb_gt; lia).
           reflexivity.
      * unfold response, list_walk_reports, validate.
        replace (1 <=? page) with true by (symmetry; apply Z.leb_le; lia).
        replace ((1 <=? size) && (size <=? 100)) with false
          by (symmetry; apply andb_false_intro2; apply Z.leb_gt; lia).
        reflexivity.
    + unfold response, list_walk_reports, validate.
      replace (1 <=? page) with true by (symmetry; apply Z.leb_le; lia).
      replace ((1 <=? size) && (size <=? 100)) with false
        by (symmetry; apply andb_false_intro1; apply Z.leb_gt; lia).
      reflexivity.
  - unfold response, list_walk_reports, validate.
    replace (1 <=? page) with false by (symmetry; apply Z.leb_gt; lia).
    reflexivity.
Qed.

(** A page is answered only to a request within the bounds. *)
Lemma list_walk_reports_answered (u : User.t) (walk_event_id : option string)
  (status_filter : option ReportStatus) (page size : Z) (s : Session)
  (resp : ListResponse WalkReport.t) :
  response (list_walk_reports u walk_event_id status_filter page size) s
  = inr resp ->
  (1 <= page /\ 1 <= size <= 100 /\ (page - 1) * size <= int64_max)
  /\ resp = reports_page
              (filter (listed u walk_event_id status_filter)
                 (walk_reports (store s))) page size.
Proof.
  rewrite list_walk_reports_outcome.
  destruct (Z.leb_spec 1 page); cbn [andb]; [|discriminate].
  destruct (Z.leb_spec 1 size); cbn [andb]; [|discriminate].
  destruct (Z.leb_spec size 100); [|discriminate].
  destruct (Z.leb_spec ((page - 1) * size) int64_max); [|discriminate].
  intros [= <-]. split; [lia | reflexivity].
Qed.

End WalkReportListing.

(** * Page counts *)

Section PageCounts.

Import walk_reports.

(** The page count of the walk-report lists: the ceiling of
    [total / size], and 1 for an empty result. *)
Lemma list_walk_reports_pages (u : User.t) (walk_event_id : option string)
  (status_filter : option ReportStatus) (page size : Z) (s : Session) :
  1 <= page -> 1 <= size <= 100 -> (page - 1) * size <= int64_max ->
  exists resp : ListResponse WalkReport.t,
    response (list_walk_reports u walk_event_id status_filter page size) s
    = inr resp
    /\ (0 < total resp ->
        (pages resp - 1) * size < total resp <= pages resp * size)
    /\ (total resp = 0 -> pages resp = 1).
Proof.
  intros Hp Hs Hb. unfold response.
  rewrite list_walk_reports_run by assumption.
  eexists; split; [reflexivity|].
  cbn [total pages reports_page]. unfold page_count. split.
  - intros Ht. replace (0 <? _) with true by (symmetry; now apply Z.ltb_lt).
    apply math_ceil_div_bounds. lia.
  - intros ->. reflexivity.
Qed.

(** A page beyond the last one: no items, the same [total] and [pages]. *)
Lemma list_walk_reports_beyond_last_page (u : User.t)
  (walk_event_id : option string) (status_filter : option ReportStatus)
  (page page' size : Z) (s : Session)
  (resp : ListResponse WalkReport.t) :
  response (list_walk_reports u walk_event_id status_filter page size) s
  = inr resp ->
  pages resp < page' -> (page' - 1) * size <= int64_max ->
  response (list_walk_reports u walk_event_id status_filter page' size) s
  = inr (mkListResponse [] (total resp) page' size (pages resp)).
Proof.
  intros Hresp.
  apply list_walk_reports_answered in Hresp as [(Hp & Hs & Hb) ->].
  unfold response.
  cbn [total pages reports_page]. intros Hbeyond Hb'.
  assert (Hp' : 1 <= page').
  { unfold page_count in Hbeyond. destruct (0 <? _) eqn:E; [|lia].
    apply Z.ltb_lt in E.
    pose proof (math_ceil_div_bounds
                  (Z.of_nat (length (filter
                     (listed u walk_event_id status_filter)
                     (walk_reports (store s))))) size ltac:(lia)).
    nia. }
  rewrite list_walk_reports_run by assumption. cbn [fst].
  unfold reports_page. f_equal. f_equal.
  apply window_beyond. rewrite sort_rows_length.
  unfold page_count in Hbeyond. destruct (0 <? _) eqn:E.
  - pose proof (math_ceil_div_bounds
                  (Z.of_nat (length (filter
                     (listed u walk_event_id status_filter)
                     (walk_reports (store s))))) size ltac:(lia)).
    nia.
  - apply Z.ltb_ge in E. nia.
Qed.

(** The arithmetic of the specification: 25 rows in pages of 10 are 3
    pages, the third holds 5 rows and the fourth none. *)
Lemma twenty_five_rows_in_tens {R : Type} (l : list R) :
  length l = 25%nat ->
  page_count (Z.of_nat (length l)) 10 = 3
  /\ length (window (Some ((3 - 1) * 10)) (Some 10) l) = 5%nat
  /\ window (Some ((4 - 1) * 10)) (Some 10) l = [].
Proof.
  intros Hl. rewrite Hl. split; [reflexivity|]. split.
  - apply Nat2Z.inj. rewrite window_length by lia. rewrite Hl. reflexivity.
  - apply window_beyond. rewrite Hl. cbn. lia.
Qed.

End PageCounts.

(** * Certificates *)

Section CertificateFacts.

Context {ops : StoreOps}.

Lemma when_given_plain (o : option string) (q : Query Certificate.t)
  (p : string -> Certificate.t -> bool) :
  ordering q = [] /\ q_offset q = None /\ q_limit q = None ->
  ordering (certificate_service.when_given o q p) = []
  /\ q_offset (certificate_service.when_given o q p) = None
  /\ q_limit (certificate_service.when_given o q p) = None.
Proof.
  intros Hq. unfold certificate_service.when_given.
  destruct o as [v|]; [destruct (truthy v)|]; exact Hq.
Qed.

Lemma certificate_query_plain
  (dog_id cert_type issuer expires_after expires_before : option string) :
  let q := certificate_query dog_id cert_type issuer expires_after
             expires_before in
  ordering q = [] /\ q_offset q = None /\ q_limit q = None.
Proof.
  unfold certificate_query. repeat apply when_given_plain. now cbn.
Qed.

Lemma service_get_certificates_run (skip limit_ : Z)
  (dog_id cert_type issuer expires_after expires_before : option string)
  (s : Session) :
  certificate_service.get_certificates skip limit_
    dog_id cert_type issuer expires_after expires_before s =
  (if int64 skip && int64 limit_
   then inr (certificates_page
               (filter (criteria (certificate_query dog_id cert_type issuer
                                    expires_after expires_before))
                  (certificates (store s))) skip limit_)
   else inl OverflowError,
   mkSession (store s)
     (executed s ++ [COUNT TCertificate; SELECT TCertificate])).
Proof.
  unfold certificate_service.get_certificates.
  fold (certificate_query dog_id cert_type issuer expires_after
          expires_before).
  destruct (certificate_query_plain dog_id cert_type issuer expires_after
              expires_before) as (Ho & Hf & Hl).
  set (q := certificate_query _ _ _ _ _) in *.
  unfold certificates_page, bind, count, all, log_stmt, get_store, ret,
    fail, fetch, selected, bindable.
  cbn -[sort_rows lexico window int64]. rewrite Ho, Hf, Hl.
  cbn -[sort_rows lexico window int64].
  change (window None None ?l) with l.
  rewrite sort_rows_unordered.
  destruct (int64 skip && int64 limit_);
    cbn -[sort_rows lexico window]; rewrite <- app_assoc; [|reflexivity].
  now rewrite sort_rows_unordered.
Qed.

Lemma int64_skip (skip limit_ : Z) :
  0 <= skip -> 1 <= limit_ <= 1000 ->
  int64 skip && int64 limit_ = (skip <=? int64_max).
Proof.
  intros Hk Hl. unfold int64, int64_max.
  destruct (Z.leb_spec skip (2 ^ 63 - 1)) as [Hle|Hgt];
    repeat match goal with
           | |- context [?a <=? ?b] => destruct (Z.leb_spec a b)
           end; cbn; try reflexivity; lia.
Qed.

Lemma get_certificates_run (skip limit_ : Z)
  (dog_id cert_type issuer expires_after expires_before : option string)
  (u : User.t) (s : Session) :
  0 <= skip -> 1 <= limit_ <= 1000 ->
  certificates.get_certificates skip limit_
    dog_id cert_type issuer expires_after expires_before u s =
  (if skip <=? int64_max
   then inr (certificates_page
               (filter (criteria (certificate_query dog_id cert_type issuer
                                    expires_after expires_before))
                  (certificates (store s))) skip limit_)
   else inl OverflowError,
   mkSession (store s)
     (executed s ++ [COUNT TCertificate; SELECT TCertificate])).
Proof.
  intros Hk Hl. unfold certificates.get_certificates, validate.
  replace (0 <=? skip) with true by (symmetry; apply Z.leb_le; lia).
  replace ((1 <=? limit_) && (limit_ <=? 1000)) with true
    by (symmetry; apply andb_true_intro; split; apply Z.leb_le; lia).
  cbn [bind ret]. rewrite service_get_certificates_run.
  now rewrite int64_skip by assumption.
Qed.

(** The certificate list reports [ceil(total / limit)] pages: for an empty
    result that is 0, not 1. *)
Lemma get_certificates_pages (skip limit_ : Z)
  (dog_id cert_type issuer expires_after expires_before : option string)
  (u : User.t) (s : Session) :
  0 <= skip <= int64_max -> 1 <= limit_ <= 1000 ->
  exists resp : PaginatedResponse Certificate.t,
    response (certificates.get_certificates skip limit_
                dog_id cert_type issuer expires_after expires_before u) s
    = inr resp
    /\ p_pages resp = math_ceil_div (p_total resp) limit_
    /\ (p_total resp = 0 -> p_pages resp = 0)
    /\ (p_total resp <= skip -> p_items resp = []).
Proof.
  intros Hk Hl. unfold response. rewrite get_certificates_run by lia.
  replace (skip <=? int64_max) with true by (symmetry; apply Z.leb_le; lia).
  eexists; split; [reflexivity|].
  cbn [p_pages p_total p_items certificates_page].
  replace (0 <? limit_) with true by (symmetry; apply Z.ltb_lt; lia).
  split; [|split].
  - symmetry. apply math_ceil_div_floor. lia.
  - intros ->. apply Z.div_small. lia.
  - intros Hb. now apply window_beyond.
Qed.

End CertificateFacts.

(** * Health records: the ownership scope *)

Section OwnershipScope.

Import health_records.

Lemma all_plain_run {R : Type} `{Model R} (q : Query R) (s : Session) :
  ordering q = [] -> q_offset q = None -> q_limit q = None ->
  all q s =
  (inr (filter (criteria q) (rows (store s))),
   mkSession (store s) (executed s ++ [SELECT tablename])).
Proof.
  intros Ho Hf Hl.
  unfold all, fetch, selected. rewrite Ho, Hf, Hl.
  unfold bind, log_stmt, get_store, ret, bindable, window.
  cbn -[sort_rows lexico]. now rewrite sort_rows_unordered.
Qed.

Lemma get_user_dogs_run (u : User.t) (s : Session) :
  response (get_user_dogs u) s = inr (user_dogs (store s) u)
  /\ store_after (get_user_dogs u) s = store s.
Proof.
  unfold response, store_after, get_user_dogs, user_dogs, bind.
  destruct (role_in (User.role u) [ADMIN; SUPER_ADMIN]).
  - rewrite all_plain_run by reflexivity. cbn. now rewrite filter_true.
  - rewrite first_run. cbn [store rows Model_Owner].
    destruct (find (owner_of u) (owners (store s))) as [o|]; [|now split].
    rewrite all_plain_run by reflexivity. now cbn.
Qed.

(** A regular user with no Owner row: one look at the owners, no dogs. *)
Lemma get_user_dogs_no_owner (u : User.t) (s : Session) :
  User.role u = USER ->
  find (owner_of u) (owners (store s)) = None ->
  get_user_dogs u s =
  (inr [], mkSession (store s) (executed s ++ [SELECT TOwner])).
Proof.
  intros Hrole Hnone. unfold get_user_dogs, bind. rewrite Hrole. cbn [role_in
    existsb UserRole_eqb orb].
  rewrite first_run. cbn [store rows Model_Owner]. now rewrite Hnone.
Qed.

(** ** C9 *)

(** C9.  A principal with role [USER] and no linked Owner has the empty
    ownership scope, and [list_health_records] answers
    [{items: [], total: 0, pages: 1}] (with the requested [page] and [size])
    whatever the filters; the one statement the request executes is the
    lookup of the Owner, so the filtered health-record query never reaches
    the store, and the store is unchanged. *)
Theorem user_without_owner_lists_nothing
  (s : Session) (u : User.t) (dog_id : option string)
  (date_from date_to : option Z) (page size : Z) :
  User.role u = USER ->
  find (owner_of u) (owners (store s)) = None ->
  1 <= page -> 1 <= size <= 100 ->
  response (get_user_dogs u) s = inr []
  /\ response (list_health_records u dog_id date_from date_to page size) s
     = inr (mkListResponse [] 0 page size 1)
  /\ calls (list_health_records u dog_id date_from date_to page size) s
     = (executed s ++ [SELECT TOwner])%list
  /\ store_after (list_health_records u dog_id date_from date_to page size) s
     = store s.
Proof.
  intros Hrole Hnone Hp Hs.
  split.
  { unfold response. now rewrite get_user_dogs_no_owner. }
  unfold response, calls, store_after, list_health_records, validate.
  replace (1 <=? page) with true by (symmetry; apply Z.leb_le; lia).
  replace ((1 <=? size) && (size <=? 100)) with true
    by (symmetry; apply andb_true_intro; split; apply Z.leb_le; lia).
  cbn [bind ret]. unfold scope_to_own_dogs, bind.
  rewrite Hrole. cbn [UserRole_eqb].
  rewrite get_user_dogs_no_owner by assumption.
  cbn. repeat split.
Qed.

Lemma user_without_owner_lists_nothing_witness :
  response (list_health_records alice (Some "d2") None None 1 10)
    (mkSession one_report_store [])
  = inr (mkListResponse [] 0 1 10 1)
  /\ calls (list_health_records alice (Some "d2") None None 1 10)
       (mkSession one_report_store [])
     = [SELECT TOwner].
Proof.
  destruct (user_without_owner_lists_nothing (mkSession one_report_store [])
              alice (Some "d2") None None 1 10)
    as (_ & Hresp & Hcalls & _);
    [reflexivity | reflexivity | lia | lia |].
  split; [exact Hresp | exact Hcalls].
Defined.

End OwnershipScope.

(** * Reading certificates *)

Section CertificateReads.

Context {ops : StoreOps}.

Lemma get_certificate_run (certificate_id : string) (u : User.t)
  (s : Session) :
  response (certificates.get_certificate certificate_id u) s =
  match certificate_at (store s) certificate_id with
  | Some c => inr c
  | None => inl (HTTPError (mkHTTPException 404 "Certificate not found"))
  end.
Proof.
  unfold response, certificates.get_certificate,
    certificate_service.get_certificate, bind.
  rewrite first_run. cbn [store rows Model_Certificate].
  fold (certificate_at (store s) certificate_id).
  destruct (certificate_at (store s) certificate_id); reflexivity.
Qed.

(** C10, amended.  Reading certificates asks nothing of the principal: for
    a principal of any role, [get_certificate] answers every certificate
    that exists with the certificate (and a missing one with 404), whoever
    owns the dog; [get_certificates] answers two principals alike; for a
    [skip] the driver can bind it answers the page of the certificates that
    meet the filters of the request, and without filters it counts every
    certificate of the store and pages through all of them. *)
Theorem certificate_reads_ignore_principal (s : Session) (u : User.t) :
  (forall certificate_id c,
     certificate_at (store s) certificate_id = Some c ->
     response (certificates.get_certificate certificate_id u) s = inr c)
  /\ (forall certificate_id,
        certificate_at (store s) certificate_id = None ->
        not_found (response (certificates.get_certificate certificate_id u) s)
        = true)
  /\ (forall skip limit_ dog_id cert_type issuer expires_after expires_before
             (u' : User.t),
        certificates.get_certificates skip limit_ dog_id cert_type issuer
          expires_after expires_before u s
        = certificates.get_certificates skip limit_ dog_id cert_type issuer
            expires_after expires_before u' s)
  /\ (forall skip limit_ dog_id cert_type issuer expires_after
             expires_before,
        0 <= skip <= int64_max -> 1 <= limit_ <= 1000 ->
        response (certificates.get_certificates skip limit_ dog_id cert_type
                    issuer expires_after expires_before u) s
        = inr (certificates_page
                 (filter (criteria (certificate_query dog_id cert_type issuer
                                      expires_after expires_before))
                    (certificates (store s))) skip limit_))
  /\ (forall skip limit_,
        0 <= skip <= int64_max -> 1 <= limit_ <= 1000 ->
        response (certificates.get_certificates skip limit_
                    None None None None None u) s
        = inr (certificates_page (certificates (store s)) skip limit_)).
Proof.
  assert (Hpage : forall skip limit_ dog_id cert_type issuer expires_after
                    expires_before,
             0 <= skip <= int64_max -> 1 <= limit_ <= 1000 ->
             response (certificates.get_certificates skip limit_ dog_id
                         cert_type issuer expires_after expires_before u) s
             = inr (certificates_page
                      (filter (criteria (certificate_query dog_id cert_type
                                           issuer expires_after
                                           expires_before))
                         (certificates (store s))) skip limit_)).
  { intros skip limit_ dog_id cert_type issuer expires_after expires_before
      Hk Hl. unfold response. rewrite get_certificates_run by lia.
    cbn [fst].
    now replace (skip <=? int64_max) with true
      by (symmetry; apply Z.leb_le; lia). }
  split; [|split; [|split; [|split]]].
  - intros cid c Hc. now rewrite get_certificate_run, Hc.
  - intros cid Hn. now rewrite get_certificate_run, Hn.
  - reflexivity.
  - exact Hpage.
  - intros skip limit_ Hk Hl. rewrite Hpage by assumption.
    unfold certificate_query, certificate_service.when_given.
    cbn [criteria query]. now rewrite filter_true.
Qed.

End CertificateReads.

Section CertificateRuns.

Import health_records.

(** ** C10 *)

(** The claim as stated fails: a regular user reads the certificate of a
    dog outside the user's ownership scope. *)
Lemma certificate_read_outside_scope :
  ~ (forall (s : Session) (u : User.t) (certificate_id : string)
       (c : Certificate.t),
       User.role u = USER ->
       response (certificates.get_certificate certificate_id u) s = inr c ->
       response (check_dog_access u (Certificate.dog_id c)) s = inr true).
Proof.
  intros H.
  specialize (H (mkSession kennel_store []) bob "c1" rabies_d2
                eq_refl eq_refl).
  discriminate H.
Qed.

Lemma certificate_reads_ignore_principal_witness :
  response (certificates.get_certificate "c1" bob)
    (mkSession kennel_store []) = inr rabies_d2
  /\ response (certificates.get_certificates (ops := unused_ops) 0 100
                 None None None None None bob) (mkSession kennel_store [])
     = inr (mkPaginatedResponse [rabies_d2] 1 1 100 1).
Proof.
  destruct (certificate_reads_ignore_principal (ops := unused_ops)
              (mkSession kennel_store []) bob)
    as (Hget & _ & _ & _ & Hlist).
  split.
  - apply Hget. reflexivity.
  - rewrite Hlist by (unfold int64_max; lia). reflexivity.
Defined.

(** The scenario of the specification for health records, on the same
    store: the user owns [d1], the record is about [d2]; the list is empty
    and the direct read is refused with 403. *)
Example health_record_outside_scope :
  response (list_health_records bob None None None 1 10)
    (mkSession kennel_store []) = inr (mkListResponse [] 0 1 10 1)
  /\ forbidden (response (get_health_record "h1" bob)
                  (mkSession kennel_store [])) = true.
Proof. split; reflexivity. Qed.

(** ** C6 *)

(** C6, the failing input.  With no certificate in the store,
    [get_certificates] reports [total = 0] and [pages = 0]; the walk-report
    and health-record lists report [pages = 1] for their empty results on
    the same store. *)
Theorem get_certificates_empty_result_zero_pages :
  response (certificates.get_certificates (ops := unused_ops) 0 100
              None None None None None alice) (mkSession one_report_store [])
  = inr (mkPaginatedResponse [] 0 1 100 0)
  /\ response (walk_reports.list_walk_reports alice (Some "e9") None 1 100)
       (mkSession one_report_store [])
     = inr (mkListResponse [] 0 1 100 1)
  /\ response (list_health_records root_admin None None None 1 100)
       (mkSession one_report_store [])
     = inr (mkListResponse [] 0 1 100 1).
Proof. repeat split. Qed.

End CertificateRuns.

(** * Ordering and scan order *)

Section SortedRows.

Context {R K : Type}.
Variable c : R -> R -> comparison.
Variable key : R -> K.

Hypothesis c_antisym : forall x y, c x y = CompOpp (c y x).
Hypothesis c_trans : forall x y z, c x y = Lt -> c y z = Lt -> c x z = Lt.
Hypothesis c_key : forall x y, c x y = Eq -> key x = key y.

Lemma insert_row_sorted (x : R) (l : list R) :
  StronglySorted (comes_before c) l ->
  ~ In (key x) (map key l) ->
  StronglySorted (comes_before c) (insert_row c x l).
Proof.
  induction l as [|y l IH]; intros Hs Hk; cbn [insert_row].
  - repeat constructor.
  - apply StronglySorted_inv in Hs as [Hs Hy].
    assert (Hyx : c y x <> Eq).
    { intros E. apply Hk. left. now apply c_key. }
    assert (Hk' : ~ In (key x) (map key l)).
    { intros Hin. apply Hk. now right. }
    destruct (c y x) eqn:E; [contradiction| |].
    + constructor; [now apply IH|].
      apply Forall_forall. intros z Hz.
      apply (Permutation_in _ (Permutation_sym (insert_row_perm c x l))) in Hz.
      destruct Hz as [<-|Hz]; [exact E|].
      rewrite Forall_forall in Hy. now apply Hy.
    + assert (Hxy : comes_before c x y).
      { unfold comes_before. rewrite c_antisym, E. reflexivity. }
      constructor; [now constructor|].
      constructor; [exact Hxy|].
      apply Forall_forall. intros z Hz. rewrite Forall_forall in Hy.
      apply (c_trans x y z Hxy). now apply Hy.
Qed.

Lemma sort_rows_sorted (l : list R) :
  NoDup (map key l) -> StronglySorted (comes_before c) (sort_rows c l).
Proof.
  unfold sort_rows.
  induction l as [|x l IH]; intros Hnd; cbn [fold_right map] in *.
  - constructor.
  - apply NoDup_cons_iff in Hnd as [Hx Hnd].
    apply insert_row_sorted; [now apply IH|].
    intros Hin. apply Hx.
    apply (Permutation_in _ (Permutation_map key
             (Permutation_sym (sort_rows_perm c l)))).
    exact Hin.
Qed.

Lemma comes_before_asym (x y : R) :
  comes_before c x y -> ~ comes_before c y x.
Proof.
  unfold comes_before. intros Hxy Hyx. rewrite c_antisym, Hyx in Hxy.
  discriminate Hxy.
Qed.

(** Two strictly sorted lists with the same rows are the same list. *)
Lemma sorted_rows_unique (l1 l2 : list R) :
  StronglySorted (comes_before c) l1 -> StronglySorted (comes_before c) l2 ->
  Permutation l1 l2 -> l1 = l2.
Proof.
  revert l2. induction l1 as [|x l1 IH]; intros l2 H1 H2 Hp.
  - apply Permutation_nil in Hp. now subst.
  - destruct l2 as [|y l2].
    + apply Permutation_sym, Permutation_nil in Hp. discriminate Hp.
    + apply StronglySorted_inv in H1 as [H1 Hx].
      apply StronglySorted_inv in H2 as [H2 Hy].
      rewrite Forall_forall in Hx, Hy.
      assert (Exy : x = y).
      { assert (Hxin : In x (y :: l2))
          by (apply (Permutation_in _ Hp); now left).
        assert (Hyin : In y (x :: l1))
          by (apply (Permutation_in _ (Permutation_sym Hp)); now left).
        destruct Hxin as [->|Hxin]; [reflexivity|].
        destruct Hyin as [->|Hyin]; [reflexivity|].
        exfalso. apply (comes_before_asym x y); auto. }
      subst y. f_equal. apply IH; try assumption.
      now apply Permutation_cons_inv in Hp.
Qed.

Lemma Permutation_filter_rows (p : R -> bool) (l1 l2 : list R) :
  Permutation l1 l2 -> Permutation (filter p l1) (filter p l2).
Proof.
  induction 1 as [|x l1 l2 _ IH|x y l|l1 l2 l3 _ IH1 _ IH2]; cbn [filter].
  - constructor.
  - destruct (p x); [now constructor|assumption].
  - destruct (p x), (p y); try reflexivity. apply perm_swap.
  - now transitivity (filter p l2).
Qed.

Lemma NoDup_map_filter (p : R -> bool) (l : list R) :
  NoDup (map key l) -> NoDup (map key (filter p l)).
Proof.
  induction l as [|x l IH]; intros Hnd; cbn [filter map] in *; [constructor|].
  apply NoDup_cons_iff in Hnd as [Hx Hnd].
  destruct (p x); [|now apply IH].
  cbn [map]. constructor; [|now apply IH].
  intros Hin. apply Hx. apply in_map_iff in Hin as (z & Hz & Hin).
  apply in_map_iff. exists z. split; [exact Hz|].
  now apply filter_In in Hin as [Hin _].
Qed.

(** With an order that tells any two rows apart, what a query selects does
    not depend on the order in which the store scans the table. *)
Lemma sort_rows_scan_independent (p : R -> bool) (l1 l2 : list R) :
  NoDup (map key l1) -> Permutation l1 l2 ->
  sort_rows c (filter p l1) = sort_rows c (filter p l2).
Proof.
  intros Hnd Hp.
  assert (Hnd2 : NoDup (map key l2))
    by (apply (Permutation_NoDup (Permutation_map key Hp) Hnd)).
  apply sorted_rows_unique.
  - apply sort_rows_sorted. now apply NoDup_map_filter.
  - apply sort_rows_sorted. now apply NoDup_map_filter.
  - rewrite <- !sort_rows_perm. now apply Permutation_filter_rows.
Qed.

(** Sorted rows with distinct keys are strictly sorted. *)
Lemma ordered_distinct_sorted (l : list R) :
  NoDup (map key l) ->
  StronglySorted (fun x y => c x y <> Gt) l ->
  StronglySorted (comes_before c) l.
Proof.
  induction l as [|x l IH]; intros Hnd Hs; [constructor|].
  cbn [map] in Hnd. apply NoDup_cons_iff in Hnd as [Hx Hnd].
  apply StronglySorted_inv in Hs as [Hs Hall].
  constructor; [now apply IH|].
  rewrite Forall_forall in *. intros y Hy. specialize (Hall y Hy).
  unfold comes_before. destruct (c x y) eqn:E; [|reflexivity|contradiction].
  exfalso. apply Hx. rewrite (c_key x y E). now apply in_map.
Qed.

(** With an order that tells any two rows apart, [ORDER BY] allows one
    answer only, the one the embedding computes. *)
Lemma order_by_answer_unique (l answer : list R) :
  NoDup (map key l) -> answers_order_by c l answer ->
  answer = sort_rows c l.
Proof.
  intros Hnd [Hperm Hsorted].
  apply sorted_rows_unique.
  - apply ordered_distinct_sorted; [|exact Hsorted].
    apply (Permutation_NoDup (Permutation_map key Hperm) Hnd).
  - now apply sort_rows_sorted.
  - rewrite <- Hperm. apply sort_rows_perm.
Qed.

End SortedRows.

Section OrderBySound.

Context {R : Type}.
Variable c : R -> R -> comparison.

Hypothesis c_antisym : forall x y, c x y = CompOpp (c y x).
Hypothesis c_le_trans :
  forall x y z, c x y <> Gt -> c y z <> Gt -> c x z <> Gt.

Lemma insert_row_ordered (x : R) (l : list R) :
  StronglySorted (fun a b => c a b <> Gt) l ->
  StronglySorted (fun a b => c a b <> Gt) (insert_row c x l).
Proof.
  induction l as [|y l IH]; intros Hs; cbn [insert_row].
  - repeat constructor.
  - apply StronglySorted_inv in Hs as [Hs Hy].
    assert (Hstay : c y x <> Lt ->
              StronglySorted (fun a b => c a b <> Gt) (x :: y :: l)).
    { intros Hn.
      assert (Hxy : c x y <> Gt).
      { rewrite c_antisym. destruct (c y x); cbn; congruence. }
      constructor; [now constructor|].
      constructor; [exact Hxy|].
      apply Forall_forall. intros z Hz. rewrite Forall_forall in Hy.
      apply (c_le_trans x y z Hxy). now apply Hy. }
    destruct (c y x) eqn:E; [apply Hstay; congruence | | apply Hstay; congruence].
    constructor; [now apply IH|].
    apply Forall_forall. intros z Hz.
    apply (Permutation_in _ (Permutation_sym (insert_row_perm c x l))) in Hz.
    destruct Hz as [<-|Hz]; [congruence|].
    rewrite Forall_forall in Hy. now apply Hy.
Qed.

(** The rows the embedding selects are one of the answers that [ORDER BY]
    allows. *)
Lemma sort_rows_answers_order_by (l : list R) :
  answers_order_by c l (sort_rows c l).
Proof.
  split; [apply sort_rows_perm|].
  unfold sort_rows. induction l as [|x l IH]; cbn [fold_right].
  - constructor.
  - now apply insert_row_ordered.
Qed.

End OrderBySound.

Section ReportOrder.

Lemma report_order_unfold (x y : WalkReport.t) :
  report_order x y = (WalkReport.created_at y ?= WalkReport.created_at x).
Proof.
  unfold report_order, lexico, desc. cbn [cmp Ord_Z].
  now destruct (_ ?= _).
Qed.

(** What [list_walk_reports] and [list_event_reports] fetch before the
    window is an answer to their [ORDER BY]. *)
Lemma report_order_answers (l : list WalkReport.t) :
  answers_order_by report_order l (sort_rows report_order l).
Proof.
  apply sort_rows_answers_order_by.
  - intros x y. rewrite !report_order_unfold. apply Z.compare_antisym.
  - intros x y z. rewrite !report_order_unfold.
    rewrite !Z.compare_gt_iff. lia.
Qed.

End ReportOrder.

Section HealthRecordOrder.

Import health_records.

Lemma string_compare_antisym (a b : string) :
  String_as_OT.compare a b = CompOpp (String_as_OT.compare b a).
Proof.
  assert (Hirr : forall x, String_as_OT.lt x x -> False)
    by (intros x; apply (StrictOrder_Irreflexive x)).
  assert (Htr : forall x y z, String_as_OT.lt x y -> String_as_OT.lt y z ->
                String_as_OT.lt x z)
    by (intros x y z; apply (StrictOrder_Transitive x y z)).
  destruct (String_as_OT.compare_spec a b) as [E|L|G],
           (String_as_OT.compare_spec b a) as [E'|L'|G'];
    unfold String_as_OT.eq in *; subst;
    first [ reflexivity
          | exfalso; eapply Hirr; eassumption
          | exfalso; eapply Hirr; eapply Htr; eassumption ].
Qed.

Lemma string_compare_eq (a b : string) :
  String_as_OT.compare a b = Eq -> a = b.
Proof.
  destruct (String_as_OT.compare_spec a b) as [E| |]; [|discriminate..].
  intros _. exact E.
Qed.

Lemma string_compare_lt_trans (a b d : string) :
  String_as_OT.compare a b = Lt -> String_as_OT.compare b d = Lt ->
  String_as_OT.compare a d = Lt.
Proof.
  apply (StrictOrder_Transitive (R := String_as_OT.lt) a b d).
Qed.

Lemma health_order_unfold (x y : HealthRecord.t) :
  health_order x y =
  match HealthRecord.record_date y ?= HealthRecord.record_date x with
  | Eq => String_as_OT.compare (HealthRecord.id y) (HealthRecord.id x)
  | o => o
  end.
Proof.
  unfold health_order, lexico, desc. cbn [cmp Ord_Z Ord_string].
  destruct (_ ?= _); [|reflexivity|reflexivity].
  now destruct (String_as_OT.compare _ _).
Qed.

Lemma health_order_antisym (x y : HealthRecord.t) :
  health_order x y = CompOpp (health_order y x).
Proof.
  rewrite !health_order_unfold.
  rewrite (Z.compare_antisym (HealthRecord.record_date y)
             (HealthRecord.record_date x)).
  rewrite (string_compare_antisym (HealthRecord.id y) (HealthRecord.id x)).
  destruct (HealthRecord.record_date y ?= HealthRecord.record_date x);
    reflexivity.
Qed.

Lemma health_order_trans (x y z : HealthRecord.t) :
  health_order x y = Lt -> health_order y z = Lt -> health_order x z = Lt.
Proof.
  rewrite !health_order_unfold.
  destruct (Z.compare_spec (HealthRecord.record_date y)
              (HealthRecord.record_date x)) as [E1|L1|G1];
    destruct (Z.compare_spec (HealthRecord.record_date z)
                (HealthRecord.record_date y)) as [E2|L2|G2];
    try discriminate; intros H1 H2.
  - replace (_ ?= _) with Eq by (symmetry; apply Z.compare_eq_iff; lia).
    eapply string_compare_lt_trans; eassumption.
  - replace (_ ?= _) with Lt by (symmetry; apply Z.compare_lt_iff; lia).
    reflexivity.
  - replace (_ ?= _) with Lt by (symmetry; apply Z.compare_lt_iff; lia).
    reflexivity.
  - replace (_ ?= _) with Lt by (symmetry; apply Z.compare_lt_iff; lia).
    reflexivity.
Qed.

Lemma health_order_key (x y : HealthRecord.t) :
  health_order x y = Eq -> HealthRecord.id x = HealthRecord.id y.
Proof.
  rewrite health_order_unfold.
  destruct (_ ?= _); try discriminate.
  intros E. symmetry. now apply string_compare_eq.
Qed.

(** The order of [list_health_records] ends in the primary key, so that
    with unique ids the rows it selects come in one order whatever the scan
    order of the table. *)
Lemma health_order_scan_independent (p : HealthRecord.t -> bool)
  (l1 l2 : list HealthRecord.t) :
  NoDup (map HealthRecord.id l1) -> Permutation l1 l2 ->
  sort_rows health_order (filter p l1) = sort_rows health_order (filter p l2).
Proof.
  apply sort_rows_scan_independent.
  - exact health_order_antisym.
  - exact health_order_trans.
  - exact health_order_key.
Qed.

(** Whatever answer the store gives to the [ORDER BY] of
    [list_health_records] on rows with unique ids, it is this one. *)
Lemma health_order_answer_unique (l answer : list HealthRecord.t) :
  NoDup (map HealthRecord.id l) -> answers_order_by health_order l answer ->
  answer = sort_rows health_order l.
Proof.
  apply order_by_answer_unique.
  - exact health_order_antisym.
  - exact health_order_trans.
  - exact health_order_key.
Qed.

End HealthRecordOrder.

(** * Listing health records *)

Section HealthRecordListing.

Import health_records.

Lemma get_user_dogs_full_run (u : User.t) (s : Session) :
  get_user_dogs u s =
  (inr (user_dogs (store s) u),
   mkSession (store s) (executed s ++ user_dogs_calls (store s) u)).
Proof.
  unfold get_user_dogs, user_dogs, user_dogs_calls, bind.
  destruct (role_in (User.role u) [ADMIN; SUPER_ADMIN]).
  - rewrite all_plain_run by reflexivity. cbn. now rewrite filter_true.
  - rewrite first_run. cbn [store rows Model_Owner].
    destruct (find (owner_of u) (owners (store s))) as [o|]; [|reflexivity].
    rewrite all_plain_run by reflexivity. cbn. now rewrite <- app_assoc.
Qed.

Lemma count_all_run {A : Type} (q : Query HealthRecord.t) (off lim : Z)
  (k : Z -> list HealthRecord.t -> A) (s : Session) :
  q_offset q = None -> q_limit q = None ->
  response (total <- count q ;;
            records <- all (limit (offset q off) lim) ;;
            ret (k total records)) s =
  if int64 off && int64 lim then
    inr (k (Z.of_nat (length (filter (criteria q)
                                (health_records (store s)))))
           (window (Some off) (Some lim)
              (sort_rows (lexico (ordering q))
                 (filter (criteria q) (health_records (store s))))))
  else inl OverflowError.
Proof.
  intros Hf Hl.
  unfold response, bind, count, all, log_stmt, get_store, ret, fail, fetch,
    selected, bindable.
  cbn -[sort_rows lexico window int64]. rewrite Hf, Hl.
  cbn -[sort_rows lexico window int64].
  change (window None None ?l) with l.
  rewrite sort_rows_length.
  now destruct (int64 off && int64 lim).
Qed.

Lemma response_bind {A B : Type} (m : M A) (k : A -> M B) (s : Session) :
  response (bind m k) s =
  match m s with
  | (inl e, _) => inl e
  | (inr a, s') => response (k a) s'
  end.
Proof. unfold response, bind. now destruct (m s) as [[e|a] s']. Qed.

Lemma response_ret_bind {A B : Type} (a : A) (k : A -> M B) (s : Session) :
  response (bind (ret a) k) s = response (k a) s.
Proof. reflexivity. Qed.

Lemma response_bind_bind {A B C : Type} (m : M A) (k1 : A -> M B)
  (k2 : B -> M C) (s : Session) :
  response (bind (bind m k1) k2) s
  = response (bind m (fun a => bind (k1 a) k2)) s.
Proof. unfold response, bind. now destruct (m s) as [[e|a] s']. Qed.

Lemma bind_ok {A B : Type} (m : M A) (k : A -> M B) (s s' : Session)
  (a : A) :
  m s = (inr a, s') -> bind m k s = k a s'.
Proof. intros E. unfold bind. now rewrite E. Qed.

Lemma check_dog_access_run (u : User.t) (dog_id : string) (s : Session) :
  check_dog_access u dog_id s =
  (inr (existsb (fun d => String.eqb (Dog.id d) dog_id)
          (user_dogs (store s) u)),
   mkSession (store s) (executed s ++ user_dogs_calls (store s) u)).
Proof.
  unfold check_dog_access.
  now rewrite (bind_ok _ _ _ _ _ (get_user_dogs_full_run u s)).
Qed.

(** The tail of [list_health_records]: count, window, page count. *)
Ltac count_and_fetch page size date_from date_to :=
  cbv beta; destruct date_from, date_to;
  (rewrite (count_all_run _ _ _ (fun total records =>
              mkListResponse records total page size
                (if 0 <? total then math_ceil_div total size else 1)))
     by reflexivity;
   rewrite int64_offset by lia;
   destruct ((page - 1) * size <=? int64_max); [|reflexivity];
   erewrite filter_ext; [reflexivity|];
   intros r; unfold date_window; cbn;
   rewrite ?andb_true_r, ?andb_assoc; reflexivity).

Lemma list_health_records_run (u : User.t) (dog_id : option string)
  (date_from date_to : option Z) (page size : Z) (s : Session) :
  1 <= page -> 1 <= size <= 100 ->
  response (list_health_records u dog_id date_from date_to page size) s =
  match health_plan (user_dogs (store s) u) u dog_id date_from date_to with
  | inl e => inl e
  | inr None => inr (mkListResponse [] 0 page size 1)
  | inr (Some p) =>
      if (page - 1) * size <=? int64_max
      then inr (records_page (filter p (health_records (store s))) page size)
      else inl OverflowError
  end.
Proof.
  intros Hp Hs. unfold list_health_records, validate.
  replace (1 <=? page) with true by (symmetry; apply Z.leb_le; lia).
  replace ((1 <=? size) && (size <=? 100)) with true
    by (symmetry; apply andb_true_intro; split; apply Z.leb_le; lia).
  rewrite !response_ret_bind.
  unfold scope_to_own_dogs, health_plan.
  destruct (UserRole_eqb (User.role u) USER) eqn:Hreg.
  - rewrite response_bind_bind, response_bind, get_user_dogs_full_run.
    destruct (user_dogs (store s) u) as [|dog0 own] eqn:Hown;
      rewrite response_ret_bind; [reflexivity|].
    cbn [andb store].
    destruct dog_id as [dog|]; [destruct (truthy dog)|].
    + rewrite !response_bind_bind, response_bind, check_dog_access_run.
      cbn [store]. rewrite Hown, response_ret_bind.
      destruct (existsb (fun d => String.eqb (Dog.id d) dog) (dog0 :: own));
        cbn [negb]; [|reflexivity].
      rewrite response_ret_bind.
      count_and_fetch page size date_from date_to.
    + rewrite response_ret_bind.
      count_and_fetch page size date_from date_to.
    + rewrite response_ret_bind.
      count_and_fetch page size date_from date_to.
  - rewrite response_ret_bind. cbn [andb].
    destruct dog_id as [dog|]; [destruct (truthy dog)|].
    + rewrite response_bind_bind, response_ret_bind. cbv beta iota.
      rewrite response_ret_bind.
      count_and_fetch page size date_from date_to.
    + rewrite response_ret_bind.
      count_and_fetch page size date_from date_to.
    + rewrite response_ret_bind.
      count_and_fetch page size date_from date_to.
Qed.

(** X17.  The health-record list is the same for any scan order of a table
    whose ids are unique: its order ends in the primary key. *)
Lemma list_health_records_scan_independent (u : User.t)
  (dog_id : option string) (date_from date_to : option Z) (page size : Z)
  (s1 s2 : Session) :
  1 <= page -> 1 <= size <= 100 ->
  dogs (store s1) = dogs (store s2) ->
  owners (store s1) = owners (store s2) ->
  NoDup (map HealthRecord.id (health_records (store s1))) ->
  Permutation (health_records (store s1)) (health_records (store s2)) ->
  response (list_health_records u dog_id date_from date_to page size) s1
  = response (list_health_records u dog_id date_from date_to page size) s2.
Proof.
  intros Hp Hs Hd Ho Hnd Hperm.
  rewrite !list_health_records_run by assumption.
  replace (user_dogs (store s2) u) with (user_dogs (store s1) u)
    by (unfold user_dogs; now rewrite Hd, Ho).
  destruct (health_plan _ u dog_id date_from date_to) as [e|[p|]];
    try reflexivity.
  destruct ((page - 1) * size <=? int64_max); [|reflexivity].
  unfold records_page.
  rewrite (health_order_scan_independent p _ _ Hnd Hperm).
  now rewrite (Permutation_length
                 (Permutation_filter_rows p _ _ Hperm)).
Qed.

End HealthRecordListing.

(** * Existence checks and permission checks *)

Section ExistenceFirst.

Import walk_reports health_records.

Lemma get_health_record_missing (record_id : string) (u : User.t)
  (s : Session) :
  health_record_at (store s) record_id = None ->
  get_health_record record_id u s =
  (inl (HTTPError (mkHTTPException HTTP_404_NOT_FOUND
          "Health record not found")),
   mkSession (store s) (executed s ++ [SELECT THealthRecord])).
Proof.
  intros Hn. unfold get_health_record, bind. rewrite first_run.
  cbn [store rows Model_HealthRecord].
  unfold health_record_at in Hn. now rewrite Hn.
Qed.

Lemma create_health_record_run (uuid : string) (hc : HealthRecordCreate.t)
  (u : User.t) (s : Session) :
  (role_in (User.role u) [ADMIN; SUPER_ADMIN] = false ->
   create_health_record uuid hc u s =
   (inl (HTTPError (mkHTTPException HTTP_403_FORBIDDEN
           "Only administrators can create health records")), s))
  /\ (role_in (User.role u) [ADMIN; SUPER_ADMIN] = true ->
      dog_at (store s) (HealthRecordCreate.dog_id hc) = None ->
      create_health_record uuid hc u s =
      (inl (HTTPError (mkHTTPException HTTP_404_NOT_FOUND "Dog not found")),
       mkSession (store s) (executed s ++ [SELECT TDog]))).
Proof.
  unfold create_health_record. split.
  - intros ->. reflexivity.
  - intros -> Hn. cbn [negb]. unfold bind. rewrite first_run.
    cbn [store rows Model_Dog]. unfold dog_at in Hn. now rewrite Hn.
Qed.

(** A dog that is not in the store is not among the dogs of any user. *)
Lemma missing_dog_not_owned (d : Db) (u : User.t) (dog_id : string) :
  dog_at d dog_id = None ->
  existsb (fun dog => String.eqb (Dog.id dog) dog_id) (user_dogs d u) = false.
Proof.
  intros Hn. destruct (existsb _ _) eqn:E; [|reflexivity].
  apply existsb_exists in E as (dog & Hin & Hid).
  assert (Hdog : In dog (dogs d)).
  { unfold user_dogs in Hin.
    destruct (role_in (User.role u) [ADMIN; SUPER_ADMIN]); [exact Hin|].
    destruct (find (owner_of u) (owners d)); [|contradiction].
    now apply filter_In in Hin as [Hin _]. }
  unfold dog_at in Hn.
  pose proof (find_none _ _ Hn dog Hdog) as Hno. cbv beta in Hno.
  rewrite Hid in Hno. discriminate Hno.
Qed.

(** ** C8 *)

(** The claim as stated fails on [create_health_record]: a regular user
    who names a dog that does not exist is answered 403, not 404. *)
Lemma create_health_record_forbidden_before_not_found :
  ~ (forall (s : Session) (uuid : string) (hc : HealthRecordCreate.t)
       (u : User.t),
       dog_at (store s) (HealthRecordCreate.dog_id hc) = None ->
       not_found (response (create_health_record uuid hc u) s) = true).
Proof.
  intros H.
  specialize (H (mkSession one_report_store []) "h1"
                (HealthRecordCreate.mk "d9" 1 no_fields) alice eq_refl).
  discriminate H.
Qed.

(** C8, amended.  Reading, updating and deleting a walk report, creating a
    report for an event, listing the reports of an event and reading a
    health record look their target up first: a missing target is answered
    404 for every principal, and the lookup of the target is the only
    statement executed.  Two operations do not.  [create_health_record]
    applies its role gate first: a principal that is not elevated is
    answered 403 before any lookup, and an elevated principal naming a
    missing dog is answered 404.  [list_health_records] never looks up the
    dog of its [dog_id] filter: for a dog that is not in the store it never
    answers 404; a regular user who has dogs is answered 403 by
    [check_dog_access], a regular user without dogs gets the empty page, and
    every other role gets a page. *)
Theorem missing_target_is_not_found (s : Session) (u : User.t) :
  (forall report_id,
     report_at (store s) report_id = None ->
     (not_found (response (get_walk_report report_id u) s) = true
      /\ calls (get_walk_report report_id u) s
         = (executed s ++ [SELECT TWalkReport])%list)
     /\ (forall upd,
           not_found (response (update_walk_report report_id upd u) s) = true
           /\ calls (update_walk_report report_id upd u) s
              = (executed s ++ [SELECT TWalkReport])%list)
     /\ (not_found (response (delete_walk_report report_id u) s) = true
         /\ calls (delete_walk_report report_id u) s
            = (executed s ++ [SELECT TWalkReport])%list))
  /\ (forall uuid now rc,
        event_at (store s) (WalkReportCreate.walk_event_id rc) = None ->
        not_found (response (create_walk_report uuid now rc u) s) = true
        /\ calls (create_walk_report uuid now rc u) s
           = (executed s ++ [SELECT TWalkEvent])%list)
  /\ (forall event_id page size,
        1 <= page -> 1 <= size <= 100 ->
        event_at (store s) event_id = None ->
        not_found (response (list_event_reports event_id u page size) s) = true
        /\ calls (list_event_reports event_id u page size) s
           = (executed s ++ [SELECT TWalkEvent])%list)
  /\ (forall record_id,
        health_record_at (store s) record_id = None ->
        not_found (response (get_health_record record_id u) s) = true
        /\ calls (get_health_record record_id u) s
           = (executed s ++ [SELECT THealthRecord])%list)
  /\ (forall uuid hc,
        (~ elevated u ->
         forbidden (response (create_health_record uuid hc u) s) = true
         /\ calls (create_health_record uuid hc u) s = executed s)
        /\ (elevated u ->
            dog_at (store s) (HealthRecordCreate.dog_id hc) = None ->
            not_found (response (create_health_record uuid hc u) s) = true
            /\ calls (create_health_record uuid hc u) s
               = (executed s ++ [SELECT TDog])%list))
  /\ (forall dog_id date_from date_to page size,
        1 <= page -> 1 <= size <= 100 ->
        dog_id <> "" ->
        dog_at (store s) dog_id = None ->
        not_found (response (list_health_records u (Some dog_id) date_from
                               date_to page size) s) = false
        /\ (User.role u = USER -> user_dogs (store s) u <> [] ->
            forbidden (response (list_health_records u (Some dog_id)
                                   date_from date_to page size) s) = true)
        /\ (User.role u = USER -> user_dogs (store s) u = [] ->
            response (list_health_records u (Some dog_id) date_from date_to
                        page size) s
            = inr (mkListResponse [] 0 page size 1))
        /\ (User.role u <> USER -> (page - 1) * size <= int64_max ->
            exists resp : ListResponse HealthRecord.t,
              response (list_health_records u (Some dog_id) date_from
                          date_to page size) s = inr resp)).
Proof.
  split; [|split; [|split; [|split; [|split]]]].
  6:{ intros dog_id date_from date_to page size Hp Hs Hne Hmissing.
      rewrite list_health_records_run by assumption.
      unfold health_plan. cbv zeta.
      replace (truthy dog_id) with true
        by (unfold truthy; apply String.eqb_neq in Hne; now rewrite Hne).
      rewrite (missing_dog_not_owned _ u _ Hmissing). cbn [negb].
      rewrite andb_true_r.
      destruct (UserRole_eqb (User.role u) USER) eqn:Hreg; cbn [andb].
      - apply UserRole_eqb_eq in Hreg.
        destruct (user_dogs (store s) u) as [|dog0 own].
        + split; [reflexivity|]. split; [intros _ H; now destruct H|].
          split; [reflexivity|]. intros H. contradiction.
        + split; [reflexivity|]. split; [reflexivity|].
          split; [discriminate|]. intros H. contradiction.
      - assert (Hnot : User.role u <> USER).
        { intros E. rewrite E in Hreg. discriminate Hreg. }
        split; [now destruct (_ <=? _)|].
        split; [intros E; contradiction|].
        split; [intros E; contradiction|].
        intros _ Hb.
        replace ((page - 1) * size <=? int64_max) with true
          by (symmetry; now apply Z.leb_le).
        eexists. reflexivity. }
  all: unfold response, calls.
  - intros report_id Hn. split; [|split]; [|intros upd|];
      unfold get_walk_report, update_walk_report, delete_walk_report, bind;
      rewrite find_report_run, Hn; split; reflexivity.
  - intros uuid now rc Hn. unfold create_walk_report, bind.
    rewrite find_event_run, Hn. split; reflexivity.
  - intros event_id page size Hp Hs Hn.
    unfold list_event_reports, validate.
    replace (1 <=? page) with true by (symmetry; apply Z.leb_le; lia).
    replace ((1 <=? size) && (size <=? 100)) with true
      by (symmetry; apply andb_true_intro; split; apply Z.leb_le; lia).
    cbn [bind ret]. unfold bind. rewrite find_event_run, Hn.
    split; reflexivity.
  - intros record_id Hn. rewrite get_health_record_missing by assumption.
    split; reflexivity.
  - intros uuid hc.
    destruct (create_health_record_run uuid hc u s) as [Hdeny Hmiss].
    split.
    + intros Hne. rewrite Hdeny by now apply not_elevated_role_in.
      split; reflexivity.
    + intros He Hn. rewrite Hmiss; [split; reflexivity | | assumption].
      now apply role_in_admins.
Qed.

Lemma missing_target_is_not_found_witness :
  not_found (response (update_walk_report "r9" no_patch root_admin)
               (mkSession one_report_store [])) = true
  /\ forbidden (response (create_health_record "h1"
                            (HealthRecordCreate.mk "d9" 1 no_fields) alice)
                  (mkSession one_report_store [])) = true
  /\ forbidden (response (list_health_records bob (Some "d9") None None 1 10)
                  (mkSession kennel_store [])) = true.
Proof.
  destruct (missing_target_is_not_found (mkSession one_report_store [])
              root_admin) as (Hreport & _).
  destruct (Hreport "r9" eq_refl) as (_ & Hupd & _).
  destruct (missing_target_is_not_found (mkSession one_report_store [])
              alice) as (_ & _ & _ & _ & Hcreate & _).
  destruct (Hcreate "h1" (HealthRecordCreate.mk "d9" 1 no_fields))
    as (Hdeny & _).
  destruct (missing_target_is_not_found (mkSession kennel_store []) bob)
    as (_ & _ & _ & _ & _ & Hlist).
  destruct (Hlist "d9" None None 1 10 ltac:(lia) ltac:(lia)
              ltac:(discriminate) eq_refl) as (_ & Hdog & _).
  split; [|split].
  - apply Hupd.
  - apply Hdeny. unfold elevated. simpl. intros [E|E]; discriminate E.
  - apply Hdog; [reflexivity | discriminate].
Defined.

End ExistenceFirst.

(** * Ties and the order of the scan *)

Section ScanOrder.

Import walk_reports.

(** ** C7 *)

(** C7, the failing input.  [list_walk_reports] and [list_event_reports]
    order by [created_at] alone.  On the same two rows, created at the same
    instant, the same call answers the ids in the scan order of the table:
    two scans, two sequences, each of them an answer that the [ORDER BY]
    of the handler allows on that one table; and with [size = 1] the first
    page of one scan and the second page of the other show the same
    report. *)
Theorem list_walk_reports_ties_follow_scan_order :
  Permutation (walk_reports scan_park_first) (walk_reports scan_river_first)
  /\ answers_order_by report_order (walk_reports scan_park_first)
       [park_walk; river_walk]
  /\ answers_order_by report_order (walk_reports scan_park_first)
       [river_walk; park_walk]
  /\ listed_ids (response (list_walk_reports alice None None 1 10)
                   (mkSession scan_park_first [])) = Some ["ra"; "rb"]
  /\ listed_ids (response (list_walk_reports alice None None 1 10)
                   (mkSession scan_river_first [])) = Some ["rb"; "ra"]
  /\ listed_ids (response (list_event_reports "e1" alice 1 10)
                   (mkSession scan_park_first [])) = Some ["ra"; "rb"]
  /\ listed_ids (response (list_event_reports "e1" alice 1 10)
                   (mkSession scan_river_first [])) = Some ["rb"; "ra"]
  /\ listed_ids (response (list_walk_reports alice None None 1 1)
                   (mkSession scan_park_first [])) = Some ["ra"]
  /\ listed_ids (response (list_walk_reports alice None None 2 1)
                   (mkSession scan_river_first [])) = Some ["ra"].
Proof.
  split; [apply perm_swap|].
  split; [apply (report_order_answers [park_walk; river_walk])|].
  split.
  { destruct (report_order_answers [river_walk; park_walk]) as [_ Hsorted].
    split; [apply perm_swap | exact Hsorted]. }
  repeat split.
Qed.

End ScanOrder.

(** * Tables keyed by a primary key *)

Section KeyedTable.

Context {R : Type}.
Variable key : R -> string.

Lemma find_by_key_sound (k : string) (l : list R) (x : R) :
  find (fun y => String.eqb (key y) k) l = Some x -> key x = k /\ In x l.
Proof.
  intros Hf. apply find_some in Hf as [Hin Hk].
  apply String.eqb_eq in Hk. now split.
Qed.

Lemma find_by_key_append (k : string) (l : list R) (x : R) :
  find (fun y => String.eqb (key y) k) (l ++ [x]) =
  match find (fun y => String.eqb (key y) k) l with
  | Some y => Some y
  | None => if String.eqb (key x) k then Some x else None
  end.
Proof.
  induction l as [|y l IH]; cbn [app find]; [reflexivity|].
  destruct (String.eqb (key y) k); [reflexivity | exact IH].
Qed.

Lemma find_by_key_replace (k : string) (x : R) (l : list R) :
  find (fun y => String.eqb (key y) k)
    (map (fun y => if String.eqb (key y) (key x) then x else y) l) =
  if String.eqb (key x) k
  then option_map (fun _ => x) (find (fun y => String.eqb (key y) k) l)
  else find (fun y => String.eqb (key y) k) l.
Proof.
  induction l as [|y l IH]; cbn [map find].
  - now destruct (String.eqb (key x) k).
  - destruct (String.eqb_spec (key y) (key x)) as [Eyx|Nyx].
    + rewrite Eyx. destruct (String.eqb (key x) k) eqn:E; [reflexivity|].
      exact IH.
    + destruct (String.eqb_spec (key y) k) as [Eyk|Nyk].
      * subst k. apply not_eq_sym, String.eqb_neq in Nyx. now rewrite Nyx.
      * exact IH.
Qed.

Lemma find_by_key_remove (k : string) (x : R) (l : list R) :
  find (fun y => String.eqb (key y) k)
    (filter (fun y => negb (String.eqb (key y) (key x))) l) =
  if String.eqb (key x) k then None
  else find (fun y => String.eqb (key y) k) l.
Proof.
  induction l as [|y l IH]; cbn [filter find].
  - now destruct (String.eqb (key x) k).
  - destruct (String.eqb_spec (key y) (key x)) as [Eyx|Nyx]; cbn [negb].
    + rewrite IH, Eyx. now destruct (String.eqb (key x) k).
    + cbn [find]. destruct (String.eqb_spec (key y) k) as [Eyk|Nyk].
      * subst k. apply not_eq_sym, String.eqb_neq in Nyx. now rewrite Nyx.
      * exact IH.
Qed.

Lemma keys_of_replace (x : R) (l : list R) :
  map key (map (fun y => if String.eqb (key y) (key x) then x else y) l)
  = map key l.
Proof.
  rewrite map_map. apply map_ext. intros y.
  destruct (String.eqb_spec (key y) (key x)); congruence.
Qed.

Lemma replace_twice (x : R) (l : list R) :
  map (fun y => if String.eqb (key y) (key x) then x else y)
    (map (fun y => if String.eqb (key y) (key x) then x else y) l)
  = map (fun y => if String.eqb (key y) (key x) then x else y) l.
Proof.
  rewrite map_map. apply map_ext. intros y.
  destruct (String.eqb_spec (key y) (key x)) as [E|N].
  - now rewrite String.eqb_refl.
  - apply String.eqb_neq in N. now rewrite N.
Qed.

Lemma keys_unique_append (x : R) (l : list R) :
  NoDup (map key l) ->
  existsb (fun y => String.eqb (key y) (key x)) l = false ->
  NoDup (map key (l ++ [x])).
Proof.
  intros Hnd Hfresh. rewrite map_app. cbn [map].
  apply NoDup_app; [exact Hnd | repeat constructor; intros [] |].
  intros k Hk [<-|[]]. apply in_map_iff in Hk as (y & Hy & Hin).
  assert (Hex : existsb (fun y => String.eqb (key y) (key x)) l = true).
  { apply existsb_exists. exists y. split; [exact Hin|].
    now apply String.eqb_eq. }
  congruence.
Qed.

Lemma keys_unique_remove (x : R) (l : list R) :
  NoDup (map key l) ->
  NoDup (map key (filter (fun y => negb (String.eqb (key y) (key x))) l)).
Proof. apply NoDup_map_filter. Qed.

Lemma existsb_find_none (k : string) (l : list R) :
  existsb (fun y => String.eqb (key y) k) l = false
  <-> find (fun y => String.eqb (key y) k) l = None.
Proof.
  induction l as [|y l IH]; cbn [existsb find]; [tauto|].
  destruct (String.eqb (key y) k); cbn [orb]; [split; discriminate|exact IH].
Qed.

End KeyedTable.

(** * Walk reports: what the writes do to the store *)

Section WalkReportWrites.

Import walk_reports.

Lemma report_at_sound (d : Db) (report_id : string) (r : WalkReport.t) :
  report_at d report_id = Some r ->
  WalkReport.id r = report_id /\ In r (walk_reports d).
Proof. apply (find_by_key_sound WalkReport.id). Qed.

Lemma can_create_report_state (u : User.t) (event_id : string) (s : Session) :
  exists s' : Session,
    _can_create_report u event_id s
    = (inr (create_verdict (store s) u event_id), s')
    /\ store s' = store s.
Proof.
  destruct (can_create_report_run u event_id s) as [Hv Hs].
  unfold response, store_after in Hv, Hs.
  destruct (_can_create_report u event_id s) as [r s'].
  cbn [fst snd] in Hv, Hs. subst r. now exists s'.
Qed.

(** What [create_walk_report] answers and the store it leaves. *)
Lemma create_walk_report_outcome (uuid : string) (now : Z)
  (rc : WalkReportCreate.t) (u : User.t) (s : Session) :
  let event_id := WalkReportCreate.walk_event_id rc in
  let r := new_report uuid now rc u in
  (response (create_walk_report uuid now rc u) s,
   store_after (create_walk_report uuid now rc u) s) =
  match event_at (store s) event_id with
  | None =>
      (inl (HTTPError (mkHTTPException HTTP_404_NOT_FOUND
              "Walk event not found")), store s)
  | Some _ =>
      if create_verdict (store s) u event_id then
        match report_at (store s) uuid with
        | Some _ => (inl IntegrityError, store s)
        | None =>
            (inr r,
             with_walk_reports (store s) (walk_reports (store s) ++ [r]))
        end
      else
        (inl (HTTPError (mkHTTPException HTTP_403_FORBIDDEN
           "You can only create reports for events you created or participated in")),
         store s)
  end.
Proof.
  cbv zeta. unfold response, store_after, create_walk_report, bind.
  rewrite find_event_run.
  destruct (event_at (store s) (WalkReportCreate.walk_event_id rc));
    [|reflexivity].
  destruct (can_create_report_state u (WalkReportCreate.walk_event_id rc)
              (mkSession (store s) (executed s ++ [SELECT TWalkEvent])))
    as (s' & -> & Hs').
  cbn [store] in Hs' |- *.
  destruct (create_verdict (store s) u (WalkReportCreate.walk_event_id rc));
    cbn [negb]; [|unfold raise, fail; cbn [fst snd]; now rewrite Hs'].
  fold (new_report uuid now rc u).
  unfold add_walk_report, bind, log_stmt, get_store, put_store, fail, ret.
  cbn [store fst snd]. rewrite Hs'.
  destruct (existsb _ _) eqn:Ex.
  - destruct (report_at (store s) uuid) eqn:Er; [reflexivity|].
    apply (existsb_find_none WalkReport.id) in Er.
    unfold new_report in Ex. cbn [WalkReport.id] in Ex. congruence.
  - apply (existsb_find_none WalkReport.id) in Ex.
    unfold new_report in Ex. cbn [WalkReport.id] in Ex.
    unfold report_at. rewrite Ex. reflexivity.
Qed.

Lemma create_verdict_iff (d : Db) (u : User.t) (event_id : string)
  (event : WalkEvent.t) :
  event_at d event_id = Some event ->
  create_verdict d u event_id = true
  <-> elevated u
      \/ WalkEvent.created_by_user_id event = User.id u
      \/ approved_participant d u event_id.
Proof.
  intros He. unfold create_verdict, elevated. rewrite He.
  rewrite !orb_true_iff, role_in_admins, String.eqb_eq.
  rewrite find_participation_iff. tauto.
Qed.

Lemma author_can_view (u : User.t) (r : WalkReport.t) :
  WalkReport.author_user_id r = User.id u -> _can_view_report u r = true.
Proof.
  intros Ha. unfold _can_view_report. rewrite Ha, String.eqb_refl.
  destruct (ReportStatus_eqb (WalkReport.status r) PUBLIC); [reflexivity|].
  now destruct (role_in (User.role u) [ADMIN; SUPER_ADMIN]).
Qed.

(** What [update_walk_report] answers and the store it leaves. *)
Lemma update_walk_report_outcome (report_id : string)
  (upd : WalkReportUpdate.t) (u : User.t) (s : Session) :
  (response (update_walk_report report_id upd u) s,
   store_after (update_walk_report report_id upd u) s) =
  match report_at (store s) report_id with
  | None =>
      (inl (HTTPError (mkHTTPException HTTP_404_NOT_FOUND
              "Walk report not found")), store s)
  | Some r =>
      if String.eqb (WalkReport.author_user_id r) (User.id u) then
        match setattrs r upd with
        | Some r' =>
            (inr r',
             with_walk_reports (store s)
               (replace_report r' (walk_reports (store s))))
        | None => (inl IntegrityError, store s)
        end
      else
        (inl (HTTPError (mkHTTPException HTTP_403_FORBIDDEN
                "Only the report author can update the report")), store s)
  end.
Proof.
  unfold response, store_after, update_walk_report, bind.
  rewrite find_report_run.
  destruct (report_at (store s) report_id) as [r|]; [|reflexivity].
  destruct (String.eqb _ _); cbn [negb]; [|reflexivity].
  destruct (setattrs r upd); reflexivity.
Qed.

(** What [delete_walk_report] answers and the store it leaves. *)
Lemma delete_walk_report_outcome (report_id : string) (u : User.t)
  (s : Session) :
  (response (delete_walk_report report_id u) s,
   store_after (delete_walk_report report_id u) s) =
  match report_at (store s) report_id with
  | None =>
      (inl (HTTPError (mkHTTPException HTTP_404_NOT_FOUND
              "Walk report not found")), store s)
  | Some r =>
      if negb (String.eqb (WalkReport.author_user_id r) (User.id u))
         && negb (role_in (User.role u) [ADMIN; SUPER_ADMIN])
      then
        (inl (HTTPError (mkHTTPException HTTP_403_FORBIDDEN
                "Only the report author or admin can delete the report")),
         store s)
      else
        (inr "Walk report deleted successfully",
         with_walk_reports (store s)
           (remove_report r (walk_reports (store s))))
  end.
Proof.
  unfold response, store_after, delete_walk_report, bind.
  rewrite find_report_run.
  destruct (report_at (store s) report_id) as [r|]; [|reflexivity].
  destruct (negb _ && negb _); reflexivity.
Qed.

Lemma setattrs_identity (r r' : WalkReport.t) (upd : WalkReportUpdate.t) :
  setattrs r upd = Some r' ->
  WalkReport.id r' = WalkReport.id r
  /\ WalkReport.walk_event_id r' = WalkReport.walk_event_id r
  /\ WalkReport.author_user_id r' = WalkReport.author_user_id r
  /\ WalkReport.created_at r' = WalkReport.created_at r.
Proof.
  unfold setattrs, set_required.
  destruct upd as [t c p w st]. cbn.
  destruct t as [[t|]|], st as [[st|]|]; try discriminate;
    intros [= <-]; now cbn.
Qed.

Lemma setattrs_again (r r' : WalkReport.t) (upd : WalkReportUpdate.t) :
  setattrs r upd = Some r' -> setattrs r' upd = Some r'.
Proof.
  unfold setattrs, set_required, set_nullable.
  destruct upd as [t c p w st]. cbn.
  destruct t as [[t|]|], st as [[st|]|]; try discriminate;
    intros [= <-]; cbn; destruct c, p, w; reflexivity.
Qed.

Lemma missing_report_not_found (d : Db) (report_id : string) (v : User.t)
  (log : list Call) :
  report_at d report_id = None ->
  not_found (response (get_walk_report report_id v) (mkSession d log)) = true
  /\ not_found (response (delete_walk_report report_id v) (mkSession d log))
     = true
  /\ forall upd,
       not_found (response (update_walk_report report_id upd v)
                    (mkSession d log)) = true.
Proof.
  intros Hn. unfold response, get_walk_report, delete_walk_report,
    update_walk_report, bind.
  rewrite find_report_run. cbn [store]. rewrite Hn. repeat split.
Qed.

(** X1.  A report created for an event that exists, by a caller who is
    elevated, created the event or is an approved participant, under an id
    that is not taken: the handler answers the new row, authored by the
    caller, appended to the table; the author reads it back with
    [get_walk_report]; every other id finds what it found before. *)
Theorem create_walk_report_then_get
  (uuid : string) (now : Z) (rc : WalkReportCreate.t) (u : User.t)
  (s : Session) (event : WalkEvent.t) :
  event_at (store s) (WalkReportCreate.walk_event_id rc) = Some event ->
  elevated u
  \/ WalkEvent.created_by_user_id event = User.id u
  \/ approved_participant (store s) u (WalkReportCreate.walk_event_id rc) ->
  report_at (store s) uuid = None ->
  exists r : WalkReport.t,
    response (create_walk_report uuid now rc u) s = inr r
    /\ WalkReport.id r = uuid
    /\ WalkReport.author_user_id r = User.id u
    /\ walk_reports (store_after (create_walk_report uuid now rc u) s)
       = (walk_reports (store s) ++ [r])%list
    /\ (forall log,
          response (get_walk_report uuid u)
            (mkSession (store_after (create_walk_report uuid now rc u) s) log)
          = inr r)
    /\ (forall report_id, report_id <> uuid ->
          report_at (store_after (create_walk_report uuid now rc u) s)
            report_id
          = report_at (store s) report_id).
Proof.
  intros He Hallowed Hfresh.
  pose proof (create_walk_report_outcome uuid now rc u s) as H.
  cbv zeta in H. rewrite He, Hfresh in H.
  rewrite (proj2 (create_verdict_iff _ _ _ _ He) Hallowed) in H.
  injection H as Hresp Hstore.
  exists (new_report uuid now rc u). rewrite Hresp, Hstore.
  split; [reflexivity|]. split; [reflexivity|]. split; [reflexivity|].
  split; [reflexivity|]. split.
  - intros log.
    rewrite (get_walk_report_run uuid u _ (new_report uuid now rc u)).
    + now rewrite author_can_view.
    + unfold report_at. cbn [store with_walk_reports walk_reports].
      rewrite (find_by_key_append WalkReport.id).
      fold (report_at (store s) uuid). rewrite Hfresh.
      cbn [new_report WalkReport.id]. now rewrite String.eqb_refl.
  - intros report_id Hne. unfold report_at.
    cbn [with_walk_reports walk_reports].
    rewrite (find_by_key_append WalkReport.id).
    destruct (find _ (walk_reports (store s))); [reflexivity|].
    cbn [new_report WalkReport.id].
    apply not_eq_sym, String.eqb_neq in Hne. now rewrite Hne.
Qed.

Lemma create_walk_report_then_get_witness :
  exists r : WalkReport.t,
    response (create_walk_report "r7" 30
                (WalkReportCreate.mk "e1" "Hill" None None None None) bob)
      (mkSession walk_store []) = inr r
    /\ WalkReport.id r = "r7"
    /\ WalkReport.author_user_id r = "u-bob".
Proof.
  destruct (create_walk_report_then_get "r7" 30
              (WalkReportCreate.mk "e1" "Hill" None None None None) bob
              (mkSession walk_store []) (WalkEvent.mk "e1" "u-carol"))
    as (r & Hresp & Hid & Hauthor & _).
  - reflexivity.
  - right. right. exists owner_bob, (WalkParticipant.mk "e1" "o-bob" APPROVED).
    repeat split. now left.
  - reflexivity.
  - exists r. repeat split; assumption.
Defined.

(** X2.  [create_walk_report] either fails and leaves the store as it was,
    or appends exactly one row, with the requested id and the caller as
    author, and touches no other table. *)
Theorem create_walk_report_store_effect
  (uuid : string) (now : Z) (rc : WalkReportCreate.t) (u : User.t)
  (s : Session) :
  match response (create_walk_report uuid now rc u) s with
  | inr r =>
      store_after (create_walk_report uuid now rc u) s
      = with_walk_reports (store s) (walk_reports (store s) ++ [r])
      /\ WalkReport.id r = uuid
      /\ WalkReport.author_user_id r = User.id u
      /\ report_at (store s) uuid = None
  | inl _ => store_after (create_walk_report uuid now rc u) s = store s
  end.
Proof.
  pose proof (create_walk_report_outcome uuid now rc u s) as H.
  cbv zeta in H.
  destruct (event_at (store s) (WalkReportCreate.walk_event_id rc));
    [destruct (create_verdict _ _ _);
     [destruct (report_at (store s) uuid) eqn:Er|]|];
    injection H as -> ->; try reflexivity.
  repeat split.
Qed.

(** X3.  A successful [update_walk_report] never changes the id, the event,
    the author or the creation time of the report; the patched row is what
    the id finds afterwards, every other id finds what it found before, and
    the ids of the table are the same in the same order. *)
Theorem update_walk_report_keeps_identity
  (s : Session) (u : User.t) (report_id : string)
  (upd : WalkReportUpdate.t) (r r' : WalkReport.t) :
  report_at (store s) report_id = Some r ->
  response (update_walk_report report_id upd u) s = inr r' ->
  (WalkReport.id r' = WalkReport.id r
   /\ WalkReport.walk_event_id r' = WalkReport.walk_event_id r
   /\ WalkReport.author_user_id r' = WalkReport.author_user_id r
   /\ WalkReport.created_at r' = WalkReport.created_at r)
  /\ report_at (store_after (update_walk_report report_id upd u) s) report_id
     = Some r'
  /\ (forall other, other <> report_id ->
        report_at (store_after (update_walk_report report_id upd u) s) other
        = report_at (store s) other)
  /\ map WalkReport.id
       (walk_reports (store_after (update_walk_report report_id upd u) s))
     = map WalkReport.id (walk_reports (store s)).
Proof.
  intros Hr Hresp.
  pose proof (update_walk_report_outcome report_id upd u s) as H.
  rewrite Hr, Hresp in H.
  destruct (String.eqb _ _); [|discriminate H].
  destruct (setattrs r upd) as [r1|] eqn:Es; [|discriminate H].
  injection H as <- ->.
  pose proof (setattrs_identity r r' upd Es) as Hid.
  destruct (report_at_sound _ _ _ Hr) as [Hrid _].
  assert (Hid' : WalkReport.id r' = report_id) by (destruct Hid; congruence).
  split; [exact Hid|]. unfold report_at, replace_report.
  cbn [with_walk_reports walk_reports]. split; [|split].
  - rewrite (find_by_key_replace WalkReport.id), Hid', String.eqb_refl.
    fold (report_at (store s) report_id). now rewrite Hr.
  - intros other Hne.
    rewrite (find_by_key_replace WalkReport.id), Hid'.
    apply not_eq_sym, String.eqb_neq in Hne. now rewrite Hne.
  - apply (keys_of_replace WalkReport.id).
Qed.

Lemma update_walk_report_keeps_identity_witness :
  exists r' : WalkReport.t,
    response (update_walk_report "r1" retitle alice)
      (mkSession one_report_store []) = inr r'
    /\ WalkReport.author_user_id r' = WalkReport.author_user_id alice_report
    /\ WalkReport.title r' = "Dawn walk".
Proof.
  eexists. split; [reflexivity|].
  split; [|reflexivity].
  apply (update_walk_report_keeps_identity (mkSession one_report_store [])
           alice "r1" retitle alice_report); reflexivity.
Defined.

(** X4.  [update_walk_report] is idempotent: the same patch sent again to
    the store the first update left is answered with the same row and
    leaves that store as it is. *)
Theorem update_walk_report_idempotent
  (s : Session) (u : User.t) (report_id : string)
  (upd : WalkReportUpdate.t) (r r' : WalkReport.t) (log : list Call) :
  report_at (store s) report_id = Some r ->
  response (update_walk_report report_id upd u) s = inr r' ->
  let s' :=
    mkSession (store_after (update_walk_report report_id upd u) s) log in
  response (update_walk_report report_id upd u) s' = inr r'
  /\ store_after (update_walk_report report_id upd u) s' = store s'.
Proof.
  intros Hr Hresp s'.
  pose proof (update_walk_report_outcome report_id upd u s) as H.
  rewrite Hr, Hresp in H.
  destruct (String.eqb (WalkReport.author_user_id r) (User.id u)) eqn:Ea;
    [|discriminate H].
  destruct (setattrs r upd) as [r1|] eqn:Es; [|discriminate H].
  injection H as <- Hstore.
  pose proof (setattrs_identity r r' upd Es) as (Hid & _ & Hauthor & _).
  destruct (report_at_sound _ _ _ Hr) as [Hrid _].
  assert (Hr' : report_at (store s') report_id = Some r').
  { unfold s'. cbn [store]. rewrite Hstore. unfold report_at, replace_report.
    cbn [with_walk_reports walk_reports].
    rewrite (find_by_key_replace WalkReport.id), Hid, Hrid, String.eqb_refl.
    fold (report_at (store s) report_id). now rewrite Hr. }
  pose proof (update_walk_report_outcome report_id upd u s') as H'.
  rewrite Hr', Hauthor, Ea, (setattrs_again r r' upd Es) in H'.
  injection H' as -> ->. split; [reflexivity|].
  unfold s'. cbn [store]. rewrite Hstore. unfold with_walk_reports.
  cbn [walk_reports dogs owners walk_events walk_participants
       health_records certificates].
  unfold replace_report. now rewrite (replace_twice WalkReport.id).
Qed.

Lemma update_walk_report_idempotent_witness :
  response (update_walk_report "r1" retitle alice)
    (mkSession
       (store_after (update_walk_report "r1" retitle alice)
          (mkSession one_report_store [])) [])
  = response (update_walk_report "r1" retitle alice)
      (mkSession one_report_store []).
Proof.
  apply (update_walk_report_idempotent (mkSession one_report_store [])
           alice "r1" retitle alice_report _ []); reflexivity.
Defined.

(** X5.  After a permitted [delete_walk_report] the id finds nothing: a read
    or a second delete of it is answered 404 for every caller, and every
    other id finds what it found before. *)
Theorem delete_walk_report_then_gone
  (s : Session) (u : User.t) (report_id : string) (r : WalkReport.t) :
  report_at (store s) report_id = Some r ->
  WalkReport.author_user_id r = User.id u \/ elevated u ->
  let d' := store_after (delete_walk_report report_id u) s in
  report_at d' report_id = None
  /\ (forall v log,
        not_found (response (get_walk_report report_id v) (mkSession d' log))
        = true
        /\ not_found (response (delete_walk_report report_id v)
                        (mkSession d' log)) = true)
  /\ (forall other, other <> report_id ->
        report_at d' other = report_at (store s) other).
Proof.
  intros Hr Hallowed d'.
  pose proof (delete_walk_report_outcome report_id u s) as H.
  rewrite Hr in H.
  assert (Hgate : negb (String.eqb (WalkReport.author_user_id r) (User.id u))
                  && negb (role_in (User.role u) [ADMIN; SUPER_ADMIN])
                  = false).
  { destruct Hallowed as [Ha|He].
    - now rewrite Ha, String.eqb_refl.
    - apply role_in_admins in He. rewrite He. apply andb_false_r. }
  rewrite Hgate in H. injection H as _ Hstore. fold d' in Hstore.
  destruct (report_at_sound _ _ _ Hr) as [Hrid _].
  assert (Hgone : report_at d' report_id = None).
  { rewrite Hstore. unfold report_at, remove_report.
    cbn [with_walk_reports walk_reports].
    now rewrite (find_by_key_remove WalkReport.id), Hrid, String.eqb_refl. }
  split; [exact Hgone|]. split.
  - intros v log.
    destruct (missing_report_not_found d' report_id v log Hgone)
      as (Hget & Hdel & _).
    now split.
  - intros other Hne. rewrite Hstore. unfold report_at, remove_report.
    cbn [with_walk_reports walk_reports].
    rewrite (find_by_key_remove WalkReport.id), Hrid.
    apply not_eq_sym, String.eqb_neq in Hne. now rewrite Hne.
Qed.

Lemma delete_walk_report_then_gone_witness :
  report_at (store_after (delete_walk_report "r1" root_admin)
               (mkSession two_private_store [])) "r1" = None
  /\ report_at (store_after (delete_walk_report "r1" root_admin)
                  (mkSession two_private_store [])) "r2" = Some dave_private.
Proof.
  destruct (delete_walk_report_then_gone (mkSession two_private_store [])
              root_admin "r1" alice_report) as (Hgone & _ & Hother).
  - reflexivity.
  - right. left. reflexivity.
  - split; [exact Hgone|]. rewrite Hother; [reflexivity|discriminate].
Defined.

(** X6.  The three writes keep the ids of the walk reports unique: whatever
    the request and its outcome, a table without two rows of one id is left
    without two rows of one id. *)
Theorem walk_report_ids_stay_unique (s : Session) :
  NoDup (map WalkReport.id (walk_reports (store s))) ->
  (forall uuid now rc u,
     NoDup (map WalkReport.id
              (walk_reports
                 (store_after (create_walk_report uuid now rc u) s))))
  /\ (forall report_id upd u,
        NoDup (map WalkReport.id
                 (walk_reports
                    (store_after (update_walk_report report_id upd u) s))))
  /\ (forall report_id u,
        NoDup (map WalkReport.id
                 (walk_reports
                    (store_after (delete_walk_report report_id u) s)))).
Proof.
  intros Hnd. split; [|split].
  - intros uuid now rc u.
    pose proof (create_walk_report_outcome uuid now rc u s) as H.
    cbv zeta in H.
    destruct (event_at (store s) (WalkReportCreate.walk_event_id rc));
      [destruct (create_verdict _ _ _);
       [destruct (report_at (store s) uuid) eqn:Er|]|];
      injection H as _ ->; try exact Hnd.
    cbn [with_walk_reports walk_reports].
    apply (keys_unique_append WalkReport.id); [exact Hnd|].
    apply (existsb_find_none WalkReport.id). exact Er.
  - intros report_id upd u.
    pose proof (update_walk_report_outcome report_id upd u s) as H.
    destruct (report_at (store s) report_id) as [r|];
      [destruct (String.eqb _ _); [destruct (setattrs r upd)|]|];
      injection H as _ ->; try exact Hnd.
    cbn [with_walk_reports walk_reports]. unfold replace_report.
    now rewrite (keys_of_replace WalkReport.id).
  - intros report_id u.
    pose proof (delete_walk_report_outcome report_id u s) as H.
    destruct (report_at (store s) report_id) as [r|];
      [destruct (negb _ && negb _)|];
      injection H as _ ->; try exact Hnd.
    cbn [with_walk_reports walk_reports]. unfold remove_report.
    now apply (keys_unique_remove WalkReport.id).
Qed.

Lemma walk_report_ids_stay_unique_witness :
  NoDup (map WalkReport.id
           (walk_reports
              (store_after (delete_walk_report "r1" root_admin)
                 (mkSession two_private_store [])))).
Proof.
  apply (walk_report_ids_stay_unique (mkSession two_private_store [])).
  cbn. repeat constructor; cbn; intuition discriminate.
Defined.

End WalkReportWrites.

(** * Walk reports: what the lists show *)

Section WalkReportLists.

Import walk_reports.

Lemma listed_unfiltered (u : User.t) (r : WalkReport.t) :
  listed u None None r = _can_view_report u r.
Proof.
  unfold listed, event_filter, status_is, visible_or_mine, _can_view_report.
  cbn [andb].
  destruct (role_in (User.role u) [ADMIN; SUPER_ADMIN]),
           (ReportStatus_eqb (WalkReport.status r) PUBLIC),
           (String.eqb (WalkReport.author_user_id r) (User.id u));
    reflexivity.
Qed.

Lemma list_walk_reports_invalid (u : User.t) (walk_event_id : option string)
  (status_filter : option ReportStatus) (page size : Z) (s : Session) :
  (1 <=? page) && ((1 <=? size) && (size <=? 100)) = false ->
  list_walk_reports u walk_event_id status_filter page size s
  = (inl RequestValidationError, s).
Proof.
  intros Hv. unfold list_walk_reports, validate.
  destruct (1 <=? page); [|reflexivity].
  cbn [andb] in Hv. rewrite Hv. reflexivity.
Qed.

Lemma valid_page_size (page size : Z) :
  (1 <=? page) && ((1 <=? size) && (size <=? 100)) = true
  <-> 1 <= page /\ 1 <= size <= 100.
Proof. rewrite !andb_true_iff, !Z.leb_le. tauto. Qed.

Lemma report_order_antisym (x y : WalkReport.t) :
  report_order x y = CompOpp (report_order y x).
Proof. rewrite !report_order_unfold. apply Z.compare_antisym. Qed.

Lemma report_order_trans (x y z : WalkReport.t) :
  report_order x y = Lt -> report_order y z = Lt -> report_order x z = Lt.
Proof. rewrite !report_order_unfold, !Z.compare_lt_iff. lia. Qed.

Lemma report_order_key (x y : WalkReport.t) :
  report_order x y = Eq -> WalkReport.created_at x = WalkReport.created_at y.
Proof. rewrite report_order_unfold, Z.compare_eq_iff. congruence. Qed.

(** Reports created at different times come in one order, whatever the
    order in which the scan met them. *)
Lemma report_order_scan_independent (l1 l2 : list WalkReport.t) :
  NoDup (map WalkReport.created_at l1) -> Permutation l1 l2 ->
  sort_rows report_order l1 = sort_rows report_order l2.
Proof.
  intros Hnd Hperm.
  apply (sorted_rows_unique report_order report_order_antisym).
  - apply (sort_rows_sorted report_order WalkReport.created_at
             report_order_antisym report_order_trans report_order_key).
    exact Hnd.
  - apply (sort_rows_sorted report_order WalkReport.created_at
             report_order_antisym report_order_trans report_order_key).
    exact (Permutation_NoDup
             (Permutation_map WalkReport.created_at Hperm) Hnd).
  - now rewrite <- !sort_rows_perm.
Qed.

Lemma report_order_strict (l : list WalkReport.t) :
  NoDup (map WalkReport.created_at l) ->
  StronglySorted
    (fun a b => WalkReport.created_at b < WalkReport.created_at a)
    (sort_rows report_order l).
Proof.
  intros Hnd.
  pose proof (sort_rows_sorted report_order WalkReport.created_at
                report_order_antisym report_order_trans report_order_key
                l Hnd) as Hsorted.
  eapply StronglySorted_ind with (P := StronglySorted _); [| |exact Hsorted].
  - constructor.
  - intros a l' _ IH Ha. constructor; [exact IH|].
    rewrite Forall_forall in *. intros b Hb. specialize (Ha b Hb).
    unfold comes_before in Ha. rewrite report_order_unfold in Ha.
    now apply Z.compare_lt_iff in Ha.
Qed.

(** When the reports a request selects were created at different times,
    [list_walk_reports] answers the same whatever the order in which the
    store scans the table. *)
Lemma list_walk_reports_rescan (u : User.t) (walk_event_id : option string)
  (status_filter : option ReportStatus) (page size : Z) (s s' : Session) :
  NoDup (map WalkReport.created_at
           (filter (listed u walk_event_id status_filter)
              (walk_reports (store s)))) ->
  same_reports s s' ->
  response (list_walk_reports u walk_event_id status_filter page size) s'
  = response (list_walk_reports u walk_event_id status_filter page size) s.
Proof.
  intros Hnd Hperm. rewrite !list_walk_reports_outcome.
  destruct ((1 <=? page) && ((1 <=? size) && (size <=? 100)));
    [|reflexivity].
  destruct ((page - 1) * size <=? int64_max); [|reflexivity].
  pose proof (Permutation_filter_rows (listed u walk_event_id status_filter)
                _ _ Hperm) as Hsel.
  unfold reports_page. fold report_order.
  rewrite <- (report_order_scan_independent _ _ Hnd Hsel).
  now rewrite <- (Permutation_length Hsel).
Qed.

(** The pages [1 .. pages] have offsets below [total]. *)
Lemma page_count_offset (total size page : Z) :
  0 < size -> 1 <= page <= page_count total size ->
  page = 1 \/ (page - 1) * size < total.
Proof.
  intros Hs Hp. unfold page_count in Hp.
  destruct (0 <? total) eqn:E; [|left; lia].
  pose proof (math_ceil_div_bounds total size Hs) as Hb.
  right. nia.
Qed.

(** ** C5 *)

(** C5.  A principal that is not elevated lists walk reports with a status
    filter.  The handler answers a page for every valid [page] and [size]
    whose offset the driver can bind.
    On every page it answers, the rows counted and returned are those that
    meet the visibility disjunction (status [PUBLIC] or own) and the
    requested status together (and the event filter when given): [total]
    counts them, every returned row meets them, and a first page that has
    room for [total] rows holds exactly them.  When no two of them were
    created at the same time, each of them is on one of the pages
    [1 .. pages], whatever the order in which the fetch of that page scans
    the table.  With [status=PRIVATE] every returned row is the caller's
    own private report, and [total] is the number of those. *)
Theorem list_walk_reports_status_filter_conjunction
  (s : Session) (u : User.t) (walk_event_id : option string)
  (st : ReportStatus) (page size : Z) :
  ~ elevated u -> 1 <= page -> 1 <= size <= 100 ->
  let matching :=
    filter (fun r => event_filter walk_event_id r
                     && (visible_or_mine u r
                         && ReportStatus_eqb (WalkReport.status r) st))
      (walk_reports (store s)) in
  ((page - 1) * size <= int64_max ->
   exists resp : ListResponse WalkReport.t,
     response (list_walk_reports u walk_event_id (Some st) page size) s
     = inr resp)
  /\ forall resp : ListResponse WalkReport.t,
       response (list_walk_reports u walk_event_id (Some st) page size) s
       = inr resp ->
       total resp = Z.of_nat (length matching)
       /\ (forall r, In r (items resp) ->
             In r (walk_reports (store s))
             /\ event_filter walk_event_id r = true
             /\ (WalkReport.status r = PUBLIC
                 \/ WalkReport.author_user_id r = User.id u)
             /\ WalkReport.status r = st)
       /\ (page = 1 -> total resp <= size ->
           Permutation matching (items resp))
       /\ (NoDup (map WalkReport.created_at matching) ->
           total resp <= int64_max ->
           forall r, In r (walk_reports (store s)) ->
             event_filter walk_event_id r = true ->
             WalkReport.status r = PUBLIC
             \/ WalkReport.author_user_id r = User.id u ->
             WalkReport.status r = st ->
             exists page' : Z,
               1 <= page' <= pages resp
               /\ forall s' : Session,
                    same_reports s s' ->
                    In r (items_of
                            (response (list_walk_reports u walk_event_id
                                         (Some st) page' size) s')))
       /\ (st = PRIVATE ->
           (forall r, In r (items resp) ->
              WalkReport.author_user_id r = User.id u
              /\ WalkReport.status r = PRIVATE)
           /\ total resp
              = Z.of_nat (length (filter
                  (fun r => event_filter walk_event_id r
                            && (String.eqb (WalkReport.author_user_id r)
                                  (User.id u)
                                && ReportStatus_eqb (WalkReport.status r)
                                     PRIVATE))
                  (walk_reports (store s))))).
Proof.
  intros Hne Hp Hs matching.
  pose proof (not_elevated_role_in u Hne) as Hr.
  assert (Hlisted : filter (listed u walk_event_id (Some st))
                      (walk_reports (store s)) = matching).
  { apply filter_ext. intros r. unfold listed, status_is. now rewrite Hr. }
  assert (Hmatch : forall r, In r matching <->
            In r (walk_reports (store s))
            /\ event_filter walk_event_id r = true
            /\ (WalkReport.status r = PUBLIC
                \/ WalkReport.author_user_id r = User.id u)
            /\ WalkReport.status r = st).
  { intros r. unfold matching. rewrite filter_In.
    rewrite !andb_true_iff, visible_or_mine_iff, ReportStatus_eqb_eq.
    tauto. }
  split.
  - intros Hb. eexists. unfold response.
    now rewrite list_walk_reports_run by assumption.
  - intros resp Hresp.
    apply list_walk_reports_answered in Hresp as [_ ->].
    rewrite Hlisted. cbn [total items pages reports_page].
    assert (Hitems : forall r,
              In r (window (Some ((page - 1) * size)) (Some size)
                      (sort_rows (lexico [desc WalkReport.created_at])
                         matching)) ->
              In r matching).
    { intros r Hin. apply window_In in Hin. now apply sort_rows_In in Hin. }
    split; [reflexivity|]. split; [|split; [|split]].
    + intros r Hin. now apply Hmatch, Hitems.
    + intros -> Hfits. unfold window.
      destruct (Z.ltb_spec size 0) as [Hneg|_]; [lia|].
      replace ((1 - 1) * size) with 0 by lia. cbn [Z.to_nat skipn].
      rewrite firstn_all2; [apply sort_rows_perm|].
      rewrite sort_rows_length. lia.
    + intros Hnd Htotal r Hin He Hv Hst.
      assert (Hm : In r matching) by (apply Hmatch; tauto).
      destruct (reports_page_cover matching page size r ltac:(lia) Hm)
        as (page' & Hb & Hi).
      cbn [pages reports_page] in Hb.
      exists page'. split; [exact Hb|]. intros s' Hperm.
      rewrite (list_walk_reports_rescan u walk_event_id (Some st) page' size
                 s s') by (rewrite ?Hlisted; assumption).
      rewrite list_walk_reports_outcome, Hlisted.
      replace ((1 <=? page') && ((1 <=? size) && (size <=? 100))) with true
        by (symmetry; apply valid_page_size; lia).
      replace ((page' - 1) * size <=? int64_max) with true; [exact Hi|].
      symmetry. apply Z.leb_le.
      destruct (page_count_offset _ size page' ltac:(lia) Hb) as [->|Hlt];
        [unfold int64_max|]; lia.
    + intros ->. split.
      * intros r Hin. apply Hitems, Hmatch in Hin.
        destruct Hin as (_ & _ & [Hpub|Hme] & Hst); [congruence|tauto].
      * unfold matching. do 2 f_equal. apply filter_ext. intros r.
        unfold visible_or_mine.
        destruct (WalkReport.status r); cbn;
          rewrite ?andb_false_r, ?andb_true_r; reflexivity.
Qed.

Lemma list_walk_reports_status_filter_conjunction_witness :
  exists resp : ListResponse WalkReport.t,
    response (list_walk_reports alice None (Some PRIVATE) 1 10)
      (mkSession two_private_store []) = inr resp
    /\ map WalkReport.id (items resp) = ["r1"]
    /\ total resp = 1.
Proof.
  destruct (list_walk_reports_status_filter_conjunction
              (mkSession two_private_store []) alice None PRIVATE 1 10)
    as (Hpage & _).
  - unfold elevated. simpl. intros [E|E]; discriminate E.
  - lia.
  - lia.
  - destruct Hpage as (resp & Hresp); [unfold int64_max; lia|].
    exists resp. split; [exact Hresp|].
    vm_compute in Hresp. injection Hresp as <-. split; reflexivity.
Defined.

(** X7.  Without filters, a page of [list_walk_reports] shows a caller only
    stored reports that [_can_view_report] lets the caller view.  When no
    two of those reports were created at the same time, each of them is on
    one of the pages [1 .. pages], whatever the order in which the fetch
    of that page scans the table. *)
Theorem list_walk_reports_shows_what_get_allows
  (s : Session) (u : User.t) (size : Z) (r : WalkReport.t) :
  1 <= size <= 100 ->
  let viewable := filter (_can_view_report u) (walk_reports (store s)) in
  (forall page,
     In r (items_of (response (list_walk_reports u None None page size) s)) ->
     In r (walk_reports (store s)) /\ _can_view_report u r = true)
  /\ (NoDup (map WalkReport.created_at viewable) ->
      Z.of_nat (length viewable) <= int64_max ->
      In r (walk_reports (store s)) -> _can_view_report u r = true ->
      exists page : Z,
        1 <= page <= page_count (Z.of_nat (length viewable)) size
        /\ forall s' : Session,
             same_reports s s' ->
             In r (items_of (response (list_walk_reports u None None page
                                         size) s'))).
Proof.
  intros Hs viewable.
  assert (Hview : filter (listed u None None) (walk_reports (store s))
                  = viewable).
  { apply filter_ext. intros r'. apply listed_unfiltered. }
  split.
  - intros page Hitem. rewrite list_walk_reports_outcome, Hview in Hitem.
    destruct ((1 <=? page) && ((1 <=? size) && (size <=? 100)));
      [|contradiction].
    destruct ((page - 1) * size <=? int64_max); [|contradiction].
    cbn [items_of items reports_page] in Hitem.
    apply window_In, sort_rows_In in Hitem.
    now apply filter_In in Hitem.
  - intros Hnd Hlen Hin Hcan.
    assert (Hm : In r viewable) by (apply filter_In; now split).
    destruct (reports_page_cover viewable 1 size r ltac:(lia) Hm)
      as (page & Hp & Hitem).
    cbn [pages reports_page] in Hp.
    exists page. split; [exact Hp|]. intros s' Hperm.
    rewrite (list_walk_reports_rescan u None None page size s s')
      by (rewrite ?Hview; assumption).
    rewrite list_walk_reports_outcome, Hview.
    replace ((1 <=? page) && ((1 <=? size) && (size <=? 100))) with true
      by (symmetry; apply valid_page_size; lia).
    replace ((page - 1) * size <=? int64_max) with true; [exact Hitem|].
    symmetry. apply Z.leb_le.
    destruct (page_count_offset _ size page ltac:(lia) Hp) as [->|Hlt];
      [unfold int64_max|]; lia.
Qed.

Lemma list_walk_reports_shows_what_get_allows_witness :
  (exists page : Z,
     1 <= page <= 1
     /\ In alice_report
          (items_of (response (list_walk_reports alice None None page 10)
                       (mkSession two_private_rescanned []))))
  /\ ~ In dave_private
         (items_of (response (list_walk_reports alice None None 1 10)
                      (mkSession two_private_store []))).
Proof.
  destruct (list_walk_reports_shows_what_get_allows
              (mkSession two_private_store []) alice 10 alice_report
              ltac:(lia)) as [_ Hcover].
  destruct (list_walk_reports_shows_what_get_allows
              (mkSession two_private_store []) alice 10 dave_private
              ltac:(lia)) as [Honly _].
  split.
  - destruct Hcover as (page & Hp & Hitem).
    + cbn. repeat constructor. intros [].
    + cbn. unfold int64_max. lia.
    + now left.
    + reflexivity.
    + exists page. split; [exact Hp|]. apply Hitem.
      unfold same_reports. cbn. apply perm_swap.
  - intros Hitem. apply Honly in Hitem as [_ Hcan]. discriminate Hcan.
Defined.

(** X8.  For an event that exists, [list_event_reports] answers what
    [list_walk_reports] answers with that event as its filter and no status
    filter, for every caller, page and size (the event id is a path segment,
    never empty). *)
Theorem list_event_reports_is_event_filter
  (s : Session) (u : User.t) (event_id : string) (event : WalkEvent.t)
  (page size : Z) :
  event_at (store s) event_id = Some event ->
  event_id <> "" ->
  response (list_event_reports event_id u page size) s
  = response (list_walk_reports u (Some event_id) None page size) s.
Proof.
  intros He Hne. rewrite list_walk_reports_outcome.
  destruct ((1 <=? page) && ((1 <=? size) && (size <=? 100))) eqn:Hv.
  - apply valid_page_size in Hv as [Hp Hs].
    unfold response, list_event_reports, validate.
    replace (1 <=? page) with true by (symmetry; apply Z.leb_le; lia).
    replace ((1 <=? size) && (size <=? 100)) with true
      by (symmetry; apply andb_true_intro; split; apply Z.leb_le; lia).
    cbn [bind ret]. unfold bind. rewrite find_event_run, He.
    rewrite paginate_reports_run
      by (destruct (role_in (User.role u) [ADMIN; SUPER_ADMIN]); reflexivity).
    cbn [fst store]. rewrite int64_offset by lia.
    destruct ((page - 1) * size <=? int64_max); [|reflexivity].
    do 2 f_equal. apply filter_ext. intros r.
    unfold listed, event_filter, status_is, truthy.
    apply String.eqb_neq in Hne. rewrite Hne. cbn [negb].
    destruct (role_in (User.role u) [ADMIN; SUPER_ADMIN]); cbn;
      rewrite ?andb_true_r; reflexivity.
  - unfold response, list_event_reports, validate.
    destruct (1 <=? page); [|reflexivity].
    cbn [andb] in Hv. rewrite Hv. reflexivity.
Qed.

Lemma list_event_reports_is_event_filter_witness :
  response (list_event_reports "e1" alice 1 10)
    (mkSession two_private_store [])
  = response (list_walk_reports alice (Some "e1") None 1 10)
      (mkSession two_private_store []).
Proof.
  apply (list_event_reports_is_event_filter (mkSession two_private_store [])
           alice "e1" (WalkEvent.mk "e1" "u-carol") 1 10).
  - reflexivity.
  - discriminate.
Defined.

Lemma firstn_plus {R : Type} (a b : nat) (l : list R) :
  firstn (a + b) l = (firstn a l ++ firstn b (skipn a l))%list.
Proof.
  revert l. induction a as [|a IH]; intros l; [reflexivity|].
  destruct l as [|x l]; cbn [Nat.add firstn skipn app].
  - now rewrite firstn_nil.
  - now rewrite IH.
Qed.

(** The windows of pages [1 .. n] laid end to end are the first [n * size]
    rows. *)
Lemma windows_concat {R : Type} (size : Z) (l : list R) (n : nat) :
  0 < size ->
  flat_map (fun p => window (Some ((Z.of_nat p - 1) * size)) (Some size) l)
    (seq 1 n)
  = firstn (n * Z.to_nat size) l.
Proof.
  intros Hs. induction n as [|n IH]; [reflexivity|].
  rewrite seq_S, flat_map_app, IH. cbn [flat_map]. rewrite app_nil_r.
  unfold window. destruct (Z.ltb_spec size 0) as [Hneg|_]; [lia|].
  replace (Z.to_nat ((Z.of_nat (1 + n) - 1) * size))
    with (n * Z.to_nat size)%nat by nia.
  replace (S n * Z.to_nat size)%nat
    with (n * Z.to_nat size + Z.to_nat size)%nat by lia.
  now rewrite firstn_plus.
Qed.

Lemma flat_map_ext_seq {R : Type} (f g : nat -> list R) (n : nat) :
  (forall p, In p (seq 1 n) -> f p = g p) ->
  flat_map f (seq 1 n) = flat_map g (seq 1 n).
Proof.
  intros Hfg. induction n as [|n IH]; [reflexivity|].
  rewrite seq_S in *. rewrite !flat_map_app, IH.
  - cbn [flat_map]. rewrite Hfg; [reflexivity|].
    apply in_or_app. right. now left.
  - intros p Hp. apply Hfg. apply in_or_app. now left.
Qed.

(** X9.  When the reports a request selects were created at different
    times, reading the pages [1 .. pages] of [list_walk_reports] in turn
    gives every selected report exactly once, whatever the order in which
    the fetch of each page scans the table: laid end to end, the pages are
    the rows of the table that meet the filters, newest first. *)
Theorem list_walk_reports_pages_partition
  (s : Session) (u : User.t) (walk_event_id : option string)
  (status_filter : option ReportStatus) (size : Z)
  (first_page : ListResponse WalkReport.t) (scan : nat -> Session) :
  let matching :=
    filter (listed u walk_event_id status_filter) (walk_reports (store s)) in
  NoDup (map WalkReport.created_at matching) ->
  total first_page <= int64_max ->
  response (list_walk_reports u walk_event_id status_filter 1 size) s
  = inr first_page ->
  (forall p : nat, same_reports s (scan p)) ->
  let all_pages :=
    flat_map
      (fun p => items_of (response (list_walk_reports u walk_event_id
                                      status_filter (Z.of_nat p) size)
                            (scan p)))
      (seq 1 (Z.to_nat (pages first_page))) in
  all_pages = sort_rows report_order matching
  /\ Permutation matching all_pages
  /\ Z.of_nat (length all_pages) = total first_page
  /\ StronglySorted
       (fun a b => WalkReport.created_at b < WalkReport.created_at a)
       all_pages.
Proof.
  intros matching Hnd Htotal Hfirst Hscan all_pages.
  apply list_walk_reports_answered in Hfirst as [(_ & Hs & _) ->].
  fold matching in all_pages, Htotal |- *.
  cbn [total pages reports_page] in *.
  assert (Hall : all_pages = sort_rows report_order matching).
  { unfold all_pages.
    rewrite (flat_map_ext_seq _
               (fun p => window (Some ((Z.of_nat p - 1) * size)) (Some size)
                           (sort_rows report_order matching))).
    - rewrite windows_concat by lia. apply firstn_all2.
      rewrite sort_rows_length. unfold page_count.
      destruct (0 <? Z.of_nat (length matching)) eqn:E.
      + pose proof (math_ceil_div_bounds (Z.of_nat (length matching)) size
                      ltac:(lia)) as Hb.
        nia.
      + apply Z.ltb_ge in E. lia.
    - intros p Hp. apply in_seq in Hp.
      rewrite (list_walk_reports_rescan u walk_event_id status_filter
                 (Z.of_nat p) size s (scan p) Hnd (Hscan p)).
      rewrite list_walk_reports_outcome. fold matching.
      replace ((1 <=? Z.of_nat p) && ((1 <=? size) && (size <=? 100)))
        with true by (symmetry; apply valid_page_size; lia).
      replace ((Z.of_nat p - 1) * size <=? int64_max) with true;
        [reflexivity|].
      symmetry. apply Z.leb_le.
      destruct (page_count_offset (Z.of_nat (length matching)) size
                  (Z.of_nat p) ltac:(lia) ltac:(lia)) as [->|Hlt];
        [unfold int64_max|]; lia. }
  rewrite Hall. split; [reflexivity|]. split; [apply sort_rows_perm|].
  split; [now rewrite sort_rows_length|].
  now apply report_order_strict.
Qed.

Lemma list_walk_reports_pages_partition_witness :
  flat_map
    (fun p => items_of (response (list_walk_reports root_admin None None
                                    (Z.of_nat p) 1)
                          (mkSession (if Nat.eqb p 1 then two_private_store
                                      else two_private_rescanned) [])))
    (seq 1 2)
  = [dave_private; alice_report].
Proof.
  destruct (list_walk_reports_pages_partition
              (mkSession two_private_store []) root_admin None None 1
              (mkListResponse [dave_private] 2 1 1 2)
              (fun p => mkSession (if Nat.eqb p 1 then two_private_store
                                   else two_private_rescanned) []))
    as (Hall & _).
  - cbn. repeat constructor; cbn; intuition discriminate.
  - cbn. unfold int64_max. lia.
  - reflexivity.
  - intros p. unfold same_reports. destruct (Nat.eqb p 1); cbn.
    + reflexivity.
    + apply perm_swap.
  - exact Hall.
Defined.

Lemma StronglySorted_skipn {R : Type} (rel : R -> R -> Prop) (n : nat)
  (l : list R) :
  StronglySorted rel l -> StronglySorted rel (skipn n l).
Proof.
  revert l. induction n as [|n IH]; intros l Hs; [exact Hs|].
  destruct l as [|x l]; [constructor|].
  apply StronglySorted_inv in Hs as [Hs _]. now apply IH.
Qed.

Lemma StronglySorted_firstn {R : Type} (rel : R -> R -> Prop) (n : nat)
  (l : list R) :
  StronglySorted rel l -> StronglySorted rel (firstn n l).
Proof.
  revert l. induction n as [|n IH]; intros l Hs; [constructor|].
  destruct l as [|x l]; [constructor|].
  apply StronglySorted_inv in Hs as [Hs Hx]. cbn [firstn].
  constructor; [now apply IH|].
  rewrite Forall_forall in *. intros y Hy. apply Hx.
  now apply In_firstn_l in Hy.
Qed.

(** X10.  A page of [list_walk_reports] holds at most [size] reports, all of
    them rows of the table, newest first: no report stands before one
    created later. *)
Theorem list_walk_reports_page_sorted
  (s : Session) (u : User.t) (walk_event_id : option string)
  (status_filter : option ReportStatus) (page size : Z)
  (resp : ListResponse WalkReport.t) :
  response (list_walk_reports u walk_event_id status_filter page size) s
  = inr resp ->
  Z.of_nat (length (items resp)) <= size
  /\ Z.of_nat (length (items resp)) <= total resp
  /\ (forall r, In r (items resp) -> In r (walk_reports (store s)))
  /\ StronglySorted
       (fun a b => WalkReport.created_at b <= WalkReport.created_at a)
       (items resp).
Proof.
  intros Hresp.
  apply list_walk_reports_answered in Hresp as [(Hp & Hs & _) ->].
  cbn [items total reports_page].
  set (matching := filter (listed u walk_event_id status_filter)
                     (walk_reports (store s))).
  split; [|split; [|split]].
  - rewrite window_length by nia. lia.
  - rewrite window_length by nia. rewrite sort_rows_length. nia.
  - intros r Hin. apply window_In, sort_rows_In in Hin.
    now apply filter_In in Hin as [Hin _].
  - unfold window. destruct (Z.ltb_spec size 0) as [Hneg|_]; [lia|].
    apply StronglySorted_firstn, StronglySorted_skipn.
    destruct (report_order_answers matching) as [_ Hsorted].
    eapply StronglySorted_ind with (P := StronglySorted _); [| |exact Hsorted].
    + constructor.
    + intros a l _ IH Ha. constructor; [exact IH|].
      rewrite Forall_forall in *. intros b Hb. specialize (Ha b Hb).
      rewrite report_order_unfold in Ha.
      apply Z.compare_le_iff in Ha. exact Ha.
Qed.

Lemma list_walk_reports_page_sorted_witness :
  StronglySorted
    (fun a b => WalkReport.created_at b <= WalkReport.created_at a)
    [dave_private; alice_report].
Proof.
  apply (list_walk_reports_page_sorted (mkSession two_private_store [])
           root_admin None None 1 10
           (mkListResponse [dave_private; alice_report] 2 1 10 1)).
  reflexivity.
Defined.

End WalkReportLists.

(** * Reads leave the store alone *)

Section ReadOnly.

Import walk_reports health_records.

Lemma read_only_ret {A : Type} (a : A) : read_only (ret a).
Proof. intros s. reflexivity. Qed.

Lemma read_only_fail {A : Type} (e : Failure) : read_only (@fail A e).
Proof. intros s. reflexivity. Qed.

Lemma read_only_raise {A : Type} (code : Z) (msg : string) :
  read_only (@raise A code msg).
Proof. intros s. reflexivity. Qed.

Lemma read_only_validate (ok : bool) : read_only (validate ok).
Proof. destruct ok; intros s; reflexivity. Qed.

Lemma read_only_bind {A B : Type} (m : M A) (k : A -> M B) :
  read_only m -> (forall a, read_only (k a)) -> read_only (bind m k).
Proof.
  intros Hm Hk s. unfold store_after, bind.
  specialize (Hm s). unfold store_after in Hm.
  destruct (m s) as [[e|a] s']; cbn [snd] in *; [exact Hm|].
  rewrite <- Hm. apply Hk.
Qed.

Lemma read_only_first {R : Type} `{Model R} (q : Query R) :
  read_only (first q).
Proof. intros s. reflexivity. Qed.

Lemma read_only_all {R : Type} `{Model R} (q : Query R) : read_only (all q).
Proof.
  intros s. unfold store_after, all, bind, log_stmt.
  now destruct (bindable (q_offset q) && bindable (q_limit q)).
Qed.

Lemma read_only_count {R : Type} `{Model R} (q : Query R) :
  read_only (count q).
Proof. intros s. reflexivity. Qed.

Ltac read_only_step :=
  first
    [ apply read_only_ret | apply read_only_fail | apply read_only_raise
    | apply read_only_validate | apply read_only_first | apply read_only_all
    | apply read_only_count
    | apply read_only_bind; [|intros ?]
    | match goal with
      | |- read_only (match ?x with _ => _ end) => destruct x
      | |- read_only (if ?b then _ else _) => destruct b
      end ].

Lemma read_only_get_user_dogs (u : User.t) : read_only (get_user_dogs u).
Proof. unfold get_user_dogs. repeat read_only_step. Qed.

Lemma read_only_check_dog_access (u : User.t) (dog_id : string) :
  read_only (check_dog_access u dog_id).
Proof.
  unfold check_dog_access.
  apply read_only_bind; [apply read_only_get_user_dogs|].
  intros ?. apply read_only_ret.
Qed.

Lemma read_only_can_create_report (u : User.t) (event_id : string) :
  read_only (_can_create_report u event_id).
Proof. unfold _can_create_report. repeat read_only_step. Qed.

Lemma read_only_paginate_reports (q : Query WalkReport.t) (page size : Z) :
  read_only (paginate_reports q page size).
Proof. unfold paginate_reports. repeat read_only_step. Qed.

(** X11.  The read routes never write: whatever the caller, the filters and
    the outcome (a page, a row, 403, 404 or a rejected parameter), the
    lists and single reads of walk reports, health records and certificates
    leave every table as it was. *)
Theorem reads_leave_the_store {ops : StoreOps} :
  (forall u walk_event_id status_filter page size,
     read_only (list_walk_reports u walk_event_id status_filter page size))
  /\ (forall event_id u page size,
        read_only (list_event_reports event_id u page size))
  /\ (forall report_id u, read_only (get_walk_report report_id u))
  /\ (forall u dog_id date_from date_to page size,
        read_only (list_health_records u dog_id date_from date_to page size))
  /\ (forall record_id u, read_only (get_health_record record_id u))
  /\ (forall skip limit_ dog_id cert_type issuer expires_after expires_before
             u,
        read_only (certificates.get_certificates skip limit_ dog_id cert_type
                     issuer expires_after expires_before u))
  /\ (forall certificate_id u,
        read_only (certificates.get_certificate certificate_id u))
  /\ (forall dog_id,
        read_only (certificate_service.get_certificates_by_dog_id dog_id))
  /\ (forall today today' days_ahead,
        read_only (certificate_service.get_expiring_certificates
                     today today' days_ahead)).
Proof.
  repeat match goal with |- _ /\ _ => split end; intros.
  - unfold list_walk_reports.
    do 2 (apply read_only_bind; [apply read_only_validate|intros ?]).
    apply read_only_paginate_reports.
  - unfold list_event_reports.
    do 2 (apply read_only_bind; [apply read_only_validate|intros ?]).
    apply read_only_bind; [apply read_only_first|intros [?|]].
    + apply read_only_paginate_reports.
    + apply read_only_raise.
  - unfold get_walk_report, find_report. repeat read_only_step.
  - unfold list_health_records, scope_to_own_dogs.
    repeat first [ apply read_only_get_user_dogs
                 | apply read_only_check_dog_access
                 | read_only_step ].
  - unfold get_health_record.
    repeat first [ apply read_only_check_dog_access | read_only_step ].
  - unfold certificates.get_certificates,
      certificate_service.get_certificates.
    repeat read_only_step.
  - unfold certificates.get_certificate,
      certificate_service.get_certificate.
    repeat read_only_step.
  - unfold certificate_service.get_certificates_by_dog_id.
    repeat read_only_step.
  - unfold certificate_service.get_expiring_certificates.
    repeat read_only_step.
Qed.

End ReadOnly.

(** * Health records: scope, dates and round trips *)

Section HealthRecordScope.

Import health_records.

Lemma find_by_key_complete {R : Type} (key : R -> string) (l : list R)
  (x : R) :
  NoDup (map key l) -> In x l ->
  find (fun y => String.eqb (key y) (key x)) l = Some x.
Proof.
  induction l as [|y l IH]; intros Hnd Hin; [contradiction|].
  cbn [map] in Hnd. apply NoDup_cons_iff in Hnd as [Hy Hnd].
  cbn [find]. destruct Hin as [->|Hin].
  - now rewrite String.eqb_refl.
  - destruct (String.eqb_spec (key y) (key x)) as [E|_]; [|now apply IH].
    exfalso. apply Hy. rewrite E. now apply in_map.
Qed.

Lemma in_scope_existsb (own : list Dog.t) (r : HealthRecord.t) :
  in_ (map Dog.id own) r
  = existsb (fun d => String.eqb (Dog.id d) (HealthRecord.dog_id r)) own.
Proof.
  unfold in_. induction own as [|d own IH]; [reflexivity|].
  cbn [map existsb]. now rewrite IH, String.eqb_sym.
Qed.

Lemma check_dog_access_response (u : User.t) (dog_id : string)
  (s : Session) :
  response (check_dog_access u dog_id) s
  = inr (existsb (fun d => String.eqb (Dog.id d) dog_id)
           (user_dogs (store s) u)).
Proof. unfold response. now rewrite check_dog_access_run. Qed.

(** For a regular user the dogs of [get_user_dogs] are the dogs the user's
    Owner row owns. *)
Lemma regular_access_iff_owns (d : Db) (u : User.t) (dog_id : string) :
  User.role u = USER ->
  existsb (fun dog => String.eqb (Dog.id dog) dog_id) (user_dogs d u) = true
  <-> owns d u dog_id.
Proof.
  intros Hrole. unfold user_dogs, owns. rewrite Hrole.
  cbn [role_in existsb UserRole_eqb orb].
  destruct (find (owner_of u) (owners d)) as [o|].
  - rewrite existsb_exists. split.
    + intros (dog & Hin & Hid). apply filter_In in Hin as [Hin Ho].
      apply String.eqb_eq in Hid, Ho. now exists o, dog.
    + intros (o' & dog & [= <-] & Hin & Hid & Ho). exists dog. split.
      * apply filter_In. split; [exact Hin|]. now apply String.eqb_eq.
      * now apply String.eqb_eq.
  - split; [discriminate|]. intros (o & dog & Hf & _). discriminate Hf.
Qed.

Lemma list_health_records_invalid (u : User.t) (dog_id : option string)
  (date_from date_to : option Z) (page size : Z) (s : Session) :
  (1 <=? page) && ((1 <=? size) && (size <=? 100)) = false ->
  list_health_records u dog_id date_from date_to page size s
  = (inl RequestValidationError, s).
Proof.
  intros Hv. unfold list_health_records, validate.
  destruct (1 <=? page); [|reflexivity].
  cbn [andb] in Hv. rewrite Hv. reflexivity.
Qed.

(** What every row of a page of health records has met. *)
Lemma listed_health_record_facts (s : Session) (u : User.t)
  (dog_id : option string) (date_from date_to : option Z) (page size : Z)
  (resp : ListResponse HealthRecord.t) (r : HealthRecord.t) :
  response (list_health_records u dog_id date_from date_to page size) s
  = inr resp ->
  In r (items resp) ->
  In r (health_records (store s))
  /\ (User.role u = USER ->
      existsb (fun d => String.eqb (Dog.id d) (HealthRecord.dog_id r))
        (user_dogs (store s) u) = true)
  /\ date_window date_from date_to r = true
  /\ (forall dog, dog_id = Some dog -> dog <> "" ->
        HealthRecord.dog_id r = dog).
Proof.
  intros Hresp Hin.
  destruct ((1 <=? page) && ((1 <=? size) && (size <=? 100))) eqn:Hv.
  2:{ unfold response in Hresp.
      rewrite list_health_records_invalid in Hresp by assumption.
      discriminate Hresp. }
  apply valid_page_size in Hv as [Hp Hs].
  rewrite list_health_records_run in Hresp by assumption.
  unfold health_plan in Hresp. cbv zeta in Hresp.
  remember (user_dogs (store s) u) as own eqn:Hown.
  assert (Hpage : forall p : HealthRecord.t -> bool,
            (if (page - 1) * size <=? int64_max
             then inr (records_page (filter p (health_records (store s)))
                         page size)
             else inl OverflowError) = @inr Failure _ resp ->
            In r (health_records (store s)) /\ p r = true).
  { intros p Hr.
    destruct ((page - 1) * size <=? int64_max); [|discriminate Hr].
    injection Hr as <-. cbn [items records_page] in Hin.
    apply window_In, sort_rows_In in Hin. now apply filter_In in Hin. }
  assert (Htruthy : forall dog, truthy dog = false -> dog <> "" -> False).
  { intros dog Ht Hne. unfold truthy in Ht.
    apply String.eqb_neq in Hne. rewrite Hne in Ht. discriminate Ht. }
  destruct (UserRole_eqb (User.role u) USER) eqn:Hreg; cbn [andb] in Hresp.
  - assert (Hempty : own = []
                     \/ match own with [] => true | _ :: _ => false end
                        = false)
      by (destruct own; auto).
    destruct Hempty as [E|E]; rewrite E in Hresp.
    { injection Hresp as <-. contradiction Hin. }
    destruct dog_id as [dog|]; [destruct (truthy dog) eqn:Ht|].
    + destruct (existsb _ own); cbn [negb] in Hresp; [|discriminate Hresp].
      destruct (Hpage _ Hresp) as [Hrow Hp'].
      apply andb_prop in Hp' as [Hp' Hdates].
      apply andb_prop in Hp' as [Hscope Hdog].
      rewrite in_scope_existsb in Hscope. apply String.eqb_eq in Hdog.
      split; [exact Hrow|]. split; [intros _; exact Hscope|].
      split; [exact Hdates|]. intros dog' [= <-] _. exact Hdog.
    + destruct (Hpage _ Hresp) as [Hrow Hp'].
      apply andb_prop in Hp' as [Hscope Hdates].
      rewrite in_scope_existsb in Hscope.
      split; [exact Hrow|]. split; [intros _; exact Hscope|].
      split; [exact Hdates|]. intros dog' [= <-] Hne.
      destruct (Htruthy _ Ht Hne).
    + destruct (Hpage _ Hresp) as [Hrow Hp'].
      apply andb_prop in Hp' as [Hscope Hdates].
      rewrite in_scope_existsb in Hscope.
      split; [exact Hrow|]. split; [intros _; exact Hscope|].
      split; [exact Hdates|]. discriminate.
  - assert (Hnot : User.role u = USER -> False).
    { intros E. rewrite E in Hreg. discriminate Hreg. }
    destruct dog_id as [dog|]; [destruct (truthy dog) eqn:Ht|].
    + destruct (Hpage _ Hresp) as [Hrow Hp'].
      apply andb_prop in Hp' as [Hdog Hdates]. apply String.eqb_eq in Hdog.
      split; [exact Hrow|]. split; [intros E; destruct (Hnot E)|].
      split; [exact Hdates|]. intros dog' [= <-] _. exact Hdog.
    + destruct (Hpage _ Hresp) as [Hrow Hdates].
      split; [exact Hrow|]. split; [intros E; destruct (Hnot E)|].
      split; [exact Hdates|]. intros dog' [= <-] Hne.
      destruct (Htruthy _ Ht Hne).
    + destruct (Hpage _ Hresp) as [Hrow Hdates].
      split; [exact Hrow|]. split; [intros E; destruct (Hnot E)|].
      split; [exact Hdates|]. discriminate.
Qed.

(** X12.  A regular user's page of health records holds only records of
    dogs the user's Owner row owns, within the requested dates (both bounds
    inclusive) and, when a dog is asked for, of that dog. *)
Theorem list_health_records_within_scope
  (s : Session) (u : User.t) (dog_id : option string)
  (date_from date_to : option Z) (page size : Z)
  (resp : ListResponse HealthRecord.t) (r : HealthRecord.t) :
  User.role u = USER ->
  response (list_health_records u dog_id date_from date_to page size) s
  = inr resp ->
  In r (items resp) ->
  In r (health_records (store s))
  /\ owns (store s) u (HealthRecord.dog_id r)
  /\ (forall a, date_from = Some a -> a <= HealthRecord.record_date r)
  /\ (forall b, date_to = Some b -> HealthRecord.record_date r <= b)
  /\ (forall dog, dog_id = Some dog -> dog <> "" ->
        HealthRecord.dog_id r = dog).
Proof.
  intros Hrole Hresp Hin.
  destruct (listed_health_record_facts s u dog_id date_from date_to page size
              resp r Hresp Hin) as (Hrow & Hscope & Hdates & Hdog).
  split; [exact Hrow|]. split.
  { apply regular_access_iff_owns; [exact Hrole|]. now apply Hscope. }
  unfold date_window in Hdates. apply andb_prop in Hdates as [Hfrom Hto].
  split; [|split; [|exact Hdog]].
  - intros a ->. now apply Z.leb_le.
  - intros b ->. now apply Z.leb_le.
Qed.

Lemma list_health_records_within_scope_witness :
  owns two_checkups_store bob (HealthRecord.dog_id checkup_d1).
Proof.
  apply (list_health_records_within_scope (mkSession two_checkups_store [])
           bob None None None 1 10 (mkListResponse [checkup_d1] 1 1 10 1)
           checkup_d1).
  - reflexivity.
  - reflexivity.
  - now left.
Defined.

(** With [date_from] after [date_to] no record lies in the window. *)
Lemma inverted_window_page (p : HealthRecord.t -> bool) (a b page size : Z)
  (l : list HealthRecord.t) :
  b < a ->
  (forall r, p r = true -> date_window (Some a) (Some b) r = true) ->
  records_page (filter p l) page size = mkListResponse [] 0 page size 1.
Proof.
  intros Hba Hp.
  assert (E : filter p l = []).
  { induction l as [|r l IH]; [reflexivity|].
    cbn [filter]. destruct (p r) eqn:Epr; [|exact IH].
    apply Hp in Epr. unfold date_window in Epr.
    apply andb_prop in Epr as [H1 H2]. apply Z.leb_le in H1, H2. lia. }
  rewrite E. unfold records_page, window. cbn [length sort_rows fold_right].
  rewrite skipn_nil, firstn_nil. now destruct (size <? 0).
Qed.

(** X13.  A date range with [date_from] after [date_to] is not an error.
    For a valid [page] and [size] whose offset the driver can bind, the
    list answers the empty page, with [total = 0] and [pages = 1], to every
    caller whose role is not [USER], to a regular user without dogs and to
    a regular user who asks for no dog or for a dog of their own; a regular
    user with dogs who asks for another dog is answered 403, as without
    the dates.  No answer to such a range is anything but the empty
    page. *)
Theorem list_health_records_inverted_dates
  (s : Session) (u : User.t) (dog_id : option string) (a b : Z)
  (page size : Z) :
  b < a ->
  (1 <= page -> 1 <= size <= 100 -> (page - 1) * size <= int64_max ->
   User.role u <> USER
   \/ user_dogs (store s) u = []
   \/ (forall dog, dog_id = Some dog -> dog <> "" -> owns (store s) u dog) ->
   response (list_health_records u dog_id (Some a) (Some b) page size) s
   = inr (mkListResponse [] 0 page size 1))
  /\ (1 <= page -> 1 <= size <= 100 ->
      User.role u = USER -> user_dogs (store s) u <> [] ->
      forall dog, dog_id = Some dog -> dog <> "" ->
      ~ owns (store s) u dog ->
      forbidden (response (list_health_records u dog_id (Some a) (Some b)
                             page size) s) = true)
  /\ (forall resp : ListResponse HealthRecord.t,
        response (list_health_records u dog_id (Some a) (Some b) page size) s
        = inr resp ->
        resp = mkListResponse [] 0 page size 1).
Proof.
  intros Hba.
  assert (Hnone : forall p : HealthRecord.t -> bool,
            (forall r, p r = true -> date_window (Some a) (Some b) r = true) ->
            records_page (filter p (health_records (store s))) page size
            = mkListResponse [] 0 page size 1).
  { intros p Hp'. now apply inverted_window_page with (a := a) (b := b). }
  assert (Hempty : forall p : HealthRecord.t -> bool,
            (forall r, p r = true -> date_window (Some a) (Some b) r = true) ->
            @inr Failure _
              (records_page (filter p (health_records (store s))) page size)
            = inr (mkListResponse [] 0 page size 1)).
  { intros p Hp'. f_equal. now apply Hnone. }
  split; [|split].
  - intros Hp Hs Hb Hallowed.
    rewrite list_health_records_run by assumption.
    replace ((page - 1) * size <=? int64_max) with true
      by (symmetry; now apply Z.leb_le).
    unfold health_plan. cbv zeta.
    destruct (UserRole_eqb (User.role u) USER) eqn:Hreg; cbn [andb].
    + apply UserRole_eqb_eq in Hreg.
      destruct (user_dogs (store s) u) as [|dog0 own] eqn:Hown;
        [reflexivity|].
      destruct Hallowed as [Hrole|[Hnil|Hmine]];
        [contradiction | discriminate Hnil |].
      destruct dog_id as [dog|]; [destruct (truthy dog) eqn:Ht|].
      * assert (Hne : dog <> "").
        { intros ->. discriminate Ht. }
        specialize (Hmine dog eq_refl Hne).
        apply (regular_access_iff_owns _ _ _ Hreg) in Hmine.
        rewrite Hown in Hmine. rewrite Hmine. cbn [negb].
        apply Hempty. intros r Hr. now apply andb_prop in Hr as [_ Hr].
      * apply Hempty. intros r Hr. now apply andb_prop in Hr as [_ Hr].
      * apply Hempty. intros r Hr. now apply andb_prop in Hr as [_ Hr].
    + destruct dog_id as [dog|]; [destruct (truthy dog)|];
        apply Hempty; intros r Hr;
        first [exact Hr | now apply andb_prop in Hr as [_ Hr]].
  - intros Hp Hs Hrole Hdogs dog -> Hne Hother.
    rewrite list_health_records_run by assumption.
    unfold health_plan. cbv zeta.
    replace (UserRole_eqb (User.role u) USER) with true
      by (symmetry; now apply UserRole_eqb_eq).
    cbn [andb].
    destruct (user_dogs (store s) u) as [|dog0 own] eqn:Hown;
      [contradiction|].
    replace (truthy dog) with true
      by (unfold truthy; apply String.eqb_neq in Hne; now rewrite Hne).
    destruct (existsb (fun d => String.eqb (Dog.id d) dog) (dog0 :: own))
      eqn:Hex; [|reflexivity].
    exfalso. apply Hother.
    apply (regular_access_iff_owns _ _ _ Hrole). now rewrite Hown.
  - intros resp Hresp.
    destruct ((1 <=? page) && ((1 <=? size) && (size <=? 100))) eqn:Hv.
    2:{ unfold response in Hresp.
        rewrite list_health_records_invalid in Hresp by assumption.
        discriminate Hresp. }
    apply valid_page_size in Hv as [Hp Hs].
    rewrite list_health_records_run in Hresp by assumption.
    unfold health_plan in Hresp. cbv zeta in Hresp.
    destruct (UserRole_eqb (User.role u) USER
              && match user_dogs (store s) u with
                 | [] => true
                 | _ :: _ => false
                 end); [now injection Hresp|].
    destruct dog_id as [dog|]; [destruct (truthy dog)|].
    + destruct (UserRole_eqb (User.role u) USER && negb _);
        [discriminate Hresp|].
      destruct ((page - 1) * size <=? int64_max); [|discriminate Hresp].
      injection Hresp as <-. apply Hnone. intros r Hr.
      now apply andb_prop in Hr as [_ Hr].
    + destruct ((page - 1) * size <=? int64_max); [|discriminate Hresp].
      injection Hresp as <-. apply Hnone. intros r Hr.
      now apply andb_prop in Hr as [_ Hr].
    + destruct ((page - 1) * size <=? int64_max); [|discriminate Hresp].
      injection Hresp as <-. apply Hnone. intros r Hr.
      now apply andb_prop in Hr as [_ Hr].
Qed.

Lemma list_health_records_inverted_dates_witness :
  response (list_health_records root_admin None (Some 200) (Some 100) 3 10)
    (mkSession two_checkups_store [])
  = inr (mkListResponse [] 0 3 10 1)
  /\ forbidden (response (list_health_records bob (Some "d2") (Some 200)
                            (Some 100) 1 10)
                  (mkSession two_checkups_store [])) = true.
Proof.
  destruct (list_health_records_inverted_dates
              (mkSession two_checkups_store []) root_admin None 200 100 3 10
              ltac:(lia)) as [Hpage _].
  destruct (list_health_records_inverted_dates
              (mkSession two_checkups_store []) bob (Some "d2") 200 100 1 10
              ltac:(lia)) as (_ & Hdeny & _).
  split.
  - apply Hpage; [lia | lia | unfold int64_max; lia |].
    left. discriminate.
  - apply (Hdeny ltac:(lia) ltac:(lia) eq_refl) with (dog := "d2").
    + discriminate.
    + reflexivity.
    + discriminate.
    + intros (o & dog & Ho & Hin & Hid & Hown).
      cbn in Ho. injection Ho as <-.
      cbn in Hin. destruct Hin as [<-|[<-|[]]]; cbn in Hid, Hown;
        discriminate.
Defined.

Lemma get_health_record_response (record_id : string) (u : User.t)
  (s : Session) (r : HealthRecord.t) :
  health_record_at (store s) record_id = Some r ->
  response (get_health_record record_id u) s =
  if UserRole_eqb (User.role u) USER then
    if existsb (fun d => String.eqb (Dog.id d) (HealthRecord.dog_id r))
         (user_dogs (store s) u)
    then inr r
    else inl (HTTPError (mkHTTPException HTTP_403_FORBIDDEN
                "Not authorized to view this health record"))
  else inr r.
Proof.
  intros Hr. unfold get_health_record.
  rewrite response_bind, first_run. cbn [store rows Model_HealthRecord].
  fold (health_record_at (store s) record_id). rewrite Hr.
  destruct (UserRole_eqb (User.role u) USER); [|reflexivity].
  rewrite response_bind, check_dog_access_run. cbn [store].
  now destruct (existsb _ _).
Qed.

(** X14.  With unique ids, every health record that a page of
    [list_health_records] shows to a caller is returned to that caller by
    [get_health_record]. *)
Theorem listed_health_record_can_be_read
  (s : Session) (u : User.t) (dog_id : option string)
  (date_from date_to : option Z) (page size : Z)
  (resp : ListResponse HealthRecord.t) (r : HealthRecord.t) :
  NoDup (map HealthRecord.id (health_records (store s))) ->
  response (list_health_records u dog_id date_from date_to page size) s
  = inr resp ->
  In r (items resp) ->
  response (get_health_record (HealthRecord.id r) u) s = inr r.
Proof.
  intros Hnd Hresp Hin.
  destruct (listed_health_record_facts s u dog_id date_from date_to page size
              resp r Hresp Hin) as (Hrow & Hscope & _).
  rewrite (get_health_record_response _ u s r).
  - destruct (UserRole_eqb (User.role u) USER) eqn:Hreg; [|reflexivity].
    apply UserRole_eqb_eq in Hreg. now rewrite (Hscope Hreg).
  - unfold health_record_at.
    now apply (find_by_key_complete HealthRecord.id).
Qed.

Lemma listed_health_record_can_be_read_witness :
  response (get_health_record "h2" bob) (mkSession two_checkups_store [])
  = inr checkup_d1.
Proof.
  apply (listed_health_record_can_be_read (mkSession two_checkups_store [])
           bob None None None 1 10 (mkListResponse [checkup_d1] 1 1 10 1)
           checkup_d1).
  - cbn. repeat constructor; cbn; intuition discriminate.
  - reflexivity.
  - now left.
Defined.

(** X15.  [get_health_record] returns a record that exists exactly to a
    caller whose role is not [USER] or whose Owner row owns the record's
    dog; every other caller is answered 403. *)
Theorem get_health_record_iff_in_scope
  (s : Session) (u : User.t) (record_id : string) (r : HealthRecord.t) :
  health_record_at (store s) record_id = Some r ->
  (response (get_health_record record_id u) s = inr r
   <-> User.role u <> USER \/ owns (store s) u (HealthRecord.dog_id r))
  /\ (response (get_health_record record_id u) s <> inr r ->
      forbidden (response (get_health_record record_id u) s) = true).
Proof.
  intros Hr. rewrite (get_health_record_response record_id u s r Hr).
  destruct (UserRole_eqb (User.role u) USER) eqn:Hreg.
  - apply UserRole_eqb_eq in Hreg.
    rewrite <- (regular_access_iff_owns _ _ _ Hreg).
    destruct (existsb _ _); split.
    + split; [auto|reflexivity].
    + congruence.
    + split; [discriminate|]. intros [H|H]; [contradiction|discriminate].
    + reflexivity.
  - split; [|congruence]. split; [|reflexivity]. intros _. left.
    intros E. rewrite E in Hreg. discriminate Hreg.
Qed.

Lemma get_health_record_iff_in_scope_witness :
  forbidden (response (get_health_record "h1" bob)
               (mkSession two_checkups_store [])) = true.
Proof.
  apply (get_health_record_iff_in_scope (mkSession two_checkups_store [])
           bob "h1" checkup_d2); [reflexivity|].
  discriminate.
Defined.

(** What [create_health_record] answers and the store it leaves. *)
Lemma create_health_record_outcome (uuid : string)
  (hc : HealthRecordCreate.t) (u : User.t) (s : Session) :
  (response (create_health_record uuid hc u) s,
   store_after (create_health_record uuid hc u) s) =
  if role_in (User.role u) [ADMIN; SUPER_ADMIN] then
    match dog_at (store s) (HealthRecordCreate.dog_id hc) with
    | None =>
        (inl (HTTPError (mkHTTPException HTTP_404_NOT_FOUND "Dog not found")),
         store s)
    | Some _ =>
        match health_record_at (store s) uuid with
        | Some _ => (inl IntegrityError, store s)
        | None =>
            (inr (new_health_record uuid hc u),
             with_health_records (store s)
               (health_records (store s) ++ [new_health_record uuid hc u]))
        end
    end
  else
    (inl (HTTPError (mkHTTPException HTTP_403_FORBIDDEN
            "Only administrators can create health records")), store s).
Proof.
  unfold response, store_after, create_health_record.
  destruct (role_in (User.role u) [ADMIN; SUPER_ADMIN]); cbn [negb];
    [|reflexivity].
  unfold bind. rewrite first_run. cbn [store rows Model_Dog].
  fold (dog_at (store s) (HealthRecordCreate.dog_id hc)).
  destruct (dog_at (store s) (HealthRecordCreate.dog_id hc)); [|reflexivity].
  fold (new_health_record uuid hc u).
  unfold add_health_record, bind, log_stmt, get_store, put_store, fail, ret.
  cbn [store fst snd].
  destruct (existsb _ _) eqn:Ex.
  - destruct (health_record_at (store s) uuid) eqn:Er; [reflexivity|].
    apply (existsb_find_none HealthRecord.id) in Er.
    unfold new_health_record in Ex. cbn [HealthRecord.id] in Ex. congruence.
  - apply (existsb_find_none HealthRecord.id) in Ex.
    unfold new_health_record in Ex. cbn [HealthRecord.id] in Ex.
    unfold health_record_at. rewrite Ex. reflexivity.
Qed.

(** X16.  A health record that an elevated caller creates for a dog that
    exists, under an id that is not taken, is appended with the caller as
    author, and is read back with [get_health_record] by every caller whose
    role is not [USER] and by the regular user whose Owner row owns the
    dog; the writes touch no other table. *)
Theorem create_health_record_then_get
  (uuid : string) (hc : HealthRecordCreate.t) (u : User.t) (s : Session)
  (dog : Dog.t) :
  elevated u ->
  dog_at (store s) (HealthRecordCreate.dog_id hc) = Some dog ->
  health_record_at (store s) uuid = None ->
  let r := new_health_record uuid hc u in
  let d' := store_after (create_health_record uuid hc u) s in
  response (create_health_record uuid hc u) s = inr r
  /\ HealthRecord.author_user_id r = User.id u
  /\ d' = with_health_records (store s) (health_records (store s) ++ [r])
  /\ (forall v log,
        User.role v <> USER
        \/ owns (store s) v (HealthRecordCreate.dog_id hc) ->
        response (get_health_record uuid v) (mkSession d' log) = inr r).
Proof.
  intros He Hdog Hfresh r d'.
  pose proof (create_health_record_outcome uuid hc u s) as H.
  rewrite (proj2 (role_in_admins _) He), Hdog, Hfresh in H.
  injection H as Hresp Hstore. fold r in Hresp, Hstore. fold d' in Hstore.
  split; [exact Hresp|]. split; [reflexivity|]. split; [exact Hstore|].
  intros v log Hv.
  assert (Hat : health_record_at (store (mkSession d' log)) uuid = Some r).
  { cbn [store]. rewrite Hstore. unfold health_record_at.
    cbn [with_health_records health_records].
    rewrite (find_by_key_append HealthRecord.id).
    fold (health_record_at (store s) uuid). rewrite Hfresh.
    unfold r. cbn [new_health_record HealthRecord.id].
    now rewrite String.eqb_refl. }
  rewrite (get_health_record_response uuid v _ r Hat).
  destruct (UserRole_eqb (User.role v) USER) eqn:Hreg; [|reflexivity].
  apply UserRole_eqb_eq in Hreg.
  destruct Hv as [Hv|Hv]; [contradiction|].
  assert (Hacc : existsb (fun d => String.eqb (Dog.id d)
                                     (HealthRecord.dog_id r))
                   (user_dogs (store (mkSession d' log)) v) = true).
  { apply regular_access_iff_owns; [exact Hreg|].
    cbn [store]. rewrite Hstore. exact Hv. }
  now rewrite Hacc.
Qed.

Lemma create_health_record_then_get_witness :
  response (get_health_record "h9" bob)
    (mkSession
       (store_after (create_health_record "h9"
                       (HealthRecordCreate.mk "d1" 140 no_fields) root_admin)
          (mkSession kennel_store [])) [])
  = inr (new_health_record "h9" (HealthRecordCreate.mk "d1" 140 no_fields)
           root_admin).
Proof.
  destruct (create_health_record_then_get "h9"
              (HealthRecordCreate.mk "d1" 140 no_fields) root_admin
              (mkSession kennel_store []) (Dog.mk "d1" "o-bob"))
    as (_ & _ & _ & Hget).
  - left. reflexivity.
  - reflexivity.
  - reflexivity.
  - apply Hget. right. exists owner_bob, (Dog.mk "d1" "o-bob").
    repeat split. now left.
Defined.

End HealthRecordScope.

Section HealthRecordScanWitness.

Import health_records.

Lemma list_health_records_scan_independent_witness :
  response (list_health_records root_admin None None None 1 10)
    (mkSession two_checkups_store [])
  = response (list_health_records root_admin None None None 1 10)
      (mkSession two_checkups_rescanned []).
Proof.
  apply (list_health_records_scan_independent root_admin None None None 1 10
           (mkSession two_checkups_store [])
           (mkSession two_checkups_rescanned [])).
  - lia.
  - lia.
  - reflexivity.
  - reflexivity.
  - cbn. repeat constructor; cbn; intuition discriminate.
  - apply perm_swap.
Defined.

End HealthRecordScanWitness.

(** * Certificates: create, update, delete *)

Section CertificateWrites.

Import certificate_service.

Lemma certificate_at_sound (d : Db) (certificate_id : string)
  (c : Certificate.t) :
  certificate_at d certificate_id = Some c ->
  Certificate.id c = certificate_id /\ In c (certificates d).
Proof. apply (find_by_key_sound Certificate.id). Qed.

Lemma service_get_certificate_run (certificate_id : string) (s : Session) :
  get_certificate certificate_id s =
  (inr (certificate_at (store s) certificate_id),
   mkSession (store s) (executed s ++ [SELECT TCertificate])).
Proof. unfold get_certificate. now rewrite first_run. Qed.

(** What [create_certificate] answers and the store it leaves. *)
Lemma create_certificate_outcome (uuid : string) (now : Z)
  (cc : CertificateCreate.t) (s : Session) :
  (response (create_certificate uuid now cc) s,
   store_after (create_certificate uuid now cc) s) =
  match certificate_at (store s) uuid with
  | Some _ => (inl IntegrityError, store s)
  | None =>
      (inr (new_certificate uuid now cc),
       with_certificates (store s)
         (certificates (store s) ++ [new_certificate uuid now cc]))
  end.
Proof.
  unfold response, store_after, create_certificate, put_certificates, bind,
    log_stmt, get_store, put_store, fail, ret.
  fold (new_certificate uuid now cc). cbn [store fst snd].
  destruct (existsb _ _) eqn:Ex.
  - destruct (certificate_at (store s) uuid) eqn:Ec; [reflexivity|].
    apply (existsb_find_none Certificate.id) in Ec. congruence.
  - apply (existsb_find_none Certificate.id) in Ex.
    unfold certificate_at. rewrite Ex. reflexivity.
Qed.

(** What [update_certificate] answers and the store it leaves. *)
Lemma update_certificate_outcome (certificate_id : string)
  (cu : CertificateUpdate.t) (s : Session) :
  (response (update_certificate certificate_id cu) s,
   store_after (update_certificate certificate_id cu) s) =
  match certificate_at (store s) certificate_id with
  | None => (inr None, store s)
  | Some c =>
      match setattrs c cu with
      | None => (inl IntegrityError, store s)
      | Some c' =>
          (inr (Some c'),
           with_certificates (store s)
             (replace_certificate c' (certificates (store s))))
      end
  end.
Proof.
  unfold response, store_after, update_certificate, bind.
  rewrite first_run. cbn [store rows Model_Certificate].
  fold (certificate_at (store s) certificate_id).
  destruct (certificate_at (store s) certificate_id) as [c|]; [|reflexivity].
  unfold log_stmt. cbn [fst snd store].
  destruct (setattrs c cu); reflexivity.
Qed.

(** What [delete_certificate] answers and the store it leaves. *)
Lemma delete_certificate_outcome (certificate_id : string) (s : Session) :
  (response (delete_certificate certificate_id) s,
   store_after (delete_certificate certificate_id) s) =
  match certificate_at (store s) certificate_id with
  | None => (inr false, store s)
  | Some c =>
      (inr true,
       with_certificates (store s)
         (remove_certificate c (certificates (store s))))
  end.
Proof.
  unfold response, store_after, delete_certificate, bind.
  rewrite first_run. cbn [store rows Model_Certificate].
  fold (certificate_at (store s) certificate_id).
  destruct (certificate_at (store s) certificate_id); reflexivity.
Qed.

Lemma certificate_setattrs_identity (c c' : Certificate.t)
  (cu : CertificateUpdate.t) :
  setattrs c cu = Some c' ->
  Certificate.id c' = Certificate.id c
  /\ Certificate.created_at c' = Certificate.created_at c.
Proof.
  unfold setattrs, set_required.
  destruct cu as [d t n i o e f nt]. cbn.
  destruct d as [[d|]|], t as [[t|]|], i as [[i|]|], o as [[o|]|];
    try discriminate; intros [= <-]; now cbn.
Qed.

(** What the update route answers and the store it leaves: the route looks
    the certificate up, the service looks it up again. *)
Lemma update_certificate_route_outcome (certificate_id : string)
  (cu : CertificateUpdate.t) (u : User.t) (s : Session) :
  (response (certificates.update_certificate certificate_id cu u) s,
   store_after (certificates.update_certificate certificate_id cu u) s) =
  match certificate_at (store s) certificate_id with
  | None =>
      (inl (HTTPError (mkHTTPException 404 "Certificate not found")), store s)
  | Some c =>
      match setattrs c cu with
      | None => (inl IntegrityError, store s)
      | Some c' =>
          (inr (Some c'),
           with_certificates (store s)
             (replace_certificate c' (certificates (store s))))
      end
  end.
Proof.
  unfold response, store_after, certificates.update_certificate, bind.
  rewrite service_get_certificate_run.
  destruct (certificate_at (store s) certificate_id) as [c|] eqn:Ec;
    [|reflexivity].
  pose proof (update_certificate_outcome certificate_id cu
                (mkSession (store s) (executed s ++ [SELECT TCertificate])))
    as H.
  unfold response, store_after in H. cbn [store] in H. rewrite Ec in H.
  exact H.
Qed.

(** What the delete route answers and the store it leaves. *)
Lemma delete_certificate_route_outcome (certificate_id : string)
  (u : User.t) (s : Session) :
  (response (certificates.delete_certificate certificate_id u) s,
   store_after (certificates.delete_certificate certificate_id u) s) =
  match certificate_at (store s) certificate_id with
  | None =>
      (inl (HTTPError (mkHTTPException 404 "Certificate not found")), store s)
  | Some c =>
      (inr "Certificate deleted successfully",
       with_certificates (store s)
         (remove_certificate c (certificates (store s))))
  end.
Proof.
  unfold response, store_after, certificates.delete_certificate, bind.
  rewrite service_get_certificate_run.
  destruct (certificate_at (store s) certificate_id) as [c|] eqn:Ec;
    [|reflexivity].
  pose proof (delete_certificate_outcome certificate_id
                (mkSession (store s) (executed s ++ [SELECT TCertificate])))
    as H.
  unfold response, store_after in H. cbn [store] in H. rewrite Ec in H.
  destruct (delete_certificate certificate_id _) as [[e|b] s'];
    cbn [fst snd] in H; injection H as H1 H2;
    [discriminate H1|].
  unfold ret. cbn [fst snd]. now rewrite H2.
Qed.

(** X18.  A certificate created under an id that is not taken is appended
    to the table as the request gave it, every authenticated caller reads
    it back with [get_certificate], and every other id finds what it found
    before; an id that is taken fails the commit and changes nothing. *)
Theorem create_certificate_then_get
  (uuid : string) (now : Z) (cc : CertificateCreate.t) (u : User.t)
  (s : Session) :
  let c := new_certificate uuid now cc in
  let d' := store_after (certificates.create_certificate uuid now cc u) s in
  (certificate_at (store s) uuid = None ->
   response (certificates.create_certificate uuid now cc u) s = inr c
   /\ certificates d' = (certificates (store s) ++ [c])%list
   /\ (forall v log,
         response (certificates.get_certificate uuid v) (mkSession d' log)
         = inr c)
   /\ (forall other, other <> uuid ->
         certificate_at d' other = certificate_at (store s) other))
  /\ (certificate_at (store s) uuid <> None ->
      response (certificates.create_certificate uuid now cc u) s
      = inl IntegrityError
      /\ d' = store s).
Proof.
  intros c d'.
  pose proof (create_certificate_outcome uuid now cc s) as H.
  unfold certificates.create_certificate in *. fold c in H. fold d' in H.
  split.
  - intros Hfresh. rewrite Hfresh in H. injection H as Hresp Hstore.
    split; [exact Hresp|]. rewrite Hstore.
    split; [reflexivity|]. split.
    + intros v log. rewrite get_certificate_run. unfold certificate_at.
      cbn [store with_certificates certificates].
      rewrite (find_by_key_append Certificate.id).
      fold (certificate_at (store s) uuid). rewrite Hfresh.
      unfold c. cbn [new_certificate Certificate.id].
      now rewrite String.eqb_refl.
    + intros other Hne. unfold certificate_at.
      cbn [with_certificates certificates].
      rewrite (find_by_key_append Certificate.id).
      destruct (find _ (certificates (store s))); [reflexivity|].
      unfold c. cbn [new_certificate Certificate.id].
      apply not_eq_sym, String.eqb_neq in Hne. now rewrite Hne.
  - intros Htaken.
    destruct (certificate_at (store s) uuid); [|contradiction].
    now injection H as -> ->.
Qed.

Lemma create_certificate_then_get_witness :
  response (certificates.get_certificate "c2" alice)
    (mkSession
       (store_after (certificates.create_certificate "c2" 300 rabies_request
                       root_admin) (mkSession kennel_store [])) [])
  = inr (new_certificate "c2" 300 rabies_request).
Proof.
  destruct (create_certificate_then_get "c2" 300 rabies_request root_admin
              (mkSession kennel_store [])) as [Hfresh _].
  destruct (Hfresh eq_refl) as (_ & _ & Hget & _).
  apply Hget.
Defined.

(** X19.  The update route answers 404 for an id that is not there and
    never answers [null]; a successful update keeps the id and the creation
    time, the patched certificate is what [get_certificate] returns
    afterwards, and every other id finds what it found before. *)
Theorem update_certificate_keeps_identity
  (s : Session) (u : User.t) (certificate_id : string)
  (cu : CertificateUpdate.t) :
  response (certificates.update_certificate certificate_id cu u) s
  <> inr None
  /\ (certificate_at (store s) certificate_id = None ->
      not_found (response (certificates.update_certificate certificate_id
                             cu u) s) = true
      /\ store_after (certificates.update_certificate certificate_id cu u) s
         = store s)
  /\ (forall c',
        response (certificates.update_certificate certificate_id cu u) s
        = inr (Some c') ->
        let d' :=
          store_after (certificates.update_certificate certificate_id cu u) s
        in
        (exists c, certificate_at (store s) certificate_id = Some c
                   /\ Certificate.id c' = Certificate.id c
                   /\ Certificate.created_at c' = Certificate.created_at c)
        /\ (forall v log,
              response (certificates.get_certificate certificate_id v)
                (mkSession d' log) = inr c')
        /\ (forall other, other <> certificate_id ->
              certificate_at d' other = certificate_at (store s) other)).
Proof.
  pose proof (update_certificate_route_outcome certificate_id cu u s) as H.
  destruct (certificate_at (store s) certificate_id) as [c|] eqn:Ec.
  - destruct (setattrs c cu) as [c1|] eqn:Es; injection H as Hresp Hstore;
      rewrite Hresp, Hstore.
    + split; [discriminate|]. split; [discriminate|].
      intros c' [= <-]. cbv zeta.
      destruct (certificate_setattrs_identity c c1 cu Es) as [Hid Hcreated].
      destruct (certificate_at_sound _ _ _ Ec) as [Hcid _].
      split; [now exists c|].
      unfold certificate_at, replace_certificate.
      cbn [store with_certificates certificates]. split.
      * intros v log. rewrite get_certificate_run. unfold certificate_at.
        cbn [store with_certificates certificates].
        rewrite (find_by_key_replace Certificate.id), Hid, Hcid,
          String.eqb_refl.
        fold (certificate_at (store s) certificate_id). now rewrite Ec.
      * intros other Hne.
        rewrite (find_by_key_replace Certificate.id), Hid, Hcid.
        apply not_eq_sym, String.eqb_neq in Hne. now rewrite Hne.
    + split; [discriminate|]. split; [discriminate|]. discriminate.
  - injection H as Hresp Hstore. rewrite Hresp, Hstore.
    split; [discriminate|]. split; [now split|]. discriminate.
Qed.

Lemma update_certificate_keeps_identity_witness :
  not_found (response (certificates.update_certificate "c9" reissue
                         root_admin) (mkSession kennel_store [])) = true.
Proof.
  apply (update_certificate_keeps_identity (mkSession kennel_store [])
           root_admin "c9" reissue).
  reflexivity.
Defined.

(** X20.  Deleting a certificate that exists removes it and nothing else:
    afterwards the id finds nothing, the routes answer 404 for it, the
    service's [delete_certificate] returns [False] and leaves the store as
    it is, and every other id finds what it found before.  On a store
    without the id the service returns [False] at once. *)
Theorem delete_certificate_then_gone
  (s : Session) (u : User.t) (certificate_id : string) :
  let d' := store_after (certificates.delete_certificate certificate_id u) s in
  (forall c,
     certificate_at (store s) certificate_id = Some c ->
     response (certificates.delete_certificate certificate_id u) s
     = inr "Certificate deleted successfully"
     /\ response (delete_certificate certificate_id) s = inr true
     /\ certificate_at d' certificate_id = None
     /\ (forall v log,
           not_found (response (certificates.get_certificate certificate_id v)
                        (mkSession d' log)) = true
           /\ not_found (response (certificates.delete_certificate
                                     certificate_id v) (mkSession d' log))
              = true)
     /\ (forall other, other <> certificate_id ->
           certificate_at d' other = certificate_at (store s) other))
  /\ (certificate_at (store s) certificate_id = None ->
      response (delete_certificate certificate_id) s = inr false
      /\ store_after (delete_certificate certificate_id) s = store s).
Proof.
  intros d'.
  pose proof (delete_certificate_route_outcome certificate_id u s) as H.
  pose proof (delete_certificate_outcome certificate_id s) as Hsvc.
  fold d' in H. split.
  - intros c Hc. rewrite Hc in H, Hsvc.
    injection H as Hresp Hstore. injection Hsvc as Hsvc _.
    destruct (certificate_at_sound _ _ _ Hc) as [Hcid _].
    assert (Hgone : certificate_at d' certificate_id = None).
    { rewrite Hstore. unfold certificate_at, remove_certificate.
      cbn [with_certificates certificates].
      now rewrite (find_by_key_remove Certificate.id), Hcid,
        String.eqb_refl. }
    split; [exact Hresp|]. split; [exact Hsvc|]. split; [exact Hgone|].
    split.
    + intros v log. split.
      * now rewrite get_certificate_run; cbn [store]; rewrite Hgone.
      * pose proof (delete_certificate_route_outcome certificate_id v
                      (mkSession d' log)) as H'.
        cbn [store] in H'. rewrite Hgone in H'.
        injection H' as -> _. reflexivity.
    + intros other Hne. rewrite Hstore.
      unfold certificate_at, remove_certificate.
      cbn [with_certificates certificates].
      rewrite (find_by_key_remove Certificate.id), Hcid.
      apply not_eq_sym, String.eqb_neq in Hne. now rewrite Hne.
  - intros Hn. rewrite Hn in Hsvc. now injection Hsvc as -> ->.
Qed.

Lemma delete_certificate_then_gone_witness :
  certificate_at
    (store_after (certificates.delete_certificate "c1" root_admin)
       (mkSession kennel_store [])) "c1" = None.
Proof.
  destruct (delete_certificate_then_gone (mkSession kennel_store [])
              root_admin "c1") as [Hgone _].
  destruct (Hgone rabies_d2 eq_refl) as (_ & _ & H & _).
  exact H.
Defined.

End CertificateWrites.

(** * Certificates: the remaining reads *)

Section CertificateLists.

Import walk_reports health_records.

Context {ops : StoreOps}.

Lemma when_given_blank (o : option string) (q : Query Certificate.t)
  (p : string -> Certificate.t -> bool) :
  certificate_service.when_given (blank o) q p
  = certificate_service.when_given o q p.
Proof.
  unfold certificate_service.when_given, blank, truthy.
  destruct o as [v|]; [|reflexivity].
  destruct (String.eqb_spec v "") as [->|Hne]; [reflexivity|].
  cbn [negb]. apply String.eqb_neq in Hne. now rewrite Hne.
Qed.

(** X21.  A filter sent as the empty string is no filter: the three lists
    answer and behave as if it had not been sent.  For a regular user this
    also means that [dog_id=""] is not checked against the user's dogs. *)
Theorem empty_string_filters_are_ignored (s : Session) (u : User.t) :
  (forall walk_event_id status_filter page size,
     list_walk_reports u (blank walk_event_id) status_filter page size s
     = list_walk_reports u walk_event_id status_filter page size s)
  /\ (forall dog_id date_from date_to page size,
        list_health_records u (blank dog_id) date_from date_to page size s
        = list_health_records u dog_id date_from date_to page size s)
  /\ (forall skip limit_ dog_id cert_type issuer expires_after
             expires_before,
        certificates.get_certificates skip limit_ (blank dog_id)
          (blank cert_type) (blank issuer) (blank expires_after)
          (blank expires_before) u s
        = certificates.get_certificates skip limit_ dog_id cert_type issuer
            expires_after expires_before u s).
Proof.
  split; [|split].
  - intros [ev|] status_filter page size; [|reflexivity].
    unfold blank. destruct (String.eqb_spec ev "") as [->|_]; reflexivity.
  - intros [dog|] date_from date_to page size; [|reflexivity].
    unfold blank. destruct (String.eqb_spec dog "") as [->|_]; reflexivity.
  - intros. unfold certificates.get_certificates,
      certificate_service.get_certificates.
    now rewrite !when_given_blank.
Qed.

Lemma get_certificates_invalid (skip limit_ : Z)
  (dog_id cert_type issuer expires_after expires_before : option string)
  (u : User.t) (s : Session) :
  (0 <=? skip) && ((1 <=? limit_) && (limit_ <=? 1000)) = false ->
  certificates.get_certificates skip limit_ dog_id cert_type issuer
    expires_after expires_before u s
  = (inl RequestValidationError, s).
Proof.
  intros Hv. unfold certificates.get_certificates, validate.
  destruct (0 <=? skip); [|reflexivity].
  cbn [andb] in Hv. rewrite Hv. reflexivity.
Qed.

(** X22.  A page of certificates is a run of consecutive matching rows in
    the order of the scan, starting after the first [skip] of them, at most
    [limit] long; [per_page] is [limit] and [page] is [skip // limit + 1];
    a [skip] at or beyond [total] gives no items. *)
Theorem get_certificates_is_a_run
  (s : Session) (u : User.t) (skip limit_ : Z)
  (dog_id cert_type issuer expires_after expires_before : option string)
  (resp : PaginatedResponse Certificate.t) :
  response (certificates.get_certificates skip limit_ dog_id cert_type issuer
              expires_after expires_before u) s = inr resp ->
  let matching :=
    filter (criteria (certificate_query dog_id cert_type issuer expires_after
                        expires_before)) (certificates (store s)) in
  (0 <= skip /\ 1 <= limit_ <= 1000)
  /\ per_page resp = limit_
  /\ p_page resp = skip / limit_ + 1
  /\ p_total resp = Z.of_nat (length matching)
  /\ Z.of_nat (length (p_items resp))
     = Z.min limit_ (Z.max 0 (p_total resp - skip))
  /\ exists before after : list Certificate.t,
       matching = (before ++ p_items resp ++ after)%list
       /\ Z.of_nat (length before) = Z.min skip (p_total resp).
Proof.
  intros Hresp matching.
  destruct ((0 <=? skip) && ((1 <=? limit_) && (limit_ <=? 1000))) eqn:Hv.
  2:{ unfold response in Hresp.
      rewrite get_certificates_invalid in Hresp by assumption.
      discriminate Hresp. }
  assert (Hvalid : 0 <= skip /\ 1 <= limit_ <= 1000)
    by (rewrite !andb_true_iff, !Z.leb_le in Hv; tauto).
  destruct Hvalid as [Hk Hl].
  unfold response in Hresp. rewrite get_certificates_run in Hresp by assumption.
  cbn [fst] in Hresp.
  destruct (skip <=? int64_max); [|discriminate Hresp].
  injection Hresp as <-. fold matching.
  cbn [per_page p_page p_total p_items certificates_page].
  replace (0 <? limit_) with true by (symmetry; apply Z.ltb_lt; lia).
  split; [tauto|]. split; [reflexivity|]. split; [reflexivity|].
  split; [reflexivity|]. split.
  - now rewrite window_length by lia.
  - exists (firstn (Z.to_nat skip) matching),
           (skipn (Z.to_nat limit_) (skipn (Z.to_nat skip) matching)).
    unfold window. destruct (Z.ltb_spec limit_ 0) as [Hneg|_]; [lia|]. split.
    + now rewrite firstn_skipn, firstn_skipn.
    + rewrite length_firstn. lia.
Qed.

(** X23.  [get_certificates_by_dog_id] returns exactly the certificates of
    that dog, in scan order - also for the empty id, which the filter of
    [get_certificates] would ignore.  For a non-empty id and a [limit] that
    holds them all, [get_certificates] with that dog as its only filter
    returns the same rows and counts them in [total] - unless the [limit]
    is beyond what the driver binds, which the service, called without the
    route's bound on [limit], answers with [OverflowError]. *)
Theorem certificates_by_dog_id (s : Session) (dog_id : string) :
  exists l : list Certificate.t,
    response (certificate_service.get_certificates_by_dog_id dog_id) s = inr l
    /\ (forall c, In c l
                  <-> In c (certificates (store s))
                      /\ Certificate.dog_id c = dog_id)
    /\ (dog_id <> "" ->
        forall limit_ : Z,
          1 <= limit_ -> Z.of_nat (length l) <= limit_ ->
          if limit_ <=? int64_max then
            exists resp : PaginatedResponse Certificate.t,
              response (certificate_service.get_certificates 0 limit_
                          (Some dog_id) None None None None) s = inr resp
              /\ p_items resp = l
              /\ p_total resp = Z.of_nat (length l)
          else
            response (certificate_service.get_certificates 0 limit_
                        (Some dog_id) None None None None) s
            = inl OverflowError).
Proof.
  exists (filter (fun c => String.eqb (Certificate.dog_id c) dog_id)
            (certificates (store s))).
  split; [|split].
  - unfold response, certificate_service.get_certificates_by_dog_id.
    rewrite all_plain_run by reflexivity. cbn [fst criteria filter_ query].
    reflexivity.
  - intros c. now rewrite filter_In, String.eqb_eq.
  - intros Hne limit_ Hl Hfits. unfold response.
    rewrite service_get_certificates_run. cbn [fst].
    replace (int64 0 && int64 limit_) with (limit_ <=? int64_max).
    2:{ unfold int64, int64_max. cbn [andb].
        replace (- 2 ^ 63 <=? 0) with true by reflexivity.
        replace (0 <=? 2 ^ 63 - 1) with true by reflexivity.
        replace (- 2 ^ 63 <=? limit_) with true
          by (symmetry; apply Z.leb_le; lia).
        reflexivity. }
    destruct (limit_ <=? int64_max); [|reflexivity].
    eexists. split; [reflexivity|].
    unfold certificate_query, certificate_service.when_given, truthy.
    apply String.eqb_neq in Hne. rewrite Hne.
    cbn [negb criteria filter_ query p_items p_total certificates_page andb].
    split; [|reflexivity].
    unfold window. destruct (Z.ltb_spec limit_ 0) as [Hneg|_]; [lia|].
    cbn [Z.to_nat skipn]. apply firstn_all2. lia.
Qed.

End CertificateLists.

Section CertificateListRuns.

Lemma get_certificates_is_a_run_witness :
  Z.of_nat (length [rabies_d2]) = Z.min 100 (Z.max 0 (1 - 0)).
Proof.
  apply (get_certificates_is_a_run (ops := unused_ops)
           (mkSession kennel_store []) alice 0 100 None None None None None
           (mkPaginatedResponse [rabies_d2] 1 1 100 1)).
  reflexivity.
Defined.

Lemma certificates_by_dog_id_witness :
  exists resp : PaginatedResponse Certificate.t,
    response (certificate_service.get_certificates (ops := unused_ops) 0 10
                (Some "d2") None None None None) (mkSession kennel_store [])
    = inr resp
    /\ p_items resp = [rabies_d2].
Proof.
  destruct (certificates_by_dog_id (ops := unused_ops)
              (mkSession kennel_store []) "d2")
    as (l & Hl & _ & Hsame).
  vm_compute in Hl. injection Hl as <-.
  destruct (Hsame ltac:(discriminate) 10 ltac:(lia) ltac:(cbn; lia))
    as (resp & Hresp & Hitems & _).
  exists resp. split; assumption.
Defined.

End CertificateListRuns.

Section Expiring.

Import certificate_service.

Lemma date_add_days_some (d n : Z) :
  Z.abs n <= 999999999 /\ 1 <= d + n <= 3652059 ->
  date_add_days d n = Some (d + n).
Proof.
  intros (Hn & Hlo & Hhi). unfold date_add_days.
  apply Z.leb_le in Hn, Hlo, Hhi. now rewrite Hn, Hlo, Hhi.
Qed.

Lemma date_add_days_none (d n : Z) :
  ~ (Z.abs n <= 999999999 /\ 1 <= d + n <= 3652059) ->
  date_add_days d n = None.
Proof.
  intros Hno. unfold date_add_days.
  destruct ((Z.abs n <=? 999999999) && (1 <=? d + n) && (d + n <=? 3652059))
    eqn:E; [|reflexivity].
  rewrite !andb_true_iff, !Z.leb_le in E. tauto.
Qed.

(** X24.  [get_expiring_certificates] returns exactly the certificates whose
    [expires_on] is set and lies between today and today plus [days_ahead],
    both days included; a certificate without an expiry date is never
    returned, and a horizon before today (a negative [days_ahead]) returns
    none.  When the horizon is no date Python can hold, the function raises
    before it queries the store. *)
Theorem expiring_certificates_window
  (s : Session) (today today' days_ahead : Z) :
  (Z.abs days_ahead <= 999999999 /\ 1 <= today + days_ahead <= 3652059 ->
   exists l : list Certificate.t,
     response (get_expiring_certificates today today' days_ahead) s
     = inr (Some l)
     /\ (forall c,
           In c l
           <-> In c (certificates (store s))
               /\ exists e, Certificate.expires_on c = Some e
                            /\ today' <= e <= today + days_ahead)
     /\ (today + days_ahead < today' -> l = []))
  /\ (~ (Z.abs days_ahead <= 999999999
         /\ 1 <= today + days_ahead <= 3652059) ->
      response (get_expiring_certificates today today' days_ahead) s
      = inr None
      /\ calls (get_expiring_certificates today today' days_ahead) s
         = executed s).
Proof.
  split.
  - intros Hok. unfold response, get_expiring_certificates.
    rewrite (date_add_days_some _ _ Hok). unfold bind.
    rewrite all_plain_run by reflexivity.
    cbn [fst ret criteria filter_ query rows Model_Certificate store andb].
    eexists. split; [reflexivity|].
    assert (Hin : forall c,
              In c (filter
                      (fun c => match Certificate.expires_on c with
                                | Some e => (e <=? today + days_ahead)
                                            && (today' <=? e)
                                | None => false
                                end) (certificates (store s)))
              <-> In c (certificates (store s))
                  /\ exists e, Certificate.expires_on c = Some e
                               /\ today' <= e <= today + days_ahead).
    { intros c. rewrite filter_In. split.
      - intros [Hc Hp]. split; [exact Hc|].
        destruct (Certificate.expires_on c) as [e|]; [|discriminate Hp].
        exists e. apply andb_prop in Hp as [H1 H2].
        apply Z.leb_le in H1, H2. split; [reflexivity|lia].
      - intros [Hc (e & He & Hlo & Hhi)]. split; [exact Hc|].
        rewrite He. apply andb_true_intro. split; now apply Z.leb_le. }
    split; [exact Hin|].
    intros Hpast. destruct (filter _ _) as [|c l] eqn:El; [reflexivity|].
    destruct (proj1 (Hin c) (or_introl eq_refl)) as (_ & e & _ & Hlo & Hhi).
    lia.
  - intros Hno. unfold response, calls, get_expiring_certificates.
    now rewrite (date_add_days_none _ _ Hno).
Qed.

Lemma expiring_certificates_window_witness :
  response (get_expiring_certificates 450 450 30) (mkSession kennel_store [])
  = inr (Some [rabies_d2])
  /\ response (get_expiring_certificates 450 450 (-1))
       (mkSession kennel_store [])
     = inr (Some []).
Proof.
  split.
  - destruct (expiring_certificates_window (mkSession kennel_store [])
                450 450 30) as [Hok _].
    destruct (Hok ltac:(lia)) as (l & Hl & _).
    rewrite Hl. vm_compute in Hl. injection Hl as <-. reflexivity.
  - destruct (expiring_certificates_window (mkSession kennel_store [])
                450 450 (-1)) as [Hok _].
    destruct (Hok ltac:(lia)) as (l & Hl & _ & Hnone).
    rewrite Hl. now rewrite (Hnone ltac:(lia)).
Defined.

End Expiring.

(** * The list of CORS origins *)

Section CorsOrigins.

Import config.

Variable isspace : Z -> bool.

Lemma split_not_nil (s : list Z) : split s <> [].
Proof.
  destruct s as [|c s]; cbn [split]; [discriminate|].
  destruct (c =? comma); [discriminate|].
  destruct (split s); discriminate.
Qed.

Lemma split_length (s : list Z) :
  length (split s) = S (count_occ Z.eq_dec s comma).
Proof.
  induction s as [|c s IH]; [reflexivity|].
  cbn [split count_occ].
  destruct (Z.eqb_spec c comma) as [->|Hne].
  - destruct (Z.eq_dec comma comma); [|contradiction].
    cbn [length]. now rewrite IH.
  - destruct (Z.eq_dec c comma); [contradiction|].
    destruct (split s) as [|piece pieces] eqn:Es;
      [now destruct (split_not_nil s)|].
    cbn [length] in *. exact IH.
Qed.

Lemma split_pieces_no_comma (s : list Z) :
  Forall (fun piece => ~ In comma piece) (split s).
Proof.
  induction s as [|c s IH]; cbn [split].
  - constructor; [intros []|constructor].
  - destruct (Z.eqb_spec c comma) as [->|Hne].
    + constructor; [intros []|exact IH].
    + destruct (split s) as [|piece pieces];
        [repeat constructor; intros [H|[]]; congruence|].
      apply Forall_cons_iff in IH as [Hp Hps].
      constructor; [|exact Hps].
      intros [H|H]; [congruence|contradiction].
Qed.

Lemma split_one_piece (w : list Z) : ~ In comma w -> split w = [w].
Proof.
  induction w as [|c w IH]; intros Hw; [reflexivity|].
  cbn [split]. destruct (Z.eqb_spec c comma) as [->|_].
  - exfalso. apply Hw. now left.
  - rewrite IH; [reflexivity|]. intros H. apply Hw. now right.
Qed.

Lemma split_piece_comma (w rest : list Z) :
  ~ In comma w -> split (w ++ comma :: rest) = w :: split rest.
Proof.
  induction w as [|c w IH]; intros Hw; cbn [app split].
  - now rewrite Z.eqb_refl.
  - destruct (Z.eqb_spec c comma) as [->|_].
    + exfalso. apply Hw. now left.
    + rewrite IH; [reflexivity|]. intros H. apply Hw. now right.
Qed.

(** [split] undoes [join]. *)
Lemma split_join (pieces : list (list Z)) :
  pieces <> [] -> Forall (fun piece => ~ In comma piece) pieces ->
  split (join_comma pieces) = pieces.
Proof.
  induction pieces as [|w pieces IH]; intros Hne Hall; [contradiction|].
  apply Forall_cons_iff in Hall as [Hw Hall].
  destruct pieces as [|w' pieces].
  - cbn [join_comma]. now apply split_one_piece.
  - change (join_comma (w :: w' :: pieces))
      with (w ++ comma :: join_comma (w' :: pieces))%list.
    rewrite split_piece_comma by exact Hw.
    now rewrite IH.
Qed.

Lemma lstrip_blanks (blanks s : list Z) :
  Forall (fun c => isspace c = true) blanks ->
  lstrip isspace (blanks ++ s) = lstrip isspace s.
Proof.
  induction 1 as [|c blanks Hc _ IH]; [reflexivity|].
  cbn [app lstrip]. now rewrite Hc.
Qed.

Lemma lstrip_starts (c : Z) (s : list Z) :
  isspace c = false -> lstrip isspace (c :: s) = c :: s.
Proof. intros Hc. cbn [lstrip]. now rewrite Hc. Qed.

Lemma lstrip_suffix (s : list Z) :
  exists blanks,
    s = (blanks ++ lstrip isspace s)%list
    /\ Forall (fun c => isspace c = true) blanks.
Proof.
  induction s as [|c s (blanks & Hs & Hb)]; [now exists []|].
  cbn [lstrip]. destruct (isspace c) eqn:Hc.
  - exists (c :: blanks). split; [cbn [app]; now f_equal|now constructor].
  - now exists [].
Qed.

Lemma lstrip_head (s : list Z) (c : Z) (rest : list Z) :
  lstrip isspace s = c :: rest -> isspace c = false.
Proof.
  induction s as [|d s IH]; [discriminate|].
  cbn [lstrip]. destruct (isspace d) eqn:Hd; [exact IH|].
  now intros [= <- _].
Qed.

Lemma strip_padded (before origin after : list Z) :
  Forall (fun c => isspace c = true) before ->
  Forall (fun c => isspace c = true) after ->
  trimmed isspace origin ->
  strip isspace (before ++ origin ++ after) = origin.
Proof.
  intros Hb Ha [Hfirst Hlast]. unfold strip, rstrip.
  rewrite lstrip_blanks by exact Hb.
  destruct origin as [|c origin].
  - cbn [app]. rewrite <- (app_nil_r after), lstrip_blanks by exact Ha.
    reflexivity.
  - rewrite <- app_comm_cons, lstrip_starts by (now apply (Hfirst c origin)).
    rewrite app_comm_cons, rev_app_distr.
    rewrite lstrip_blanks by (now apply Forall_rev).
    destruct (rev (c :: origin)) as [|d tail] eqn:Er.
    + apply (f_equal (@rev Z)) in Er. rewrite rev_involutive in Er.
      discriminate Er.
    + rewrite lstrip_starts.
      * rewrite <- Er. apply rev_involutive.
      * apply (Hlast d (rev tail)).
        apply (f_equal (@rev Z)) in Er. rewrite rev_involutive in Er.
        exact Er.
Qed.

Lemma strip_is_trimmed (s : list Z) : trimmed isspace (strip isspace s).
Proof.
  unfold strip, rstrip.
  destruct (lstrip_suffix (rev (lstrip isspace s))) as (blanks & Hrev & Hb).
  set (t := lstrip isspace (rev (lstrip isspace s))) in *.
  split.
  - intros c o' Ho.
    assert (Hl : lstrip isspace s = ((c :: o') ++ rev blanks)%list).
    { rewrite <- Ho, <- rev_app_distr, <- Hrev. now rewrite rev_involutive. }
    now apply (lstrip_head s c (o' ++ rev blanks)%list).
  - intros c o' Ho.
    assert (Ht : t = c :: rev o').
    { rewrite <- (rev_involutive t), Ho, rev_app_distr. reflexivity. }
    now apply (lstrip_head (rev (lstrip isspace s)) c (rev o')).
Qed.

Lemma strip_sublist (s : list Z) (c : Z) :
  In c (strip isspace s) -> In c s.
Proof.
  unfold strip, rstrip. intros Hc. apply in_rev in Hc.
  destruct (lstrip_suffix (rev (lstrip isspace s))) as (b1 & H1 & _).
  assert (H2 : In c (rev (lstrip isspace s))).
  { rewrite H1. apply in_or_app. now right. }
  apply in_rev in H2.
  destruct (lstrip_suffix s) as (b2 & H3 & _).
  rewrite H3. apply in_or_app. now right.
Qed.

(** X25.  [cors_origins_list] never returns the empty list: it returns one
    origin more than [CORS_ORIGINS] has commas, none of them holding a
    comma, none of them beginning or ending with white space. *)
Theorem cors_origins_list_shape (CORS_ORIGINS : list Z) :
  length (cors_origins_list isspace CORS_ORIGINS)
  = S (count_occ Z.eq_dec CORS_ORIGINS comma)
  /\ Forall (fun origin => ~ In comma origin /\ trimmed isspace origin)
       (cors_origins_list isspace CORS_ORIGINS).
Proof.
  unfold cors_origins_list. split.
  - now rewrite length_map, split_length.
  - apply Forall_map.
    eapply Forall_impl; [|apply split_pieces_no_comma].
    intros piece Hp. split; [|apply strip_is_trimmed].
    intros Hc. apply Hp. now apply strip_sublist in Hc.
Qed.

(** X26.  Origins written one after the other with commas between them and
    any white space around each come back as they were written: the list
    has the origins in order, without the white space - provided no origin
    holds a comma or begins or ends with white space, and the comma is not
    white space. *)
Theorem cors_origins_list_round_trip
  (entries : list (list Z * list Z * list Z)) :
  isspace comma = false ->
  entries <> [] ->
  Forall (fun entry =>
            let '(before, origin, after) := entry in
            Forall (fun c => isspace c = true) before
            /\ Forall (fun c => isspace c = true) after
            /\ ~ In comma origin
            /\ trimmed isspace origin) entries ->
  cors_origins_list isspace (join_comma (map padded entries))
  = map origin_of entries.
Proof.
  intros Hcomma Hne Hall. unfold cors_origins_list.
  rewrite split_join.
  - rewrite map_map. apply map_ext_in. intros [[before origin] after] Hin.
    rewrite Forall_forall in Hall. specialize (Hall _ Hin).
    cbn beta iota in Hall. destruct Hall as (Hb & Ha & _ & Ht).
    cbn [padded origin_of]. now apply strip_padded.
  - destruct entries; [contradiction|discriminate].
  - apply Forall_map. eapply Forall_impl; [|exact Hall].
    intros [[before origin] after] (Hb & Ha & Ho & _). cbn [padded].
    intros Hin. apply in_app_or in Hin as [Hin|Hin];
      [|apply in_app_or in Hin as [Hin|Hin]].
    + rewrite Forall_forall in Hb. specialize (Hb _ Hin). congruence.
    + contradiction.
    + rewrite Forall_forall in Ha. specialize (Ha _ Hin). congruence.
Qed.

End CorsOrigins.

Section CorsOriginsRuns.

(** ["ab, c"] as code points: two origins, the blank after the comma
    gone. *)
Lemma cors_origins_list_round_trip_witness :
  config.cors_origins_list py_isspace [97; 98; 44; 32; 99] = [[97; 98]; [99]].
Proof.
  apply (cors_origins_list_round_trip py_isspace
           [([], [97; 98], []); ([32], [99], [])]).
  - reflexivity.
  - discriminate.
  - assert (Hab : trimmed py_isspace [97; 98]).
    { split; intros c o' H.
      - now injection H as <- _.
      - destruct o' as [|? [|? [|? o']]]; try discriminate H.
        now injection H as _ <-. }
    assert (Hc : trimmed py_isspace [99]).
    { split; intros c o' H.
      - now injection H as <- _.
      - destruct o' as [|? [|? o']]; try discriminate H.
        now injection H as <-. }
    apply Forall_cons; [|apply Forall_cons; [|apply Forall_nil]].
    + split; [apply Forall_nil|]. split; [apply Forall_nil|].
      split; [cbn; intuition discriminate | exact Hab].
    + split; [apply Forall_cons; [reflexivity|apply Forall_nil]|].
      split; [apply Forall_nil|].
      split; [cbn; intuition discriminate | exact Hc].
Defined.

End CorsOriginsRuns.

(** * The booking stub *)

Section Bookings.

Import main.

Variable Any : Type.
Variable str : string -> Any.

Lemma getitem_setitem (k k' : string) (v : Any) (d : dict Any) :
  getitem Any k (setitem Any k' v d)
  = if String.eqb k' k then Some v else getitem Any k d.
Proof.
  unfold getitem. induction d as [|[k0 v0] d IH]; cbn [setitem find fst].
  - now destruct (String.eqb k' k).
  - destruct (String.eqb_spec k0 k') as [->|Hne]; cbn [find fst].
    + now destruct (String.eqb k' k).
    + destruct (String.eqb_spec k0 k) as [->|_]; [|exact IH].
      apply not_eq_sym, String.eqb_neq in Hne. now rewrite Hne.
Qed.

Lemma getitem_cons (k k0 : string) (v0 : Any) (d : dict Any) :
  getitem Any k ((k0, v0) :: d)
  = if String.eqb k0 k then Some v0 else getitem Any k d.
Proof.
  unfold getitem. cbn [find fst]. now destruct (String.eqb k0 k).
Qed.

Lemma keys_setitem (k : string) (v : Any) (d : dict Any) :
  NoDup (map fst d) -> NoDup (map fst (setitem Any k v d)).
Proof.
  induction d as [|[k0 v0] d IH]; intros Hnd; cbn [setitem].
  - repeat constructor. intros [].
  - cbn [map fst] in Hnd. apply NoDup_cons_iff in Hnd as [Hk0 Hnd].
    destruct (String.eqb_spec k0 k) as [->|Hne]; cbn [map fst].
    + now constructor.
    + constructor; [|now apply IH].
      intros Hin. apply in_map_iff in Hin as ([k1 v1] & Hk1 & Hin).
      cbn [fst] in Hk1. subst k1.
      assert (Hkeys : forall d', In (k0, v1) (setitem Any k v d') ->
                        k0 = k \/ In k0 (map fst d')).
      { induction d' as [|[k2 v2] d' IHd]; cbn [setitem].
        - intros [[= -> _]|[]]. now left.
        - destruct (String.eqb k2 k); cbn [In map fst].
          + intros [[= -> _]|H]; [right; now left|].
            right. right. apply in_map_iff. now exists (k0, v1).
          + intros [[= -> _]|H]; [right; now left|].
            destruct (IHd H) as [->|H']; [now left|right; now right]. }
      destruct (Hkeys d Hin) as [->|H]; [congruence|contradiction].
Qed.

(** X27.  [create_booking] lets the request write over the server's fields:
    every key of [booking_data] is in the answer with the caller's value,
    also ["id"] and ["message"]; only where the request has no such key does
    the answer carry ["new_booking_id"] and the server's message.  The
    answer has every key once. *)
Theorem create_booking_request_wins (booking_data : dict Any) (k : string) :
  NoDup (map fst booking_data) ->
  getitem Any k (create_booking Any str booking_data)
  = match getitem Any k booking_data with
    | Some v => Some v
    | None =>
        if String.eqb "id" k then Some (str "new_booking_id")
        else if String.eqb "message" k
             then Some (str "Booking created successfully")
             else None
    end
  /\ NoDup (map fst (create_booking Any str booking_data)).
Proof.
  intros Hnd. unfold create_booking.
  set (literal := [("id", str "new_booking_id");
                   ("message", str "Booking created successfully")]).
  assert (Hlit : NoDup (map fst literal)).
  { cbn. repeat constructor; cbn; intuition discriminate. }
  assert (Hget : getitem Any k literal
                 = if String.eqb "id" k then Some (str "new_booking_id")
                   else if String.eqb "message" k
                        then Some (str "Booking created successfully")
                        else None).
  { unfold getitem, literal. cbn [find fst].
    destruct (String.eqb "id" k); [reflexivity|].
    now destruct (String.eqb "message" k). }
  rewrite <- Hget. clear Hget. revert Hlit. generalize literal.
  induction booking_data as [|[k0 v0] data IH]; intros acc Hacc.
  - cbn [fold_left]. split; [reflexivity | exact Hacc].
  - cbn [map fst] in Hnd. apply NoDup_cons_iff in Hnd as [Hk0 Hnd].
    cbn [fold_left fst snd].
    destruct (IH Hnd (setitem Any k0 v0 acc) (keys_setitem k0 v0 acc Hacc))
      as [Hg Hk].
    split; [|exact Hk]. rewrite Hg, getitem_setitem, getitem_cons.
    destruct (String.eqb_spec k0 k) as [->|_]; [|reflexivity].
    destruct (getitem Any k data) as [v|] eqn:Eg; [|reflexivity].
    exfalso. apply Hk0. unfold getitem in Eg.
    destruct (find _ data) as [[k1 v1]|] eqn:Ef; [|discriminate Eg].
    apply find_some in Ef as [Hin Hk1]. cbn [fst] in Hk1.
    apply String.eqb_eq in Hk1. subst k1.
    apply in_map_iff. now exists (k, v1).
Qed.

End Bookings.

Section BookingRuns.

Lemma create_booking_request_wins_witness :
  main.getitem string "id"
    (main.create_booking string (fun v => v) [("dog_id", "dog1"); ("id", "mine")])
  = Some "mine".
Proof.
  apply (create_booking_request_wins string (fun v => v)
           [("dog_id", "dog1"); ("id", "mine")] "id").
  cbn. repeat constructor; cbn; intuition discriminate.
Defined.

End BookingRuns.
